(** * LeanBLAS: the NumPy reference oracle for complex BLAS

  A shallow embedding of the two Python scripts of the repository,

  - [generate_complex_test_data.py] (module [Generate]): the fixture
    generator and its JSON serializer, with the reader of the fixture
    file that the scripts leave to others;
  - [validate_complex_blas.py] (module [Validate]): the validation harness
    and its complex-number decoder,

  together with the part of Python and NumPy they run on (modules [Py] and
  [Np]).  Python's [float] and NumPy's [float64] are IEEE 754 binary64
  numbers: they are Rocq's primitive floats, so every concrete run of the
  scripts' arithmetic can be replayed by computation. *)

From Stdlib Require Import ZArith NArith List Bool String Ascii Floats Lia.
From Stdlib Require Import DecimalString Field.
From Stdlib Require QArith Qcanon DecimalPos DecimalZ.
Import ListNotations.

Set Warnings "-inexact-float,-register-all".

(* ===================================================================== *)
(** * Python values the scripts compute with *)
(* ===================================================================== *)

Module Py.

(** Python's [complex] and NumPy's [complex128]: a pair of binary64. *)
Record complex : Set := Complex { real : float; imag : float }.

(** A one-dimensional and a two-dimensional [complex128] array (a matrix
    is the list of its rows). *)
Definition vec := list complex.
Definition mat := list (list complex).

Definition of_float (r : float) : complex := Complex r 0.

(** [float(n)] of a Python [int]: the binary64 nearest to [n], ties to
    even. *)
Definition float_of_int (n : Z) : float :=
  SF2Prim (binary_normalize prec emax n 0 false).

(** [a + b], [a - b], [a * b] and [a.conjugate()] on complex scalars, as
    CPython and NumPy's element loops compute them. *)
Definition c_add (a b : complex) : complex :=
  Complex (real a + real b) (imag a + imag b).

Definition c_sub (a b : complex) : complex :=
  Complex (real a - real b) (imag a - imag b).

Definition c_mul (a b : complex) : complex :=
  Complex (real a * real b - imag a * imag b)
          (real a * imag b + imag a * real b).

Definition c_conj (a : complex) : complex :=
  Complex (real a) (- imag a).

(** [a / b] on [complex128] arrays: NumPy's element loop (Smith's method). *)
Definition c_div (a b : complex) : complex :=
  let in2r_abs := abs (real b) in
  let in2i_abs := abs (imag b) in
  if (in2i_abs <=? in2r_abs)%float then
    if ((in2r_abs =? 0) && (in2i_abs =? 0))%float then
      Complex (real a / in2r_abs) (imag a / in2r_abs)
    else
      let rat := (imag b / real b)%float in
      let scl := (1 / (real b + imag b * rat))%float in
      Complex ((real a + imag a * rat) * scl) ((imag a - real a * rat) * scl)
  else
    let rat := (real b / imag b)%float in
    let scl := (1 / (imag b + real b * rat))%float in
    Complex ((real a * rat + imag a) * scl) ((imag a * rat - real a) * scl).

(** [a == b] on complex scalars (IEEE equality on both parts). *)
Definition c_eqb (a b : complex) : bool :=
  ((real a =? real b) && (imag a =? imag b))%float.

(** [math.isfinite] on a float and on both parts of a complex. *)
Definition isfinite (x : float) : bool :=
  negb (is_nan x) && negb (is_infinity x).

Definition c_isfinite (a : complex) : bool :=
  isfinite (real a) && isfinite (imag a).

(** The zero of [complex128], [0.0 + 0.0j]. *)
Definition c_zero : complex := Complex 0 0.

(** A Python [str]: the sequence of its Unicode code points. *)
Definition str := list N.

Definition of_string (s : string) : str :=
  map N_of_ascii (list_ascii_of_string s).

(** ** Console output

    A line written by [print]: the pieces of its f-string, the
    interpolated values kept as values (their rendering is not modelled). *)
Inductive piece : Set :=
| Lit (s : string)
| Int (n : Z)
| Float (f : float)
| Cplx (z : complex)
| Arr (x : vec)
| Arr2 (A : mat).

Definition line := list piece.

(** ** Exceptions and process exit *)

Inductive exn : Set :=
| ValueError (msg : str)
| LinAlgError (msg : string)
| CalledProcessError (returncode : Z).

(** How a script's [main()] ends: it reaches [sys.exit(code)], or an
    exception leaves it uncaught. *)
Inductive outcome : Set :=
| SysExit (code : Z)
| Uncaught (e : exn).

(** The exit status the operating system sees: the argument of
    [sys.exit], and 1 when the interpreter dies of an uncaught exception. *)
Definition exit_status (o : outcome) : Z :=
  match o with
  | SysExit code => code
  | Uncaught _ => 1
  end.

End Py.

Import Py.

(* ===================================================================== *)
(** * NumPy *)
(* ===================================================================== *)

Module Np.

(** Every function the scripts reach through the [np] module.  The
    harness exists to check those computations, so the scripts below take
    the library as a value; [numpy64] further down is the library as
    NumPy defines it. *)
Record api : Type := {
  (** the state of the global (legacy) random generator *)
  rng : Type;
  (** [np.random.seed(s)]: the global state after seeding with [s] *)
  random_seed : Z -> rng;
  (** one standard-normal draw from the global generator *)
  standard_normal : rng -> float * rng;
  dot : vec -> vec -> complex;
  vdot : vec -> vec -> complex;
  linalg_norm : vec -> float;
  sqrt : float -> float;
  (** [np.sum] and [np.abs] on a [float64] array *)
  sum : list float -> float;
  abs : list float -> list float;
  (** [abs(z)] of a [complex128] scalar *)
  absolute : complex -> float;
  (** [np.allclose(a, b, rtol, atol)] on two complex and on two real scalars *)
  allclose : complex -> complex -> float -> float -> bool;
  allclose_real : float -> float -> float -> float -> bool;
  triu : mat -> mat;
  outer : vec -> vec -> mat;
  linalg_solve : mat -> vec -> exn + vec
}.

(** ** Array arithmetic (operators and methods of [ndarray]) *)

(** [x.real] and [x.imag] of a complex array. *)
Definition real_part (x : vec) : list float := map real x.
Definition imag_part (x : vec) : list float := map imag x.

(** [alpha * x] and [alpha * A] with a complex scalar [alpha]. *)
Definition scale (alpha : complex) (x : vec) : vec := map (c_mul alpha) x.
Definition mscale (alpha : complex) (A : mat) : mat := map (scale alpha) A.

(** [x + y] and [A + B], element by element. *)
Fixpoint add (x y : vec) : vec :=
  match x, y with
  | a :: x', b :: y' => c_add a b :: add x' y'
  | _, _ => []
  end.

Fixpoint madd (A B : mat) : mat :=
  match A, B with
  | r :: A', s :: B' => add r s :: madd A' B'
  | _, _ => []
  end.

(** [x / k] and [A / k] with a Python number [k] (cast to complex). *)
Definition div_scalar (x : vec) (k : float) : vec :=
  map (fun a => c_div a (of_float k)) x.
Definition mdiv_scalar (A : mat) (k : float) : mat :=
  map (fun r => div_scalar r k) A.

(** [A.conj()] and [A.T]. *)
Definition conj (x : vec) : vec := map c_conj x.
Definition mconj (A : mat) : mat := map conj A.

Fixpoint transpose_cols (n : nat) (A : mat) : mat :=
  match n with
  | O => []
  | S n' => map (fun r => hd c_zero r) A :: transpose_cols n' (map (@tl _) A)
  end.

Definition T (A : mat) : mat :=
  transpose_cols (List.length (hd [] A)) A.

(** The accumulation loop of the complex dot product: both sums start
    from zero and take the elements in index order.  ([np.dot] and
    [np.vdot] hand a [complex128] array to BLAS, which may add in another
    order and so round the last bit differently; on the tables of the
    harness every product and every sum is a small integer, which no order
    rounds.) *)
Fixpoint dot_loop (sumr sumi : float) (x y : vec) : complex :=
  match x, y with
  | a :: x', b :: y' =>
      dot_loop (sumr + (real a * real b - imag a * imag b))
               (sumi + (real a * imag b + imag a * real b)) x' y'
  | _, _ => Complex sumr sumi
  end.

(** The same with the first operand conjugated. *)
Fixpoint vdot_loop (sumr sumi : float) (x y : vec) : complex :=
  match x, y with
  | a :: x', b :: y' =>
      vdot_loop (sumr + (real a * real b + imag a * imag b))
                (sumi + (real a * imag b - imag a * real b)) x' y'
  | _, _ => Complex sumr sumi
  end.

(** The dot product of two [float64] arrays. *)
Fixpoint rdot_loop (acc : float) (x y : list float) : float :=
  match x, y with
  | a :: x', b :: y' => rdot_loop (acc + a * b) x' y'
  | _, _ => acc
  end.

(** [A @ x] and [A @ B]. *)
Definition matvec (A : mat) (x : vec) : vec :=
  map (fun r => dot_loop 0 0 r x) A.

Definition matmul (A B : mat) : mat :=
  let Bt := T B in map (fun r => map (fun c => dot_loop 0 0 r c) Bt) A.

(** ** The library as NumPy defines it *)

(** [np.sum] of a [float64] array is [np.add.reduce]: the result starts
    from the identity of [add], [0.0], and the inner loop adds to it the
    pairwise sum of the whole array, [*iop1 += DOUBLE_pairwise_sum(...)].
    The pairwise sum is generated for every type of number; it is written
    here for any type [C] with its addition [plus], so that it can be read
    on [float64] and on the integers. *)
Section PairwiseSum.

Variable C : Type.
Variable plus : C -> C -> C.
(** the value the loop over fewer than 8 elements starts from *)
Variable start : C.

(** [r[k] += a[i + k]] for the eight accumulators. *)
Fixpoint add8 (r a : list C) : list C :=
  match r, a with
  | rk :: r', ak :: a' => plus rk ak :: add8 r' a'
  | _, _ => []
  end.

(** [for (i = 8; i < n - (n % 8); i += 8)]: [q] rounds, each adding the
    next eight elements to the accumulators; what is left of the array
    comes back with them. *)
Fixpoint unrolled (q : nat) (r a : list C) : list C * list C :=
  match q with
  | O => (r, a)
  | S q' => unrolled q' (add8 r (firstn 8 a)) (skipn 8 a)
  end.

(** [((r[0] + r[1]) + (r[2] + r[3])) + ((r[4] + r[5]) + (r[6] + r[7]))] *)
Definition combine8 (r : list C) : C :=
  match r with
  | [r0; r1; r2; r3; r4; r5; r6; r7] =>
      plus (plus (plus r0 r1) (plus r2 r3)) (plus (plus r4 r5) (plus r6 r7))
  | _ => start
  end.

(** A block of 8 to 128 elements: eight accumulators that start from the
    first eight elements, the unrolled loop, and the elements after the
    last multiple of 8 added one by one. *)
Definition block_sum (a : list C) : C :=
  let '(r, rest) := unrolled (List.length a / 8 - 1) (firstn 8 a) (skipn 8 a) in
  fold_left plus rest (combine8 r).

(** [pairwise_sum(a, n)]: a plain loop under 8 elements, a block up to
    128, and above that the sum of the two halves, the first of
    [n / 2 - (n / 2) % 8] elements.  [depth] bounds the depth of the
    recursion; the length of the array is more than enough
    ([pairwise_sum_depth] below). *)
Fixpoint pairwise_sum (depth : nat) (a : list C) : C :=
  let n := List.length a in
  if (n <? 8)%nat then fold_left plus a start
  else
    match depth with
    | S depth' =>
        if (n <=? 128)%nat then block_sum a
        else
          let n2 := (n / 2 - (n / 2) mod 8)%nat in
          plus (pairwise_sum depth' (firstn n2 a))
               (pairwise_sum depth' (skipn n2 a))
    | O => block_sum a
    end.

End PairwiseSum.

(** On [float64] the short loop starts from [-0.0]. *)
Definition sum64 (a : list float) : float :=
  (0 + pairwise_sum float PrimFloat.add (-0) (List.length a) a)%float.

(** [np.abs] of a [float64] array. *)
Definition abs64 (a : list float) : list float := map PrimFloat.abs a.

(** [np.linalg.norm] of a complex vector:
    [sqrt(x.real.dot(x.real) + x.imag.dot(x.imag))]. *)
Definition norm64 (x : vec) : float :=
  PrimFloat.sqrt (rdot_loop 0 (real_part x) (real_part x)
                  + rdot_loop 0 (imag_part x) (imag_part x)).

(** [np.triu(A)]: [where(tri(n, m, k=-1), 0, A)], the entries with column
    index below the row index replaced by the zero of the array's type. *)
Fixpoint triu_row (i j : nat) (r : vec) : vec :=
  match r with
  | [] => []
  | a :: r' => (if (j <? i)%nat then c_zero else a) :: triu_row i (S j) r'
  end.

Fixpoint triu_rows (i : nat) (A : mat) : mat :=
  match A with
  | [] => []
  | r :: A' => triu_row i 0 r :: triu_rows (S i) A'
  end.

Definition triu64 (A : mat) : mat := triu_rows 0 A.

(** [np.outer(x, y)]. *)
Definition outer64 (x y : vec) : mat :=
  map (fun a => map (fun b => c_mul a b) y) x.

(** [np.isclose] on scalars,
    [(abs(x - y) <= atol + rtol * abs(y)) & isfinite(y) | (x == y)],
    which [np.allclose] reduces with [all]. *)
Definition isclose_real (x y rtol atol : float) : bool :=
  ((PrimFloat.abs (x - y) <=? atol + rtol * PrimFloat.abs y)%float
   && isfinite y)
  || (x =? y)%float.

Section Complex128.

(** The modulus of a complex number is C's [hypot], which is not one of the
    IEEE operations: it is a parameter of the library. *)
Variable hypot : float -> float -> float.

Definition absolute128 (z : complex) : float := hypot (real z) (imag z).

Definition isclose_complex (x y : complex) (rtol atol : float) : bool :=
  ((absolute128 (c_sub x y) <=? atol + rtol * absolute128 y)%float
   && c_isfinite y)
  || c_eqb x y.

End Complex128.

End Np.

(* ===================================================================== *)
(** * Triangular systems *)
(* ===================================================================== *)

(** [np.linalg.solve(U, b)] as the generator calls it, on an upper
    triangular [U] with finite entries (it passes [np.triu(A)] only): the
    LU factorisation with partial pivoting finds no row to exchange and
    nothing to eliminate, fails with [LinAlgError("Singular matrix")] on a
    pivot that is zero, and the solve is a back substitution.  On a matrix
    that is not upper triangular LAPACK exchanges rows and eliminates,
    which is not modelled: the statements below are on triangular systems.
    The order in which LAPACK adds and the way it divides may round the
    solution differently in the last bit; no statement below depends on
    the digits of the solution.  The solve is written once for any scalar
    type, so that it can be read both on [complex128] and in exact
    arithmetic. *)
Module LinAlg.

Section Scalars.

Variable C : Type.
Variables (zero : C) (add sub mul div : C -> C -> C).
Variable is_zero : C -> bool.

(** The dot product accumulated from [acc] in index order. *)
Fixpoint dot_from (acc : C) (x y : list C) : C :=
  match x, y with
  | a :: x', b :: y' => dot_from (add acc (mul a b)) x' y'
  | _, _ => acc
  end.

Definition matvec (A : list (list C)) (x : list C) : list C :=
  map (fun r => dot_from zero r x) A.

(** Rows [i], [i+1], ... of the system, last row first: the unknowns after
    [i] are solved, then [x_i = (b_i - sum_{j>i} U_ij x_j) / U_ii].  The
    entries left of the diagonal are not read. *)
Fixpoint back_substitution (i : nat) (U : list (list C)) (b : list C)
  : exn + list C :=
  match U, b with
  | r :: U', bi :: b' =>
      match back_substitution (S i) U' b' with
      | inl e => inl e
      | inr xs =>
          let d := nth i r zero in
          if is_zero d then inl (LinAlgError "Singular matrix")
          else inr (div (sub bi (dot_from zero (skipn (S i) r) xs)) d :: xs)
      end
  | _, _ => inr []
  end.

Definition solve_upper (U : list (list C)) (b : list C) : exn + list C :=
  back_substitution 0 U b.

(** The entry of [U] in row [i] and column [j]. *)
Definition entry_at (U : list (list C)) (i j : nat) : C :=
  nth j (nth i U []) zero.

(** [U] and [b] make a system of [n] equations in [n] unknowns. *)
Definition system (n : nat) (U : list (list C)) (b : list C) : Prop :=
  List.length U = n /\ List.length b = n
  /\ Forall (fun r => List.length r = n) U.

(** [U] is upper triangular: zero left of the diagonal. *)
Definition upper_triangular (U : list (list C)) : Prop :=
  forall i j, (j < i)%nat -> entry_at U i j = zero.

(** Some pivot of [U] is zero. *)
Definition zero_pivot (n : nat) (U : list (list C)) : Prop :=
  exists i, (i < n)%nat /\ is_zero (entry_at U i i) = true.

End Scalars.

(** Exact scalars for the examples: the rational numbers. *)
Definition rational (z : Z) : Qcanon.Qc :=
  Qcanon.Q2Qc (QArith_base.inject_Z z).

Definition rational_is_zero (d : Qcanon.Qc) : bool :=
  Qcanon.Qc_eq_bool d (rational 0).

End LinAlg.

Module Np64.

(** [np.linalg.solve] on [complex128], for an upper triangular matrix. *)
Definition linalg_solve64 : mat -> vec -> exn + vec :=
  LinAlg.solve_upper complex c_zero c_add c_sub c_mul c_div
    (fun d => c_eqb d c_zero).

(** Every entry of [U] is a finite number. *)
Definition finite_entries (U : mat) : Prop :=
  Forall (Forall (fun z => c_isfinite z = true)) U.

(** NumPy over binary64, for a given random generator and [hypot]. *)
Definition numpy64 (rng : Type) (seed : Z -> rng)
    (standard_normal : rng -> float * rng)
    (hypot : float -> float -> float) : Np.api :=
  {| Np.rng := rng;
     Np.random_seed := seed;
     Np.standard_normal := standard_normal;
     Np.dot := Np.dot_loop 0 0;
     Np.vdot := Np.vdot_loop 0 0;
     Np.linalg_norm := Np.norm64;
     Np.sqrt := PrimFloat.sqrt;
     Np.sum := Np.sum64;
     Np.abs := Np.abs64;
     Np.absolute := Np.absolute128 hypot;
     Np.allclose := Np.isclose_complex hypot;
     Np.allclose_real := Np.isclose_real;
     Np.triu := Np.triu64;
     Np.outer := Np.outer64;
     Np.linalg_solve := linalg_solve64 |}.

End Np64.

(* ===================================================================== *)
(** * Python strings: [str.strip], [re.match] and [float] *)
(* ===================================================================== *)

Module PyStr.

Local Open Scope N_scope.

(** The value of a decimal digit. *)
Inductive digit : Set := D0 | D1 | D2 | D3 | D4 | D5 | D6 | D7 | D8 | D9.

Definition digit_value (d : digit) : N :=
  match d with
  | D0 => 0 | D1 => 1 | D2 => 2 | D3 => 3 | D4 => 4
  | D5 => 5 | D6 => 6 | D7 => 7 | D8 => 8 | D9 => 9
  end.

Definition ascii_digit (c : N) : option digit :=
  match c with
  | 48 => Some D0 | 49 => Some D1 | 50 => Some D2 | 51 => Some D3
  | 52 => Some D4 | 53 => Some D5 | 54 => Some D6 | 55 => Some D7
  | 56 => Some D8 | 57 => Some D9
  | _ => None
  end.

(** ['0' <= c <= '9'] *)
Definition is_digit (c : N) : bool := (48 <=? c) && (c <=? 57).

(** [c] is ['+'] or ['-']. *)
Definition is_sign (c : N) : bool := (c =? 43) || (c =? 45).

(** C's [Py_ISSPACE]: space, and tab to carriage return. *)
Definition Py_ISSPACE (c : N) : bool :=
  (c =? 32) || ((9 <=? c) && (c <=? 13)).

Section Unicode.

(** The Unicode character database, outside ASCII: which code points are
    white space, and the value of those that are decimal digits. *)
Variable unicode_isspace : N -> bool.
Variable unicode_decimal : N -> option digit.

(** [Py_UNICODE_ISSPACE] *)
Definition isspace (c : N) : bool :=
  if c <? 128
  then (c =? 32) || ((9 <=? c) && (c <=? 13)) || ((28 <=? c) && (c <=? 31))
  else unicode_isspace c.

(** [Py_UNICODE_TODECIMAL] *)
Definition todecimal (c : N) : option digit :=
  if c <? 128 then ascii_digit c else unicode_decimal c.

(** [Py_UNICODE_ISDECIMAL], the class [\d] of [re] on a [str] pattern. *)
Definition isdecimal (c : N) : bool :=
  match todecimal c with Some _ => true | None => false end.

(** ** [str.strip()] *)

Fixpoint lstrip (s : str) : str :=
  match s with
  | c :: s' => if isspace c then lstrip s' else s
  | [] => []
  end.

Definition rstrip (s : str) : str := rev (lstrip (rev s)).

Definition strip (s : str) : str := rstrip (lstrip s).

(** ** [re.match]

    A pattern is a sequence of character classes, each with a quantifier;
    [match_items] is the backtracking search of [re]: every quantifier is
    greedy, and gives characters back when what follows fails.  The result
    holds the text each item took. *)

Inductive quantifier : Set := One | Opt | Star | Plus.

Definition item : Type := (quantifier * (N -> bool))%type.

Section Continuation.

(** The rest of the pattern. *)
Variable k : str -> option (list str).

(** As many characters of the class [c] as possible, then [k]; one fewer
    when that fails. *)
Fixpoint repeat_greedy (c : N -> bool) (s : str) : option (list str) :=
  let stop := option_map (cons []) (k s) in
  match s with
  | a :: s' =>
      if c a then
        match repeat_greedy c s' with
        | Some (m :: ms) => Some ((a :: m) :: ms)
        | _ => stop
        end
      else stop
  | [] => stop
  end.

End Continuation.

Fixpoint match_items (p : list item) : str -> option (list str) :=
  match p with
  | [] => fun _ => Some []
  | (One, c) :: p' => fun s =>
      match s with
      | a :: s' => if c a then option_map (cons [a]) (match_items p' s') else None
      | [] => None
      end
  | (Opt, c) :: p' => fun s =>
      let skip := option_map (cons []) (match_items p' s) in
      match s with
      | a :: s' =>
          if c a then
            match match_items p' s' with
            | Some ms => Some ([a] :: ms)
            | None => skip
            end
          else skip
      | [] => skip
      end
  | (Star, c) :: p' => repeat_greedy (match_items p') c
  | (Plus, c) :: p' => fun s =>
      match s with
      | a :: s' =>
          if c a then
            match repeat_greedy (match_items p') c s' with
            | Some (m :: ms) => Some ((a :: m) :: ms)
            | _ => None
            end
          else None
      | [] => None
      end
  end.

(** ** [float(s)] on a [str] *)

(** [_PyUnicode_TransformDecimalAndSpaceToASCII]: a code point outside
    ASCII becomes a space, its decimal digit, or ['?']. *)
Definition to_ascii (c : N) : N :=
  if c <? 127 then c
  else if isspace c then 32
  else match todecimal c with
       | Some d => 48 + digit_value d
       | None => 63
       end.

(** [_Py_string_to_number_with_underscores]: an underscore is allowed
    between two digits only; the digits are kept. *)
Fixpoint remove_underscores (prev : N) (s : str) : option str :=
  match s with
  | [] => if prev =? 95 then None else Some []
  | p :: s' =>
      if p =? 95 then
        if is_digit prev then remove_underscores p s' else None
      else if (prev =? 95) && negb (is_digit p) then None
      else option_map (cons p) (remove_underscores p s')
  end.

(** An optional sign. *)
Definition sign (s : str) : bool * str :=
  match s with
  | c :: s' =>
      if c =? 45 then (true, s')
      else if c =? 43 then (false, s')
      else (false, s)
  | [] => (false, s)
  end.

(** [c] is [e] or [E]. *)
Definition is_e (c : N) : bool := (c =? 101) || (c =? 69).

(** A run of digits: the number they continue from [acc], how many they
    are, and the text after them. *)
Fixpoint digits (acc : Z) (s : str) : Z * nat * str :=
  match s with
  | c :: s' =>
      if is_digit c then
        let '(v, n, r) := digits (acc * 10 + Z.of_N (c - 48)) s' in (v, S n, r)
      else (acc, O, s)
  | [] => (acc, O, [])
  end.

(** The binary64 nearest to [(-1)^neg * m * 10^e10] (ties to even), for
    [m >= 0]. *)
Definition decimal_to_float (neg : bool) (m e10 : Z) : float :=
  SF2Prim
    (if (m =? 0)%Z then S754_zero neg
     else if (0 <=? e10)%Z then
       binary_normalize prec emax
         ((if neg then - m else m) * 10 ^ e10)%Z 0 false
     else
       let '(q, e, l) :=
         SFdiv_core_binary prec emax m 0 (10 ^ (- e10))%Z 0 in
       binary_round_aux prec emax neg q e l).

(** The digits of the mantissa, with an optional point: the number they
    spell, how many stand before the point and after it, and the text
    that follows. *)
Definition mantissa (s : str) : Z * nat * nat * str :=
  let '(m1, n1, s1) := digits 0 s in
  match s1 with
  | c :: s1' =>
      if c =? 46 then
        let '(m, nfrac, s2) := digits m1 s1' in (m, n1, nfrac, s2)
      else (m1, n1, O, s1)
  | [] => (m1, n1, O, s1)
  end.

(** The exponent: it is read when digits follow its [e] and sign, and
    left unread otherwise. *)
Definition exponent (s : str) : Z * str :=
  match s with
  | c :: s' =>
      if is_e c then
        let '(eneg, s'') := sign s' in
        let '(ev, en, r) := digits 0 s'' in
        if (en =? 0)%nat then (0%Z, s)
        else ((if eneg then - ev else ev)%Z, r)
      else (0%Z, s)
  | [] => (0%Z, s)
  end.

(** [_Py_dg_strtod]: sign, mantissa and exponent; [None] when the
    mantissa has no digit. *)
Definition strtod (s : str) : option (float * str) :=
  let '(neg, s0) := sign s in
  let '(m, n1, nfrac, s2) := mantissa s0 in
  if (n1 + nfrac =? 0)%nat then None
  else
    let '(e, s3) := exponent s2 in
    Some (decimal_to_float neg m (e - Z.of_nat nfrac), s3).

(** [s] starts with the lower-case word [w], in any case. *)
Fixpoint case_insensitive_match (w s : str) : option str :=
  match w, s with
  | [], _ => Some s
  | a :: w', c :: s' =>
      if (if (65 <=? c) && (c <=? 90) then c + 32 else c) =? a
      then case_insensitive_match w' s' else None
  | _ :: _, [] => None
  end.

(** [_Py_parse_inf_or_nan] *)
Definition parse_inf_or_nan (s : str) : option (float * str) :=
  let '(neg, s0) := sign s in
  match case_insensitive_match (of_string "inf") s0 with
  | Some r =>
      Some (if neg then neg_infinity else infinity,
            match case_insensitive_match (of_string "inity") r with
            | Some r' => r'
            | None => r
            end)
  | None =>
      match case_insensitive_match (of_string "nan") s0 with
      | Some r => Some (nan, r)
      | None => None
      end
  end.

(** [_PyOS_ascii_strtod] *)
Definition ascii_strtod (s : str) : option (float * str) :=
  match strtod s with
  | Some r => Some r
  | None => parse_inf_or_nan s
  end.

Fixpoint lstrip_ascii (s : str) : str :=
  match s with
  | c :: s' => if Py_ISSPACE c then lstrip_ascii s' else s
  | [] => []
  end.

(** [float_from_string_inner]: white space is dropped at both ends (the
    last character is never dropped), and the number must be the whole of
    what is left. *)
Definition float_from_string_inner (s : str) : option float :=
  match lstrip_ascii s with
  | [] => None
  | c :: s' =>
      match ascii_strtod (c :: rev (lstrip_ascii (rev s'))) with
      | Some (x, []) => Some x
      | _ => None
      end
  end.

(** [float(s)]; [None] stands for its [ValueError]. *)
Definition float_of_str (s : str) : option float :=
  let a := map to_ascii s in
  if existsb (N.eqb 95) a then
    match remove_underscores 0 a with
    | Some d => float_from_string_inner d
    | None => None
    end
  else float_from_string_inner a.

End Unicode.

(** What an item of a pattern may take. *)
Definition takes (it : item) (g : str) : Prop :=
  Forall (fun a => snd it a = true) g
  /\ match fst it with
     | One => List.length g = 1%nat
     | Opt => (List.length g <= 1)%nat
     | Star => True
     | Plus => g <> []
     end.

(** The class [c] does not start [s]. *)
Definition stops (c : N -> bool) (s : str) : Prop :=
  match s with
  | [] => True
  | a :: _ => c a = false
  end.

End PyStr.

(** The expression both scripts evaluate for [dzasum]:
    [np.sum(np.abs(x.real)) + np.sum(np.abs(x.imag))]. *)
Definition dzasum (np : Np.api) (x : vec) : float :=
  (Np.sum np (Np.abs np (Np.real_part x))
   + Np.sum np (Np.abs np (Np.imag_part x)))%float.

(* ===================================================================== *)
(** * validate_complex_blas.py *)
(* ===================================================================== *)

Module Validate.

(** Tolerance for numerical comparisons. *)
Definition DEFAULT_TOL : float := 1e-10.

(** ** Console output as state *)

Definition io (A : Type) : Type := list line -> A * list line.

Definition ret {A : Type} (a : A) : io A := fun out => (a, out).

Definition bind {A B : Type} (c : io A) (k : A -> io B) : io B :=
  fun out => let (a, out') := c out in k a out'.

Definition print (l : line) : io unit := fun out => (tt, out ++ [l]).

Notation "x <- c ;; k" := (bind c (fun x => k))
  (at level 61, c at next level, right associativity).
Notation "c ;; k" := (bind c (fun _ => k))
  (at level 61, right associativity).

(** [for i, case in enumerate(cases): ...] with the variable [s] the body
    may reassign. *)
Fixpoint for_enumerate {A S : Type} (i : Z) (cases : list A) (s : S)
    (body : Z -> A -> S -> io S) : io S :=
  match cases with
  | [] => ret s
  | c :: cases' => s' <- body i c s ;; for_enumerate (i + 1) cases' s' body
  end.

Definition nl : string := String (ascii_of_nat 10) EmptyString.

(** ["=" * 60] *)
Definition rule60 : string :=
  "============================================================".

(** ['PASS' if passed else 'FAIL'] (the check and cross marks that decorate
    the two words are left out). *)
Definition status (passed : bool) : piece :=
  Lit (if passed then "PASS" else "FAIL").


(** ** The complex-number decoder *)

Section Decoder.

Variable unicode_isspace : N -> bool.
Variable unicode_decimal : N -> option PyStr.digit.

Let isspace := PyStr.isspace unicode_isspace.
Let isdecimal := PyStr.isdecimal unicode_decimal.
Let float := PyStr.float_of_str unicode_isspace unicode_decimal.

(** The class that ends the pattern: the letter [i] and the three code
    points U+00E2, U+2026 and U+02C6 the source file holds after it. *)
Definition imaginary_unit (c : N) : bool :=
  ((c =? 105) || (c =? 226) || (c =? 8230) || (c =? 710))%N.

Definition is_dot (c : N) : bool := (c =? 46)%N.

(** The pattern, group by group:
    [( [+-]? \d+ \.? \d* ) \s* ( [+-] ) \s* ( \d+ \.? \d* ) \s* [i...]] *)
Definition complex_pattern : list PyStr.item :=
  [ (PyStr.Opt, PyStr.is_sign); (PyStr.Plus, isdecimal);
    (PyStr.Opt, is_dot); (PyStr.Star, isdecimal);
    (PyStr.Star, isspace);
    (PyStr.One, PyStr.is_sign);
    (PyStr.Star, isspace);
    (PyStr.Plus, isdecimal); (PyStr.Opt, is_dot); (PyStr.Star, isdecimal);
    (PyStr.Star, isspace);
    (PyStr.One, imaginary_unit) ].

(** The three groups of a match of [complex_pattern]. *)
Definition groups (m : list str) : str * str * str :=
  match m with
  | [a; b; c; d; _; e; _; f; g; h; _; _] =>
      (a ++ b ++ c ++ d, e, f ++ g ++ h)
  | _ => ([], [], [])
  end.

Definition str_eqb (s t : str) : bool :=
  if list_eq_dec N.eq_dec s t then true else false.

(** Parse a complex number from string format like '1.0 + 2.0i'.  (The
    message of the [ValueError] that [float] raises is kept without the
    quotes [repr] puts around the text.) *)
Definition parse_complex (s : str) : exn + complex :=
  let s := PyStr.strip unicode_isspace s in
  match PyStr.match_items complex_pattern s with
  | Some m =>
      let '(g1, g2, g3) := groups m in
      match float g1 with
      | None =>
          inl (ValueError (of_string "could not convert string to float: " ++ g1))
      | Some real =>
          let sign := if str_eqb g2 (of_string "-") then (-1)%float else 1%float in
          match float g3 with
          | None =>
              inl (ValueError (of_string "could not convert string to float: " ++ g3))
          | Some f => inr (Complex real (sign * f))
          end
      end
  | None =>
      match float s with
      | Some r => inr (Complex r 0)
      | None => inl (ValueError (of_string "Cannot parse complex number: " ++ s))
      end
  end.

End Decoder.

(** ** The texts the decoder is specified on *)

(** A run of blanks. *)
Definition blanks (ws : str) : Prop := Forall (fun c => c = 32%N) ws.

Definition all_digits (ds : str) : Prop :=
  Forall (fun c => PyStr.is_digit c = true) ds.

(** A decimal numeral: digits, then possibly a point and more digits. *)
Inductive numeral : str -> Prop :=
| numeral_integer (ip : str) :
    ip <> [] -> all_digits ip -> numeral ip
| numeral_fraction (ip fp : str) :
    ip <> [] -> all_digits ip -> all_digits fp ->
    numeral (ip ++ 46%N :: fp).

(** A numeral with an optional sign in front. *)
Inductive signed_numeral : str -> Prop :=
| unsigned_numeral (t : str) : numeral t -> signed_numeral t
| sign_numeral (c : N) (t : str) :
    PyStr.is_sign c = true -> numeral t -> signed_numeral (c :: t).

(** [s] reads [<re> + <im>i] or [<re> - <im>i], with any number of
    blanks around the sign, before the [i] and at both ends. *)
Definition affine_form (s re : str) (sgn : N) (im : str) : Prop :=
  exists pre ws1 ws2 ws3 post,
    blanks pre /\ blanks ws1 /\ blanks ws2 /\ blanks ws3 /\ blanks post
    /\ s = pre ++ re ++ ws1 ++ sgn :: ws2 ++ im ++ ws3 ++ 105%N :: post.

(** The letters of the class that ends the pattern: [i] and the three
    code points the source file holds after it. *)
Definition unit_letter (c : N) : Prop :=
  c = 105%N \/ c = 226%N \/ c = 8230%N \/ c = 710%N.

Section Shapes.

(** The classes [\s] and [\d] of [re]. *)
Variables space digit : N -> bool.

(** A text of characters of the class [cls]. *)
Definition all_of (cls : N -> bool) (t : str) : Prop :=
  Forall (fun c => cls c = true) t.

(** What [\d+\.?\d*] describes: digits, then possibly a point, then
    possibly more digits. *)
Definition pattern_numeral (t : str) : Prop :=
  exists ip dot fp,
    t = ip ++ dot ++ fp /\ ip <> [] /\ all_of digit ip
    /\ (dot = [] \/ dot = [46%N]) /\ all_of digit fp.

(** [t] starts with what the whole pattern describes: an optional sign, a
    numeral, a sign and a numeral, then a letter of the class, with white
    space allowed around the second sign and before the letter.  What
    follows the letter is free. *)
Definition starts_affine (t : str) : Prop :=
  exists sg re ws1 sgn ws2 im ws3 u rest,
    t = sg ++ re ++ ws1 ++ sgn :: ws2 ++ im ++ ws3 ++ u :: rest
    /\ (sg = [] \/ sg = [43%N] \/ sg = [45%N])
    /\ pattern_numeral re /\ all_of space ws1
    /\ (sgn = 43%N \/ sgn = 45%N)
    /\ all_of space ws2 /\ pattern_numeral im /\ all_of space ws3
    /\ unit_letter u.

End Shapes.

(** The characters of a signed numeral. *)
Definition plain (c : N) : Prop :=
  PyStr.is_digit c = true \/ c = 46%N \/ PyStr.is_sign c = true.

(** A sign that is not the first character and does not follow an [e]:
    [inner_sign prev s] looks for one in [s], which comes after [prev]. *)
Fixpoint inner_sign (prev : N) (s : str) : bool :=
  match s with
  | [] => false
  | c :: s' => (PyStr.is_sign c && negb (PyStr.is_e prev)) || inner_sign c s'
  end.

Definition no_sign (l : str) : Prop :=
  Forall (fun c => PyStr.is_sign c = false) l.

(** No sign and no [e]: the characters of a mantissa. *)
Definition clean (l : str) : Prop :=
  Forall (fun c => PyStr.is_sign c = false /\ PyStr.is_e c = false) l.

Definition has_inner_sign (s : str) : bool :=
  match s with
  | [] => false
  | c :: s' => inner_sign c s'
  end.

Section Harness.

Variable np : Np.api.

(** Validate zdotu (unconjugated dot product) operations. *)
Definition zdotu_cases : list (vec * vec * complex) :=
  [ ([Complex 1 0; Complex 2 1], [Complex 3 4; Complex 1 (-2)], Complex 7 1);
    ([Complex 1 0; Complex 2 0; Complex 3 0],
     [Complex 4 0; Complex 5 0; Complex 6 0], Complex 32 0);
    ([Complex 0 1; Complex 0 2], [Complex 0 3; Complex 0 4], Complex (-11) 0) ].

Definition validate_zdotu : io bool :=
  print [Lit (nl ++ "=== Validating zdotu (unconjugated dot product) ===")] ;;
  for_enumerate 0 zdotu_cases true (fun i '(x, y, expected) all_passed =>
    let result := Np.dot np x y in
    let passed := Np.allclose np result expected 0 DEFAULT_TOL in
    print [Lit (nl ++ "Test "); Int (i + 1); Lit ":"] ;;
    print [Lit "  x = "; Arr x] ;;
    print [Lit "  y = "; Arr y] ;;
    print [Lit "  Expected: "; Cplx expected] ;;
    print [Lit "  NumPy:    "; Cplx result] ;;
    print [Lit "  Status:   "; status passed] ;;
    if negb passed then
      print [Lit "  Error:    |D| = ";
             Float (Np.absolute np (c_sub result expected))] ;;
      ret false
    else ret all_passed).

(** Validate zdotc (conjugated dot product) operations. *)
Definition zdotc_cases : list (vec * vec * complex) :=
  [ ([Complex 1 0; Complex 0 1], [Complex 1 0; Complex 0 (-1)], Complex 0 0);
    ([Complex 3 4; Complex 1 (-2)], [Complex 2 (-1); Complex 5 3], Complex 1 2);
    ([Complex 3 4; Complex 0 5], [Complex 3 4; Complex 0 5], Complex 50 0) ].

Definition validate_zdotc : io bool :=
  print [Lit (nl ++ "=== Validating zdotc (conjugated dot product) ===")] ;;
  for_enumerate 0 zdotc_cases true (fun i '(x, y, expected) all_passed =>
    let result := Np.vdot np x y in
    let passed := Np.allclose np result expected 0 DEFAULT_TOL in
    print [Lit (nl ++ "Test "); Int (i + 1); Lit ":"] ;;
    print [Lit "  x = "; Arr x] ;;
    print [Lit "  y = "; Arr y] ;;
    print [Lit "  Expected: "; Cplx expected] ;;
    print [Lit "  NumPy:    "; Cplx result] ;;
    print [Lit "  Status:   "; status passed] ;;
    if negb passed then ret false else ret all_passed).

(** Validate norm operations. *)
Definition norm_cases : list (vec * float) :=
  [ ([Complex 3 4; Complex 0 0], 5%float);
    ([Complex 1 0; Complex 2 0; Complex 3 0], Np.sqrt np 14);
    ([Complex 0 1; Complex 0 2], Np.sqrt np 5);
    (Np.div_scalar [Complex 3 4] 5, 1%float) ].

Definition validate_norms : io bool :=
  print [Lit (nl ++ "=== Validating dznrm2 (2-norm) ===")] ;;
  for_enumerate 0 norm_cases true (fun i '(x, expected) all_passed =>
    let result := Np.linalg_norm np x in
    let passed := Np.allclose_real np result expected 0 DEFAULT_TOL in
    print [Lit (nl ++ "Test "); Int (i + 1); Lit ":"] ;;
    print [Lit "  x = "; Arr x] ;;
    print [Lit "  Expected: "; Float expected] ;;
    print [Lit "  NumPy:    "; Float result] ;;
    print [Lit "  Status:   "; status passed] ;;
    if negb passed then ret false else ret all_passed).

(** Validate dzasum (sum of absolute values of components). *)
Definition asum_cases : list (vec * float) :=
  [ ([Complex 3 4; Complex (-1) 0], 8%float);
    ([Complex 1 1; Complex (-2) 3; Complex 0 (-4)], 11%float);
    ([Complex 0 0; Complex 0 0], 0%float) ].

Definition validate_asum : io bool :=
  print [Lit (nl ++ "=== Validating dzasum (sum of absolute values) ===")] ;;
  for_enumerate 0 asum_cases true (fun i '(x, expected) all_passed =>
    let result := dzasum np x in
    let passed := Np.allclose_real np result expected 0 DEFAULT_TOL in
    print [Lit (nl ++ "Test "); Int (i + 1); Lit ":"] ;;
    print [Lit "  x = "; Arr x] ;;
    print [Lit "  Expected: "; Float expected] ;;
    print [Lit "  NumPy:    "; Float result] ;;
    print [Lit "  Status:   "; status passed] ;;
    if negb passed then ret false else ret all_passed).

(** Validate Level 2 BLAS operations. *)
Definition validate_level2_operations : io bool :=
  print [Lit (nl ++ "=== Validating Level 2 BLAS operations ===")] ;;
  print [Lit (nl ++ "--- Testing zgemv ---")] ;;
  let A := [[Complex 1 1; Complex 2 0]; [Complex 3 0; Complex 4 1]] in
  let x := [Complex 1 1; Complex 2 0] in
  let y := [Complex 0 0; Complex 0 0] in
  let alpha := Complex 1 0 in
  let beta := Complex 0 0 in
  let result := Np.add (Np.matvec (Np.mscale alpha A) x) (Np.scale beta y) in
  print [Lit ("A = " ++ nl); Arr2 A] ;;
  print [Lit "x = "; Arr x] ;;
  print [Lit "y = alpha*A*x + beta*y = "; Arr result] ;;
  print [Lit "Expected: [(1+i)*(1+i) + 2*2, 3*(1+i) + (4+i)*2] = [4+2i, 11+3i]"] ;;
  print [Lit (nl ++ "--- Testing zhemv ---")] ;;
  let H := [[Complex 2 0; Complex 1 (-1)]; [Complex 1 1; Complex 3 0]] in
  let x := [Complex 1 1; Complex 2 0] in
  let result := Np.matvec H x in
  print [Lit ("H = " ++ nl); Arr2 H; Lit " (Hermitian)"] ;;
  print [Lit "x = "; Arr x] ;;
  print [Lit "H*x = "; Arr result] ;;
  ret true.

(** The [results] dictionary of [generate_test_summary], in insertion
    order, each value computed when its entry is built. *)
Definition scenario_results : io (list (string * bool)) :=
  r1 <- validate_zdotu ;;
  r2 <- validate_zdotc ;;
  r3 <- validate_norms ;;
  r4 <- validate_asum ;;
  r5 <- validate_level2_operations ;;
  ret [ ("Level 1 - zdotu", r1);
        ("Level 1 - zdotc", r2);
        ("Level 1 - dznrm2", r3);
        ("Level 1 - dzasum", r4);
        ("Level 2 - Matrix operations", r5) ]%string.

Fixpoint print_results (items : list (string * bool)) : io unit :=
  match items with
  | [] => ret tt
  | (test, passed) :: items' =>
      print [Lit ("  " ++ test ++ ": "); status passed] ;;
      print_results items'
  end.

(** [all(results.values())] *)
Definition all_values (results : list (string * bool)) : bool :=
  forallb (fun kv => snd kv) results.

(** Generate a summary of all validation tests. *)
Definition generate_test_summary : io bool :=
  print [Lit (nl ++ rule60)] ;;
  print [Lit "COMPLEX BLAS VALIDATION SUMMARY"] ;;
  print [Lit rule60] ;;
  results <- scenario_results ;;
  print [Lit (nl ++ rule60)] ;;
  print [Lit "RESULTS:"] ;;
  print_results results ;;
  let all_passed := all_values results in
  (if all_passed
   then print [Lit (nl ++ "All validation tests PASSED!")]
   else print [Lit (nl ++ "Some validation tests FAILED!")]) ;;
  ret all_passed.

(** [subprocess.run(argv, check=check)] for a child that ends with
    [returncode]: with [check=True] a status other than 0 raises
    [CalledProcessError]. *)
Definition subprocess_run (check : bool) (returncode : Z) : exn + Z :=
  if check && negb (returncode =? 0)%Z
  then inl (CalledProcessError returncode)
  else inr returncode.

(** Main validation routine.  [returncode] is the status with which the
    child process running [generate_complex_test_data.py] ends. *)
Definition main (returncode : Z) : io outcome :=
  print [Lit "Complex BLAS Validation Against NumPy"] ;;
  print [Lit "====================================="] ;;
  all_passed <- generate_test_summary ;;
  print [Lit (nl ++ nl ++ "Generating fresh test data...")] ;;
  match subprocess_run true returncode with
  | inl e => ret (Uncaught e)
  | inr _ =>
      print [Lit (nl ++ "Validation complete!")] ;;
      print [Lit "The test data and validation results can be used to verify LeanBLAS implementations."] ;;
      ret (SysExit (if all_passed then 0 else 1))
  end.

(** The exit status of the harness process, started with an empty console. *)
Definition run (returncode : Z) : Z :=
  exit_status (fst (main returncode [])).

End Harness.

(** The result of a scenario started on an empty console. *)
Definition passed (scenario : io bool) : bool := fst (scenario []).

(** A step that only appends to the console: its result does not depend
    on what was printed before. *)
Definition appends {A : Type} (c : io A) : Prop :=
  forall out, c out = (fst (c []), out ++ snd (c [])).

End Validate.

(** NumPy over binary64 with the textbook modulus [sqrt(a*a + b*b)] and a
    random generator that always draws 0: the library for the examples
    that draw nothing. *)
Definition numpy_fixed : Np.api :=
  Np64.numpy64 unit (fun _ => tt) (fun g => (0%float, g))
    (fun a b => PrimFloat.sqrt (a * a + b * b)).

(* ===================================================================== *)
(** * generate_complex_test_data.py *)
(* ===================================================================== *)

Module Generate.

Local Open Scope string_scope.

(** ** The objects of [test_data]

    What the generator builds and [json.dump] writes: [int], [float],
    [str], [list], and [dict] with its keys in insertion order. *)
Inductive value : Type :=
| VInt (n : Z)
| VFloat (f : float)
| VStr (s : string)
| VList (l : list value)
| VDict (d : list (string * value)).

Definition dict := list (string * value).

(** [d[k]] *)
Fixpoint dict_get (d : dict) (k : string) : option value :=
  match d with
  | [] => None
  | (k', v') :: d' => if String.eqb k k' then Some v' else dict_get d' k
  end.

(** [d[k] = v]: the value of an existing key is replaced in place, a new
    key goes last. *)
Fixpoint dict_set (d : dict) (k : string) (v : value) : dict :=
  match d with
  | [] => [(k, v)]
  | (k', v') :: d' =>
      if String.eqb k k' then (k, v) :: d' else (k', v') :: dict_set d' k v
  end.

(** [d[k1][k2] = v] for a dictionary [d[k1]]. *)
Definition dict_set2 (d : dict) (k1 k2 : string) (v : value) : dict :=
  match dict_get d k1 with
  | Some (VDict inner) => dict_set d k1 (VDict (dict_set inner k2 v))
  | _ => d
  end.

(** Convert complex number to dictionary format. *)
Definition complex_to_dict (z : complex) : value :=
  VDict [("real", VFloat (real z)); ("imag", VFloat (imag z))].

(** Convert complex numpy array to list of dictionaries. *)
Definition array_to_list (arr : vec) : value :=
  VList (map complex_to_dict arr).

(** Convert complex matrix to nested list format. *)
Definition matrix_to_list (mat : mat) : value :=
  VList (map (fun row => VList (map complex_to_dict row)) mat).

(** A directory: [name] is created, or its content replaced. *)
Fixpoint dict_like_set (fs : list (string * string)) (name content : string)
  : list (string * string) :=
  match fs with
  | [] => [(name, content)]
  | (n', c') :: fs' =>
      if String.eqb name n' then (name, content) :: fs'
      else (n', c') :: dict_like_set fs' name content
  end.

(** ** [json.dump(obj, f, indent=2)] *)

Section Json.

(** [float.__repr__] on a finite float (the shortest decimal text that
    reads back as the same float); its digits are not modelled. *)
Variable float_repr : float -> string.

Definition quote : string := String (ascii_of_nat 34) EmptyString.

Definition hex_digit (n : N) : ascii :=
  ascii_of_N (if (n <? 10)%N then 48 + n else 87 + n).

(** One character of [py_encode_basestring_ascii]. *)
Definition escape_char (c : ascii) : string :=
  let n := N_of_ascii c in
  if (n =? 34)%N then "\" ++ quote
  else if (n =? 92)%N then "\\"
  else if (n =? 10)%N then "\n"
  else if (n =? 13)%N then "\r"
  else if (n =? 9)%N then "\t"
  else if (n =? 12)%N then "\f"
  else if (n =? 8)%N then "\b"
  else if ((32 <=? n) && (n <=? 126))%N then String c EmptyString
  else "\u00" ++ String (hex_digit (n / 16)) (String (hex_digit (n mod 16)) EmptyString).

Fixpoint escape (s : string) : string :=
  match s with
  | EmptyString => EmptyString
  | String c s' => escape_char c ++ escape s'
  end.

Definition encode_str (s : string) : string := quote ++ escape s ++ quote.

(** [int.__repr__] *)
Definition encode_int (n : Z) : string :=
  DecimalString.NilZero.string_of_int (Z.to_int n).

(** [floatstr] of the encoder. *)
Definition encode_float (f : float) : string :=
  if is_nan f then "NaN"
  else if (f =? infinity)%float then "Infinity"
  else if (f =? neg_infinity)%float then "-Infinity"
  else float_repr f.

Fixpoint spaces (n : nat) : string :=
  match n with
  | O => EmptyString
  | S n' => String " " (spaces n')
  end.

(** ['\n' + ' ' * (2 * level)] *)
Definition newline_indent (level : nat) : string :=
  String (ascii_of_nat 10) (spaces (2 * level)).

(** The chunks of [_iterencode] at nesting depth [level], joined. *)
Fixpoint encode (level : nat) (v : value) : string :=
  match v with
  | VInt n => encode_int n
  | VFloat f => encode_float f
  | VStr s => encode_str s
  | VList [] => "[]"
  | VList (x :: xs) =>
      "[" ++ newline_indent (S level) ++ encode (S level) x
      ++ (fix rest (l : list value) : string :=
            match l with
            | [] => EmptyString
            | y :: l' =>
                "," ++ newline_indent (S level) ++ encode (S level) y ++ rest l'
            end) xs
      ++ newline_indent level ++ "]"
  | VDict [] => "{}"
  | VDict ((k, x) :: kxs) =>
      "{" ++ newline_indent (S level) ++ encode_str k ++ ": " ++ encode (S level) x
      ++ (fix rest (l : list (string * value)) : string :=
            match l with
            | [] => EmptyString
            | (k', y) :: l' =>
                "," ++ newline_indent (S level) ++ encode_str k' ++ ": "
                ++ encode (S level) y ++ rest l'
            end) kxs
      ++ newline_indent level ++ "}"
  end.

(** The chunks of the elements of a list after its first one. *)
Definition encode_elements (level : nat) (l : list value) : string :=
  (fix rest (l : list value) : string :=
     match l with
     | [] => EmptyString
     | y :: l' => "," ++ newline_indent level ++ encode level y ++ rest l'
     end) l.

(** The chunks of the items of a dictionary after its first one. *)
Definition encode_members (level : nat) (d : list (string * value)) : string :=
  (fix rest (l : list (string * value)) : string :=
     match l with
     | [] => EmptyString
     | (k', y) :: l' =>
         "," ++ newline_indent level ++ encode_str k' ++ ": "
         ++ encode level y ++ rest l'
     end) d.

Definition json_dumps (v : value) : string := encode 0 v.

End Json.

(** ** Reading the fixture file back

    The scripts write the fixture file and never read it: [deserialize] of
    the Fixture Serializer is not in them.  The reader below is that of
    the fixture-file format, JSON: white space between tokens, strings
    with the escapes of the encoder, [NaN], [Infinity] and [-Infinity],
    integers as [int], every other number through [float], arrays as
    lists and objects as dictionaries. *)

(** Modelled from the spec: the white space of the reader that is missing
    (space, line feed, carriage return, tab). *)
Definition is_ws (c : ascii) : bool :=
  let n := N_of_ascii c in
  ((n =? 32) || (n =? 10) || (n =? 13) || (n =? 9))%N.

(** Modelled from the spec: the missing reader goes over white space. *)
Fixpoint skip_ws (s : string) : string :=
  match s with
  | String c s' => if is_ws c then skip_ws s' else s
  | EmptyString => s
  end.

(** Modelled from the spec: the characters of a number for the missing
    reader: digits, signs, the point and [e]. *)
Definition is_number_char (c : ascii) : bool :=
  let n := N_of_ascii c in
  (((48 <=? n) && (n <=? 57)) || (n =? 45) || (n =? 43) || (n =? 46)
   || (n =? 101) || (n =? 69))%N.

(** Modelled from the spec: for the missing reader, the longest run of
    number characters that starts [s], and the rest. *)
Fixpoint span_number (s : string) : string * string :=
  match s with
  | String c s' =>
      if is_number_char c then
        let (t, r) := span_number s' in (String c t, r)
      else (EmptyString, s)
  | EmptyString => (EmptyString, EmptyString)
  end.

(** Modelled from the spec: the missing reader on a number, an [int] when
    the text is one and what [float] makes of it otherwise. *)
Definition read_number (s : string) : option (value * string) :=
  let (tok, rest) := span_number s in
  match NilZero.int_of_string tok with
  | Some d => Some (VInt (Z.of_int d), rest)
  | None =>
      match PyStr.float_of_str (fun _ => false) (fun _ => None)
              (of_string tok) with
      | Some f => Some (VFloat f, rest)
      | None => None
      end
  end.

(** Modelled from the spec: the value of a hexadecimal digit for the
    missing reader. *)
Definition hex_value (c : ascii) : option N :=
  let n := N_of_ascii c in
  if ((48 <=? n) && (n <=? 57))%N then Some (n - 48)%N
  else if ((97 <=? n) && (n <=? 102))%N then Some (n - 87)%N
  else if ((65 <=? n) && (n <=? 70))%N then Some (n - 55)%N
  else None.

(** Modelled from the spec: for the missing reader, the character an
    escape stands for, from the text after the backslash; an escape
    [\uXXXX] above 255 is not read. *)
Definition read_escape (s : string) : option (ascii * string) :=
  match s with
  | String e r =>
      let n := N_of_ascii e in
      if (n =? 34)%N then Some (ascii_of_N 34, r)
      else if (n =? 92)%N then Some (ascii_of_N 92, r)
      else if (n =? 47)%N then Some (ascii_of_N 47, r)
      else if (n =? 110)%N then Some (ascii_of_N 10, r)
      else if (n =? 114)%N then Some (ascii_of_N 13, r)
      else if (n =? 116)%N then Some (ascii_of_N 9, r)
      else if (n =? 102)%N then Some (ascii_of_N 12, r)
      else if (n =? 98)%N then Some (ascii_of_N 8, r)
      else if (n =? 117)%N then
        match r with
        | String h1 (String h2 (String h3 (String h4 r'))) =>
            match hex_value h1, hex_value h2, hex_value h3, hex_value h4 with
            | Some 0%N, Some 0%N, Some a, Some b =>
                Some (ascii_of_N (16 * a + b), r')
            | _, _, _, _ => None
            end
        | _ => None
        end
      else None
  | EmptyString => None
  end.

(** Modelled from the spec: the missing reader on the text after an
    opening quote: the string, and what follows its closing quote. *)
Fixpoint read_string (fuel : nat) (s : string) : option (string * string) :=
  match fuel with
  | O => None
  | S fuel' =>
      match s with
      | EmptyString => None
      | String c s' =>
          if (N_of_ascii c =? 34)%N then Some (EmptyString, s')
          else if (N_of_ascii c =? 92)%N then
            match read_escape s' with
            | Some (a, r) =>
                match read_string fuel' r with
                | Some (t, r') => Some (String a t, r')
                | None => None
                end
            | None => None
            end
          else
            match read_string fuel' s' with
            | Some (t, r') => Some (String c t, r')
            | None => None
            end
      end
  end.

(** Modelled from the spec: [s] without the prefix [p], for the literals
    of the missing reader. *)
Fixpoint strip_prefix (p s : string) : option string :=
  match p, s with
  | EmptyString, _ => Some s
  | String a p', String c s' =>
      if Ascii.eqb a c then strip_prefix p' s' else None
  | String _ _, EmptyString => None
  end.

(** Modelled from the spec: the dictionary the missing reader makes of the
    items of an object, [dict(pairs)]: a key that comes again replaces the
    value it had. *)
Definition dict_of_pairs (pairs : list (string * value)) : dict :=
  fold_left (fun d kx => dict_set d (fst kx) (snd kx)) pairs [].

(** Modelled from the spec: the missing reader on a value, on the elements
    of a list after the first, on an item of a dictionary and on the items
    after the first; [n] bounds the nesting. *)
Fixpoint read_value (n : nat) (s : string) {struct n}
  : option (value * string) :=
  match n with
  | O => None
  | S n' =>
      match skip_ws s with
      | EmptyString => None
      | String c s' =>
          if Ascii.eqb c "[" then
            match skip_ws s' with
            | EmptyString => None
            | String c2 r =>
                if Ascii.eqb c2 "]" then Some (VList [], r)
                else
                  match read_value n' s' with
                  | Some (x, r1) =>
                      match read_elements n' r1 with
                      | Some (xs, r2) => Some (VList (x :: xs), r2)
                      | None => None
                      end
                  | None => None
                  end
            end
          else if Ascii.eqb c "{" then
            match skip_ws s' with
            | EmptyString => None
            | String c2 r =>
                if Ascii.eqb c2 "}" then Some (VDict [], r)
                else
                  match read_member n' s' with
                  | Some (kx, r1) =>
                      match read_members n' r1 with
                      | Some (kxs, r2) =>
                          Some (VDict (dict_of_pairs (kx :: kxs)), r2)
                      | None => None
                      end
                  | None => None
                  end
            end
          else if (N_of_ascii c =? 34)%N then
            match read_string (String.length s') s' with
            | Some (t, r) => Some (VStr t, r)
            | None => None
            end
          else if Ascii.eqb c "N" then
            match strip_prefix "aN" s' with
            | Some r => Some (VFloat nan, r)
            | None => None
            end
          else if Ascii.eqb c "I" then
            match strip_prefix "nfinity" s' with
            | Some r => Some (VFloat infinity, r)
            | None => None
            end
          else
            match strip_prefix "-Infinity" (String c s') with
            | Some r => Some (VFloat neg_infinity, r)
            | None => read_number (String c s')
            end
      end
  end
with read_elements (n : nat) (s : string) {struct n}
  : option (list value * string) :=
  match n with
  | O => None
  | S n' =>
      match skip_ws s with
      | EmptyString => None
      | String c r =>
          if Ascii.eqb c "," then
            match read_value n' r with
            | Some (x, r1) =>
                match read_elements n' r1 with
                | Some (xs, r2) => Some (x :: xs, r2)
                | None => None
                end
            | None => None
            end
          else if Ascii.eqb c "]" then Some ([], r)
          else None
      end
  end
with read_member (n : nat) (s : string) {struct n}
  : option ((string * value) * string) :=
  match n with
  | O => None
  | S n' =>
      match skip_ws s with
      | EmptyString => None
      | String c r =>
          if (N_of_ascii c =? 34)%N then
            match read_string (String.length r) r with
            | Some (k, r1) =>
                match skip_ws r1 with
                | String c2 r2 =>
                    if Ascii.eqb c2 ":" then
                      match read_value n' r2 with
                      | Some (x, r3) => Some ((k, x), r3)
                      | None => None
                      end
                    else None
                | EmptyString => None
                end
            | None => None
            end
          else None
      end
  end
with read_members (n : nat) (s : string) {struct n}
  : option (list (string * value) * string) :=
  match n with
  | O => None
  | S n' =>
      match skip_ws s with
      | EmptyString => None
      | String c r =>
          if Ascii.eqb c "," then
            match read_member n' r with
            | Some (kx, r1) =>
                match read_members n' r1 with
                | Some (kxs, r2) => Some (kx :: kxs, r2)
                | None => None
                end
            | None => None
            end
          else if Ascii.eqb c "}" then Some ([], r)
          else None
      end
  end.

(** Modelled from the spec: [deserialize] of the Fixture Serializer, which
    the scripts do not have: the value a text holds, when the text holds
    one value and nothing else. *)
Definition deserialize (text : string) : option value :=
  match read_value (S (String.length text)) text with
  | Some (v, r) =>
      match skip_ws r with
      | EmptyString => Some v
      | String _ _ => None
      end
  | None => None
  end.

(** *** What the round trip is stated for *)

(** Modelled from the spec: a bound on the nesting the missing reader goes
    through for [v]. *)
Fixpoint size (v : value) : nat :=
  match v with
  | VInt _ | VFloat _ | VStr _ => 1
  | VList l => 2 + list_sum (map (fun x => S (size x)) l)
  | VDict d => 2 + list_sum (map (fun kx => 2 + size (snd kx)) d)
  end.

(** Modelled from the spec: a text of number characters for the missing
    reader. *)
Fixpoint number_chars (s : string) : bool :=
  match s with
  | EmptyString => true
  | String c s' => is_number_char c && number_chars s'
  end.

(** Modelled from the spec: a text of number characters, with one at
    least. *)
Definition number_token (s : string) : bool :=
  match s with
  | EmptyString => false
  | String _ _ => number_chars s
  end.

(** Modelled from the spec: what may follow a value in a text for the
    missing reader: nothing, or a character that is neither of a number
    nor the [I] of [Infinity]. *)
Definition delimited (s : string) : bool :=
  match s with
  | EmptyString => true
  | String c _ => negb (is_number_char c) && negb (Ascii.eqb c "I")
  end.

Section Representable.

Variable float_repr : float -> string.

(** Modelled from the spec: a representable float, one the file can hold:
    not NaN, which equals nothing, and, when finite, one whose [repr] is a
    number that is no integer and that [float] reads as the same float. *)
Definition representable_float (f : float) : Prop :=
  is_nan f = false /\
  ((f =? infinity)%float = false -> (f =? neg_infinity)%float = false ->
   number_token (float_repr f) = true /\
   NilZero.int_of_string (float_repr f) = None /\
   PyStr.float_of_str (fun _ => false) (fun _ => None)
     (of_string (float_repr f)) = Some f).

(** Modelled from the spec: a representable value: its floats are
    representable, and no dictionary in it has a key twice, as in every
    Python dictionary. *)
Fixpoint representable (v : value) : Prop :=
  match v with
  | VInt _ | VStr _ => True
  | VFloat f => representable_float f
  | VList l =>
      (fix all (l : list value) : Prop :=
         match l with
         | [] => True
         | x :: l' => representable x /\ all l'
         end) l
  | VDict d =>
      NoDup (map fst d) /\
      (fix all (d : list (string * value)) : Prop :=
         match d with
         | [] => True
         | kx :: d' => representable (snd kx) /\ all d'
         end) d
  end.

End Representable.

(** ** The generator and the process it runs in *)

Section Generator.

Variable np : Np.api.
Variable float_repr : float -> string.

Record state : Type := State {
  (** [self.test_data] *)
  test_data : dict;
  (** NumPy's global random generator *)
  rng : Np.rng np;
  (** what [print] has written *)
  stdout : list line;
  (** the files written so far: name and content *)
  files : list (string * string)
}.

(** A step of the script: it ends with an exception, or with a result and
    the next state. *)
Definition gen (A : Type) : Type := state -> exn + (A * state).

Definition ret {A : Type} (a : A) : gen A := fun st => inr (a, st).

Definition bind {A B : Type} (c : gen A) (k : A -> gen B) : gen B :=
  fun st =>
    match c st with
    | inl e => inl e
    | inr (a, st') => k a st'
    end.

Notation "x <- c ;; k" := (bind c (fun x => k))
  (at level 61, c at next level, right associativity).
Notation "c ;; k" := (bind c (fun _ => k))
  (at level 61, right associativity).

(** The result of a library call that may raise. *)
Definition lift {A : Type} (r : exn + A) : gen A :=
  fun st =>
    match r with
    | inl e => inl e
    | inr a => inr (a, st)
    end.

Definition print (l : line) : gen unit :=
  fun st => inr (tt, State (test_data st) (rng st) (stdout st ++ [l])%list (files st)).

(** [self.test_data[k] = v] *)
Definition set_test_data (k : string) (v : value) : gen unit :=
  fun st =>
    inr (tt, State (dict_set (test_data st) k v) (rng st) (stdout st) (files st)).

(** [for x in xs: ...; tests.append(...)] *)
Fixpoint for_each {A B : Type} (xs : list A) (body : A -> gen B) : gen (list B) :=
  match xs with
  | [] => ret []
  | x :: xs' => b <- body x ;; bs <- for_each xs' body ;; ret (b :: bs)
  end.

(** *** Random arrays *)

Definition standard_normal : gen float :=
  fun st =>
    let (x, g) := Np.standard_normal np (rng st) in
    inr (x, State (test_data st) g (stdout st) (files st)).

(** [np.random.randn(n)] and [np.random.randn(m, n)] (row by row). *)
Fixpoint randn (n : nat) : gen (list float) :=
  match n with
  | O => ret []
  | S n' => x <- standard_normal ;; xs <- randn n' ;; ret (x :: xs)
  end.

Fixpoint randn2 (m n : nat) : gen (list (list float)) :=
  match m with
  | O => ret []
  | S m' => r <- randn n ;; rs <- randn2 m' n ;; ret (r :: rs)
  end.

(** [a + 1j * b] on two [float64] arrays and on two matrices: both are
    cast to [complex128]. *)
Fixpoint plus_1j_times (a b : list float) : vec :=
  match a, b with
  | p :: a', q :: b' =>
      c_add (of_float p) (c_mul (Complex 0 1) (of_float q)) :: plus_1j_times a' b'
  | _, _ => []
  end.

Fixpoint plus_1j_times2 (a b : list (list float)) : mat :=
  match a, b with
  | p :: a', q :: b' => plus_1j_times p q :: plus_1j_times2 a' b'
  | _, _ => []
  end.

(** [np.random.randn(n) + 1j * np.random.randn(n)]: the real parts are
    drawn first. *)
Definition random_vector (n : nat) : gen vec :=
  a <- randn n ;; b <- randn n ;; ret (plus_1j_times a b).

(** [np.random.randn(m, n) + 1j * np.random.randn(m, n)] *)
Definition random_matrix (m n : nat) : gen mat :=
  a <- randn2 m n ;; b <- randn2 m n ;; ret (plus_1j_times2 a b).

Definition VNat (n : nat) : value := VInt (Z.of_nat n).

(** [(A + A.conj().T) / 2] *)
Definition hermitian_part (A : mat) : mat :=
  Np.mdiv_scalar (Np.madd A (Np.T (Np.mconj A))) 2.

(** *** Level 1 *)

(** The body of the loop of [generate_level1_tests], for one size. *)
Definition level1_test_case (n : nat) : gen value :=
  x <- random_vector n ;;
  y <- random_vector n ;;
  let alpha := Complex 2.5 (-1.5) in
  let zdotu_result := Np.dot np x y in
  let zdotc_result := Np.vdot np x y in
  let norm2_result := Np.linalg_norm np x in
  let asum_result := dzasum np x in
  let scaled_x := Np.scale alpha x in
  let axpy_result := Np.add (Np.scale alpha x) y in
  let copy_result := x in
  let '(x_swap, y_swap) := (y, x) in
  ret (VDict
    [ ("size", VNat n);
      ("x", array_to_list x);
      ("y", array_to_list y);
      ("alpha", complex_to_dict alpha);
      ("results", VDict
        [ ("zdotu", complex_to_dict zdotu_result);
          ("zdotc", complex_to_dict zdotc_result);
          ("dznrm2", VFloat norm2_result);
          ("dzasum", VFloat asum_result);
          ("zscal", array_to_list scaled_x);
          ("zaxpy", array_to_list axpy_result);
          ("zcopy", array_to_list copy_result);
          ("zswap", VDict
            [ ("x_after", array_to_list x_swap);
              ("y_after", array_to_list y_swap) ]) ]) ]).

(** Generate special test cases for Level 1 operations. *)
Definition generate_special_cases_level1 : list value :=
  let x := [Complex 1 0; Complex 2 0; Complex 3 0] in
  let y := [Complex 4 0; Complex 5 0; Complex 6 0] in
  let pure_real :=
    VDict
      [ ("name", VStr "pure_real");
        ("size", VInt 3);
        ("x", array_to_list x);
        ("y", array_to_list y);
        ("results", VDict
          [ ("zdotu", complex_to_dict (Np.dot np x y));
            ("zdotc", complex_to_dict (Np.vdot np x y));
            ("dznrm2", VFloat (Np.linalg_norm np x)) ]) ] in
  let x := [Complex 0 1; Complex 0 2; Complex 0 3] in
  let y := [Complex 0 4; Complex 0 5; Complex 0 6] in
  let pure_imaginary :=
    VDict
      [ ("name", VStr "pure_imaginary");
        ("size", VInt 3);
        ("x", array_to_list x);
        ("y", array_to_list y);
        ("results", VDict
          [ ("zdotu", complex_to_dict (Np.dot np x y));
            ("zdotc", complex_to_dict (Np.vdot np x y));
            ("dznrm2", VFloat (Np.linalg_norm np x)) ]) ] in
  let x := Np.div_scalar [Complex 3 4] 5 in
  let unit_norm :=
    VDict
      [ ("name", VStr "unit_norm");
        ("size", VInt 1);
        ("x", array_to_list x);
        ("results", VDict [ ("dznrm2", VFloat (Np.linalg_norm np x)) ]) ] in
  [pure_real; pure_imaginary; unit_norm].

(** Generate test cases for Level 1 BLAS operations. *)
Definition generate_level1_tests : gen unit :=
  print [Lit "Generating Level 1 BLAS test cases..."] ;;
  let sizes := [2; 3; 5; 10]%nat in
  level1_tests <- for_each sizes level1_test_case ;;
  let special_tests := generate_special_cases_level1 in
  let level1_tests := (level1_tests ++ special_tests)%list in
  set_test_data "level1" (VList level1_tests).

(** *** Level 2 *)

(** The body of the loop of [generate_level2_tests], for one shape. *)
Definition level2_test_case (shape : nat * nat) : gen value :=
  let '(m, n) := shape in
  A <- random_matrix m n ;;
  x <- random_vector n ;;
  y <- random_vector m ;;
  let alpha := Complex 1.5 0.5 in
  let beta := Complex 0.5 (-0.5) in
  let gemv_result := Np.add (Np.matvec (Np.mscale alpha A) x) (Np.scale beta y) in
  let test_case :=
    [ ("m", VNat m);
      ("n", VNat n);
      ("A", matrix_to_list A);
      ("x", array_to_list x);
      ("y", array_to_list y);
      ("alpha", complex_to_dict alpha);
      ("beta", complex_to_dict beta);
      ("results", VDict [ ("zgemv", array_to_list gemv_result) ]) ] in
  if (m =? n)%nat then
    let H := hermitian_part A in
    let zhemv_result :=
      Np.add (Np.matvec (Np.mscale alpha H) x) (Np.scale beta y) in
    let test_case := dict_set test_case "H" (matrix_to_list H) in
    let test_case := dict_set2 test_case "results" "zhemv" (array_to_list zhemv_result) in
    let U := Np.triu np A in
    let ztrmv_result := Np.matvec U x in
    let test_case := dict_set test_case "U" (matrix_to_list U) in
    let test_case := dict_set2 test_case "results" "ztrmv" (array_to_list ztrmv_result) in
    b <- random_vector n ;;
    ztrsv_result <- lift (Np.linalg_solve np U b) ;;
    let test_case := dict_set test_case "b" (array_to_list b) in
    let test_case := dict_set2 test_case "results" "ztrsv" (array_to_list ztrsv_result) in
    ret (VDict test_case)
  else ret (VDict test_case).

(** Generate test cases for rank-1 updates. *)
Definition generate_rank1_update_tests : gen (list value) :=
  let '(m, n) := (3, 3)%nat in
  A <- random_matrix m n ;;
  x <- random_vector m ;;
  y <- random_vector n ;;
  let alpha := Complex 2 1 in
  let gerc_result := Np.madd A (Np.mscale alpha (Np.outer np x (Np.conj y))) in
  let geru_result := Np.madd A (Np.mscale alpha (Np.outer np x y)) in
  let H := hermitian_part A in
  let her_result :=
    Np.madd H (Np.mscale (of_float (real alpha)) (Np.outer np x (Np.conj x))) in
  let test :=
    VDict
      [ ("name", VStr "rank1_updates");
        ("m", VNat m);
        ("n", VNat n);
        ("A", matrix_to_list A);
        ("H", matrix_to_list H);
        ("x", array_to_list x);
        ("y", array_to_list y);
        ("alpha", complex_to_dict alpha);
        ("alpha_real", VFloat (real alpha));
        ("results", VDict
          [ ("zgerc", matrix_to_list gerc_result);
            ("zgeru", matrix_to_list geru_result);
            ("zher", matrix_to_list her_result) ]) ] in
  ret [test].

(** Generate test cases for Level 2 BLAS operations. *)
Definition generate_level2_tests : gen unit :=
  print [Lit "Generating Level 2 BLAS test cases..."] ;;
  let sizes := [(2, 2); (3, 3); (4, 3); (3, 4)]%nat in
  level2_tests <- for_each sizes level2_test_case ;;
  rank1_tests <- generate_rank1_update_tests ;;
  let level2_tests := (level2_tests ++ rank1_tests)%list in
  set_test_data "level2" (VList level2_tests).

(** *** Level 3 *)

(** The body of the loop of [generate_level3_tests], for one shape. *)
Definition level3_test_case (shape : nat * nat * nat) : gen value :=
  let '(m, k, n) := shape in
  A <- random_matrix m k ;;
  B <- random_matrix k n ;;
  C <- random_matrix m n ;;
  let alpha := Complex 2 (-1) in
  let beta := Complex 1 0.5 in
  let gemm_result := Np.madd (Np.matmul (Np.mscale alpha A) B) (Np.mscale beta C) in
  let test_case :=
    [ ("m", VNat m);
      ("k", VNat k);
      ("n", VNat n);
      ("A", matrix_to_list A);
      ("B", matrix_to_list B);
      ("C", matrix_to_list C);
      ("alpha", complex_to_dict alpha);
      ("beta", complex_to_dict beta);
      ("results", VDict [ ("zgemm", matrix_to_list gemm_result) ]) ] in
  if ((m =? n) && (n =? k))%nat then
    let H := hermitian_part A in
    let zhemm_result :=
      Np.madd (Np.matmul (Np.mscale alpha H) B) (Np.mscale beta C) in
    let test_case := dict_set test_case "H" (matrix_to_list H) in
    let test_case := dict_set2 test_case "results" "zhemm" (matrix_to_list zhemm_result) in
    let C_herm := hermitian_part C in
    let zherk_result :=
      Np.madd (Np.matmul (Np.mscale (of_float (real alpha)) A) (Np.T (Np.mconj A)))
              (Np.mscale (of_float (real beta)) C_herm) in
    let test_case := dict_set test_case "C_herm" (matrix_to_list C_herm) in
    let test_case := dict_set2 test_case "results" "zherk" (matrix_to_list zherk_result) in
    ret (VDict test_case)
  else ret (VDict test_case).

(** Generate test cases for Level 3 BLAS operations. *)
Definition generate_level3_tests : gen unit :=
  print [Lit "Generating Level 3 BLAS test cases..."] ;;
  let sizes := [(2, 3, 4); (3, 3, 3); (4, 2, 3)]%nat in
  level3_tests <- for_each sizes level3_test_case ;;
  set_test_data "level3" (VList level3_tests).

(** *** Saving and the entry point *)

(** Save test data to JSON file: the file is opened for writing, which
    replaces what it held.  (The disk is a table from names to contents,
    with no directories and no permissions: [open] and [json.dump] are
    taken to succeed, and what is stated of a run that ends normally is
    stated of the runs in which they did.) *)
Definition save_test_data (filename : string) : gen unit :=
  (fun st =>
     inr (tt, State (test_data st) (rng st) (stdout st)
                (dict_like_set (files st) filename
                   (json_dumps float_repr (VDict (test_data st)))))) ;;
  print [Lit ("Test data saved to " ++ filename)].

(** Generate all test cases. *)
Definition generate_all_tests : gen unit :=
  generate_level1_tests ;;
  generate_level2_tests ;;
  generate_level3_tests ;;
  save_test_data "complex_blas_test_data.json".

(** [ComplexBLASTestGenerator.__init__] with the seed it passes to
    [np.random.seed]: the test data start empty and the global generator
    is seeded anew, whatever its state was. *)
Definition init (seed : Z) : gen unit :=
  fun st => inr (tt, State [] (Np.random_seed np seed) (stdout st) (files st)).

(** Set random seed for reproducibility: [np.random.seed(42)]. *)
Definition ComplexBLASTestGenerator : gen unit := init 42.

(** The script seeded with [seed]. *)
Definition main_seeded (seed : Z) : gen unit :=
  init seed ;;
  generate_all_tests ;;
  print [Lit (String (ascii_of_nat 10) "Example test case (zdotu):")] ;;
  let x := [Complex 1 0; Complex 2 1] in
  let y := [Complex 3 4; Complex 1 (-2)] in
  let result := Np.dot np x y in
  print [Lit "x = "; Arr x] ;;
  print [Lit "y = "; Arr y] ;;
  print [Lit "zdotu(x, y) = "; Cplx result] ;;
  print [Lit "Expected: (1+0j)*(3+4j) + (2+1j)*(1-2j) = 3+4j + 4-3j = 7+1j"].

Definition main : gen unit := main_seeded 42.

(** A run of the script in a process whose random generator is in the
    state [ambient] and whose directory holds [disk]: the test data and
    the files at the end, or the exception that ended it. *)
Definition run_seeded (seed : Z) (ambient : Np.rng np)
    (disk : list (string * string)) : exn + (dict * list (string * string)) :=
  match main_seeded seed (State [] ambient [] disk) with
  | inl e => inl e
  | inr (_, st) => inr (test_data st, files st)
  end.

Definition run := run_seeded 42.

(** The content of the file [name]. *)
Fixpoint file_content (fs : list (string * string)) (name : string)
  : option string :=
  match fs with
  | [] => None
  | (n', c') :: fs' => if String.eqb name n' then Some c' else file_content fs' name
  end.

(** The fixture file holds the serialized test data. *)
Definition saved (st : state) : Prop :=
  file_content (files st) "complex_blas_test_data.json"
    = Some (json_dumps float_repr (VDict (test_data st))).

(** Two states that differ in the files on disk at most. *)
Definition agree (st1 st2 : state) : Prop :=
  test_data st1 = test_data st2 /\ rng st1 = rng st2 /\ stdout st1 = stdout st2.

Definition same_result {A : Type} (r1 r2 : exn + (A * state)) : Prop :=
  match r1, r2 with
  | inl e1, inl e2 => e1 = e2
  | inr (a1, st1), inr (a2, st2) => a1 = a2 /\ agree st1 st2
  | _, _ => False
  end.

(** A step that does not read the disk. *)
Definition blind {A : Type} (c : gen A) : Prop :=
  forall st1 st2, agree st1 st2 -> same_result (c st1) (c st2).

(** The entry of a serialized matrix in row [i] and column [j]. *)
Definition entry (u : value) (i j : nat) : option value :=
  match u with
  | VList rows =>
      match nth_error rows i with
      | Some (VList row) => nth_error row j
      | _ => None
      end
  | _ => None
  end.

End Generator.

End Generate.

(** The same library with a random generator that counts: seeded with
    [s] it draws [s], [s+1], [s+2], ...; the library for the examples
    that draw. *)
Definition numpy_counting : Np.api :=
  Np64.numpy64 Z (fun s => s)
    (fun g => (PrimFloat.of_uint63 (Uint63.of_Z g), (g + 1)%Z))
    (fun a b => PrimFloat.sqrt (a * a + b * b)).

(** The same library with a random generator that always draws 1: the
    library for the examples of runs that end normally. *)
Definition numpy_ones : Np.api :=
  Np64.numpy64 unit (fun _ => tt) (fun g => (1%float, g))
    (fun a b => PrimFloat.sqrt (a * a + b * b)).

(* ===================================================================== *)
(** * Binary64 values *)
(* ===================================================================== *)

(** The vocabulary of the statements on the arithmetic of the scripts:
    what a float is as an IEEE 754 value. *)
Module Binary64.

(** A zero or a finite number: neither NaN nor an infinity. *)
Definition sf_finite (x : spec_float) : bool :=
  match x with
  | S754_zero _ | S754_finite _ _ _ => true
  | _ => false
  end.

(** [+0.0] or [-0.0]. *)
Definition sf_zero (x : spec_float) : bool :=
  match x with
  | S754_zero _ => true
  | _ => false
  end.

(** The sign bit is clear, or the value is NaN. *)
Definition sf_nonnegative (x : spec_float) : bool :=
  match x with
  | S754_zero s | S754_infinity s | S754_finite s _ _ => negb s
  | S754_nan => true
  end.

(** The mantissa [p] shifted left by [n] bits. *)
Definition shl (p : positive) (n : nat) : positive := Nat.iter n xO p.

(** The integer [c] of at most 53 bits, with the sign [s], as binary64
    holds it: the mantissa is [c] moved up to 53 bits. *)
Definition canonical (s : bool) (c : positive) : spec_float :=
  S754_finite s (shl c (Z.to_nat (53 - Zpos (digits2_pos c))))
    (Zpos (digits2_pos c) - 53).

(** The sum of a list of integers. *)
Definition total (zs : list Z) : Z := fold_right Z.add 0%Z zs.

(** The complex vector with the integer parts [zs]. *)
Definition int_vector (zs : list (Z * Z)) : vec :=
  map (fun z => Complex (float_of_int (fst z)) (float_of_int (snd z))) zs.

(** The sum of the magnitudes of the real parts plus the sum of the
    magnitudes of the imaginary parts, in the integers. *)
Definition magnitudes (zs : list (Z * Z)) : Z :=
  (total (map (fun z => Z.abs (fst z)) zs)
   + total (map (fun z => Z.abs (snd z)) zs))%Z.

(** [f] is the float of the integer [z], which is not negative; where the
    sum has not met an element yet it may still be the [-0.0] it started
    from.  Nothing is said of an integer of more than 53 bits. *)
Definition holds_integer (z : Z) (f : float) : Prop :=
  (0 <= z)%Z
  /\ ((z < 2 ^ 53)%Z -> f = float_of_int z \/ (z = 0%Z /\ f = (-0)%float)).

(** The sign bit of [f] is clear, or [f] is the [-0.0] a sum starts from. *)
Definition magnitude_or_start (f : float) : Prop :=
  sf_nonnegative (Prim2SF f) = true \/ f = (-0)%float.

End Binary64.

(* ===================================================================== *)
(** * Reading a run of the generator *)
(* ===================================================================== *)

(** What a run takes from the random generator and what the test cases it
    stores look like: the vocabulary of the statements about
    [generate_complex_test_data.py] further down. *)
Module Fixture.

Import Generate.

Local Open Scope string_scope.

Section Draws.

Variable np : Np.api.

(** The global generator after [k] more draws. *)
Fixpoint advance (k : nat) (g : Np.rng np) : Np.rng np :=
  match k with
  | O => g
  | S k' => advance k' (snd (Np.standard_normal np g))
  end.

(** The next [k] draws of the generator in state [g], in the order they
    are made. *)
Fixpoint draws (k : nat) (g : Np.rng np) : list float :=
  match k with
  | O => []
  | S k' =>
      fst (Np.standard_normal np g)
      :: draws k' (snd (Np.standard_normal np g))
  end.

(** The next [m] rows of [n] draws. *)
Fixpoint draws2 (m n : nat) (g : Np.rng np) : list (list float) :=
  match m with
  | O => []
  | S m' => draws n g :: draws2 m' n (advance n g)
  end.

(** The state [st] with the generator moved to [g]. *)
Definition with_rng (st : state np) (g : Np.rng np) : state np :=
  State np (test_data np st) g (stdout np st) (files np st).

(** The [n] by [n] base matrix [A] of a test case drawn from the
    generator in state [g]: the real parts row by row, then the imaginary
    parts. *)
Definition random_base (n : nat) (g : Np.rng np) : mat :=
  plus_1j_times2 (draws2 n n g) (draws2 n n (advance (n * n) g)).

(** The triangular solve with the upper triangle of a base matrix of size
    [n] fails with [e]. *)
Definition fails_on (n : nat) (e : exn) : Prop :=
  exists g b,
    List.length b = n
    /\ Np.linalg_solve np (Np.triu np (random_base n g)) b = inl e.

(** A step that writes no file. *)
Definition leaves_files {A : Type} (c : gen np A) : Prop :=
  forall st a st', c st = inr (a, st') -> files np st' = files np st.

End Draws.

(** [v] is a vector of [n] complex numbers as [array_to_list] writes it. *)
Definition holds_vector (n : nat) (v : value) : Prop :=
  exists x : vec, v = array_to_list x /\ List.length x = n.

(** [A] has [m] rows of [n] entries. *)
Definition shape (m n : nat) (A : mat) : Prop :=
  List.length A = m /\ Forall (fun r => List.length r = n) A.

(** [v] is an [m] by [n] matrix as [matrix_to_list] writes it. *)
Definition holds_matrix (m n : nat) (v : value) : Prop :=
  exists A : mat, v = matrix_to_list A /\ shape m n A.

(** The entry of a matrix in row [i] and column [j]. *)
Definition at_ (A : mat) (i j : nat) : complex :=
  nth j (nth i A []) c_zero.

(** A text of ASCII characters only. *)
Fixpoint ascii_only (s : string) : bool :=
  match s with
  | EmptyString => true
  | String c s' => (N_of_ascii c <? 128)%N && ascii_only s'
  end.

(** The expected result [k] of a test case, [tc["results"][k]]. *)
Definition result (tc : dict) (k : string) : option value :=
  match dict_get tc "results" with
  | Some (VDict res) => dict_get res k
  | _ => None
  end.

(** The sizes a Level 1 test case declares are those of what it holds:
    [x], and [y] and the vectors among the results when they are there,
    have [size] elements. *)
Definition level1_shape (tc : dict) : Prop :=
  exists n : nat,
    dict_get tc "size" = Some (VNat n) /\
    (exists v, dict_get tc "x" = Some v /\ holds_vector n v) /\
    (forall v, dict_get tc "y" = Some v -> holds_vector n v) /\
    (forall k v, In k ["zscal"; "zaxpy"; "zcopy"] ->
                 result tc k = Some v -> holds_vector n v).

(** The same for a Level 2 test case: [A] is [m] by [n], [x] has [n]
    elements and [y] has [m]; [H] and [U] come with square matrices only. *)
Definition level2_shape (tc : dict) : Prop :=
  exists m n : nat,
    dict_get tc "m" = Some (VNat m) /\
    dict_get tc "n" = Some (VNat n) /\
    (exists v, dict_get tc "A" = Some v /\ holds_matrix m n v) /\
    (exists v, dict_get tc "x" = Some v /\ holds_vector n v) /\
    (exists v, dict_get tc "y" = Some v /\ holds_vector m v) /\
    (forall k v, In k ["H"; "U"] -> dict_get tc k = Some v ->
                 m = n /\ holds_matrix n n v) /\
    (forall v, dict_get tc "b" = Some v -> holds_vector n v) /\
    (forall v, result tc "zgemv" = Some v -> holds_vector m v) /\
    (forall k v, In k ["zhemv"; "ztrmv"; "ztrsv"] ->
                 result tc k = Some v -> holds_vector n v) /\
    (forall k v, In k ["zgerc"; "zgeru"; "zher"] ->
                 result tc k = Some v -> holds_matrix m n v).

(** The same for a Level 3 test case: [A] is [m] by [k], [B] is [k] by
    [n], [C] and [zgemm] are [m] by [n]; the Hermitian fixtures come with
    [m = n = k] only. *)
Definition level3_shape (tc : dict) : Prop :=
  exists m k n : nat,
    dict_get tc "m" = Some (VNat m) /\
    dict_get tc "k" = Some (VNat k) /\
    dict_get tc "n" = Some (VNat n) /\
    (exists v, dict_get tc "A" = Some v /\ holds_matrix m k v) /\
    (exists v, dict_get tc "B" = Some v /\ holds_matrix k n v) /\
    (exists v, dict_get tc "C" = Some v /\ holds_matrix m n v) /\
    (exists v, result tc "zgemm" = Some v /\ holds_matrix m n v) /\
    (forall key v, In key ["H"; "C_herm"] -> dict_get tc key = Some v ->
                   m = n /\ n = k /\ holds_matrix n n v) /\
    (forall key v, In key ["zhemm"; "zherk"] ->
                   result tc key = Some v -> holds_matrix n n v).

End Fixture.

(* ===================================================================== *)
(** * Properties *)
(* ===================================================================== *)

(** ** The harness: scenarios, aggregate and exit status *)

Module ValidateFacts.

Import Validate.

Lemma appends_ret {A : Type} (a : A) : appends (ret a).
Proof. intros out. unfold ret. simpl. now rewrite app_nil_r. Qed.

Lemma appends_print (l : line) : appends (print l).
Proof. intros out. reflexivity. Qed.

Lemma appends_bind {A B : Type} (c : io A) (k : A -> io B) :
  appends c -> (forall a, appends (k a)) -> appends (bind c k).
Proof.
  intros Hc Hk out. unfold bind.
  rewrite (Hc out), (Hc []). simpl.
  rewrite (Hk (fst (c [])) (out ++ snd (c []))).
  rewrite (Hk (fst (c [])) (snd (c []))). simpl.
  now rewrite app_assoc.
Qed.

Lemma appends_if {A : Type} (b : bool) (c d : io A) :
  appends c -> appends d -> appends (if b then c else d).
Proof. now destruct b. Qed.

Lemma appends_for_enumerate {A S : Type} (body : Z -> A -> S -> io S) :
  (forall i c s, appends (body i c s)) ->
  forall cases i s, appends (for_enumerate i cases s body).
Proof.
  intros Hbody cases. induction cases as [|c cases IH]; intros i s; simpl.
  - apply appends_ret.
  - apply appends_bind; [apply Hbody | intros s'; apply IH].
Qed.

Ltac console :=
  repeat first
    [ apply appends_ret | apply appends_print
    | apply appends_if
    | apply appends_bind; [| intro]
    | apply appends_for_enumerate; intros ? ? ?
    | match goal with |- appends (let '(_, _) := ?p in _) => destruct p end ].

Lemma appends_zdotu np : appends (validate_zdotu np).
Proof. unfold validate_zdotu. console. Qed.

Lemma appends_zdotc np : appends (validate_zdotc np).
Proof. unfold validate_zdotc. console. Qed.

Lemma appends_norms np : appends (validate_norms np).
Proof. unfold validate_norms. console. Qed.

Lemma appends_asum np : appends (validate_asum np).
Proof. unfold validate_asum. console. Qed.

Lemma appends_level2 : appends (validate_level2_operations).
Proof. unfold validate_level2_operations. console. Qed.

Lemma fst_bind {A B : Type} (c : io A) (k : A -> io B) out :
  appends c ->
  fst (bind c k out) = fst (k (fst (c [])) (out ++ snd (c []))).
Proof. intros Hc. unfold bind. now rewrite (Hc out). Qed.

(** The dictionary [results] holds the five scenario results. *)
Lemma scenario_results_values np out :
  fst (scenario_results np out) =
    [ ("Level 1 - zdotu", passed (validate_zdotu np));
      ("Level 1 - zdotc", passed (validate_zdotc np));
      ("Level 1 - dznrm2", passed (validate_norms np));
      ("Level 1 - dzasum", passed (validate_asum np));
      ("Level 2 - Matrix operations", passed (validate_level2_operations)) ]%string.
Proof.
  unfold scenario_results, passed.
  rewrite fst_bind by apply appends_zdotu.
  rewrite fst_bind by apply appends_zdotc.
  rewrite fst_bind by apply appends_norms.
  rewrite fst_bind by apply appends_asum.
  rewrite fst_bind by apply appends_level2.
  reflexivity.
Qed.

Lemma appends_scenario_results np : appends (scenario_results np).
Proof.
  unfold scenario_results.
  apply appends_bind; [apply appends_zdotu | intro].
  apply appends_bind; [apply appends_zdotc | intro].
  apply appends_bind; [apply appends_norms | intro].
  apply appends_bind; [apply appends_asum | intro].
  apply appends_bind; [apply appends_level2 | intro].
  apply appends_ret.
Qed.

Lemma appends_print_results items : appends (print_results items).
Proof.
  induction items as [|[test p] items IH]; simpl.
  - apply appends_ret.
  - apply appends_bind; [apply appends_print | intro; apply IH].
Qed.

(** What [generate_test_summary] returns: [all] of the five results. *)
Lemma generate_test_summary_value np out :
  fst (generate_test_summary np out) =
    passed (validate_zdotu np) && passed (validate_zdotc np)
    && passed (validate_norms np) && passed (validate_asum np)
    && passed (validate_level2_operations).
Proof.
  unfold generate_test_summary.
  do 3 (rewrite fst_bind by apply appends_print).
  rewrite fst_bind by apply appends_scenario_results.
  do 2 (rewrite fst_bind by apply appends_print).
  rewrite fst_bind by apply appends_print_results.
  rewrite fst_bind by (apply appends_if; apply appends_print).
  unfold ret. simpl fst at 1.
  rewrite scenario_results_values. unfold all_values. cbn [forallb snd].
  change (passed validate_level2_operations) with true.
  now rewrite !andb_true_r, !andb_assoc.
Qed.

Lemma appends_generate_test_summary np : appends (generate_test_summary np).
Proof.
  unfold generate_test_summary.
  do 3 (apply appends_bind; [apply appends_print | intro]).
  apply appends_bind; [apply appends_scenario_results | intro].
  do 2 (apply appends_bind; [apply appends_print | intro]).
  apply appends_bind; [apply appends_print_results | intro].
  apply appends_bind; [apply appends_if; apply appends_print | intro].
  apply appends_ret.
Qed.

(** The exit status of the harness, from the aggregate and the status of
    the child process. *)
Lemma run_value np returncode :
  run np returncode =
    if (returncode =? 0)%Z
    then if fst (generate_test_summary np []) then 0%Z else 1%Z
    else 1%Z.
Proof.
  unfold run, main.
  do 2 (rewrite fst_bind by apply appends_print).
  rewrite fst_bind by apply appends_generate_test_summary.
  rewrite fst_bind by apply appends_print.
  rewrite !generate_test_summary_value.
  unfold subprocess_run. simpl andb.
  destruct (returncode =? 0)%Z; reflexivity.
Qed.

(** C9, as stated, fails: with every scenario passed, a child process
    that ends with status 1 makes the harness end with status 1. *)
Lemma exit_status_all_passed_child_failed :
  passed (validate_zdotu numpy_fixed) = true /\
  passed (validate_zdotc numpy_fixed) = true /\
  passed (validate_norms numpy_fixed) = true /\
  passed (validate_asum numpy_fixed) = true /\
  passed validate_level2_operations = true /\
  run numpy_fixed 1 = 1%Z.
Proof. repeat split; vm_compute; reflexivity. Qed.

(** C9 (amended): the exit status of the harness is 0 or 1, and it is 0
    exactly when every scenario passed and the child process that
    regenerates the fixtures ended with status 0. *)
Theorem exit_status_aggregate (np : Np.api) (returncode : Z) :
  (run np returncode = 0%Z \/ run np returncode = 1%Z) /\
  (run np returncode = 0%Z <->
   (passed (validate_zdotu np) = true /\
    passed (validate_zdotc np) = true /\
    passed (validate_norms np) = true /\
    passed (validate_asum np) = true /\
    passed validate_level2_operations = true) /\
   returncode = 0%Z).
Proof.
  rewrite run_value, generate_test_summary_value.
  destruct (Z.eqb_spec returncode 0) as [E|E];
    destruct (passed (validate_zdotu np)), (passed (validate_zdotc np)),
             (passed (validate_norms np)), (passed (validate_asum np));
    change (passed validate_level2_operations) with true; simpl;
    (split; [auto | split; [intros H; try discriminate H | intros H]; intuition congruence]).
Qed.

(** C10, as stated, fails in its last clause: with the four Level 1
    scenarios passed, a child process that ends with status 2 makes the
    harness end with a status that is not 0. *)
Lemma level1_is_not_the_only_cause :
  (passed (validate_zdotu numpy_fixed) = true /\
   passed (validate_zdotc numpy_fixed) = true /\
   passed (validate_norms numpy_fixed) = true /\
   passed (validate_asum numpy_fixed) = true) /\
  run numpy_fixed 2 <> 0%Z.
Proof.
  split; [repeat split; vm_compute; reflexivity |].
  intros H. vm_compute in H. discriminate H.
Qed.

(** C10 (amended): the Level 2 scenario returns [True] whatever was
    printed before it, after printing the two products it computed; the
    aggregate is the conjunction of the four Level 1 results; and the
    harness ends with a status other than 0 exactly when a Level 1
    scenario failed or the child process that regenerates the fixtures
    ended with a status other than 0. *)
Theorem level2_scenario_never_fails (np : Np.api) :
  (forall out, fst (validate_level2_operations out) = true) /\
  (forall out,
     let A := [[Complex 1 1; Complex 2 0]; [Complex 3 0; Complex 4 1]] in
     let H := [[Complex 2 0; Complex 1 (-1)]; [Complex 1 1; Complex 3 0]] in
     let x := [Complex 1 1; Complex 2 0] in
     let y := [Complex 0 0; Complex 0 0] in
     In [Lit "y = alpha*A*x + beta*y = ";
         Arr (Np.add (Np.matvec (Np.mscale (Complex 1 0) A) x)
                     (Np.scale (Complex 0 0) y))]
        (snd (validate_level2_operations out)) /\
     In [Lit "H*x = "; Arr (Np.matvec H x)]
        (snd (validate_level2_operations out))) /\
  (forall out,
     fst (generate_test_summary np out) =
       passed (validate_zdotu np) && passed (validate_zdotc np)
       && passed (validate_norms np) && passed (validate_asum np)) /\
  (forall returncode,
     run np returncode <> 0%Z <->
     (passed (validate_zdotu np) = false \/
      passed (validate_zdotc np) = false \/
      passed (validate_norms np) = false \/
      passed (validate_asum np) = false) \/
     returncode <> 0%Z).
Proof.
  split; [| split; [| split]].
  - intros out. now rewrite (appends_level2 out).
  - intros out A H x y. rewrite (appends_level2 out). simpl snd.
    split; apply in_or_app; right; vm_compute; tauto.
  - intros out. rewrite generate_test_summary_value.
    change (passed validate_level2_operations) with true.
    now rewrite andb_true_r.
  - intros returncode. rewrite run_value, generate_test_summary_value.
    change (passed validate_level2_operations) with true.
    destruct (Z.eqb_spec returncode 0) as [E|E];
      destruct (passed (validate_zdotu np)), (passed (validate_zdotc np)),
               (passed (validate_norms np)), (passed (validate_asum np));
      simpl; (split; [intros H | intros [[H|[H|[H|H]]]|H]]);
      try discriminate; try contradiction; try tauto;
      try (exfalso; apply H; reflexivity).
Qed.

End ValidateFacts.

(** ** The reference computations *)

Module OracleFacts.

(** C8, as stated, fails: on [x = [1+0i, 0+1i]] and [y = [0+3i, 0+4i]]
    the unconjugated dot product is [-4+3i], which is not [-11+0i]. *)
Lemma end_to_end_dot_as_stated :
  Np.dot numpy_fixed [Complex 1 0; Complex 0 1] [Complex 0 3; Complex 0 4]
    = Complex (-4) 3 /\
  Np.dot numpy_fixed [Complex 1 0; Complex 0 1] [Complex 0 3; Complex 0 4]
    <> Complex (-11) 0.
Proof.
  split; [reflexivity |].
  intros H. apply (f_equal (fun z => (imag z =? 0)%float)) in H.
  vm_compute in H. discriminate H.
Qed.

(** C8 (amended): the scenario of the harness whose expected value is
    [-11+0i] has [x = [0+1i, 0+2i]] and [y = [0+3i, 0+4i]], and the
    library's dot product of these two is [-11+0i]; on
    [x = [1+0i, 0+1i]] it is [-4+3i]. *)
Theorem end_to_end_dot (rng : Type) (seed : Z -> rng)
    (standard_normal : rng -> float * rng) (hypot : float -> float -> float) :
  let np := Np64.numpy64 rng seed standard_normal hypot in
  In ([Complex 0 1; Complex 0 2], [Complex 0 3; Complex 0 4], Complex (-11) 0)
     Validate.zdotu_cases /\
  Np.dot np [Complex 0 1; Complex 0 2] [Complex 0 3; Complex 0 4]
    = Complex (-11) 0 /\
  Np.dot np [Complex 1 0; Complex 0 1] [Complex 0 3; Complex 0 4]
    = Complex (-4) 3.
Proof.
  intros np. split; [| split].
  - unfold Validate.zdotu_cases. simpl. auto.
  - reflexivity.
  - reflexivity.
Qed.

End OracleFacts.

(** ** The fixture generator *)

Module GenerateFacts.

Import Generate.

Local Open Scope string_scope.

Section Steps.

Variable np : Np.api.

Lemma bind_inr {A B : Type} (c : gen np A) (k : A -> gen np B)
    (st : state np) r :
  bind np c k st = inr r ->
  exists a st1, c st = inr (a, st1) /\ k a st1 = inr r.
Proof.
  unfold bind. destruct (c st) as [e|[a st1]]; [discriminate |].
  intros H. now exists a, st1.
Qed.

Lemma agree_refl (st : state np) : agree np st st.
Proof. now repeat split. Qed.

Lemma blind_ret {A : Type} (a : A) : blind np (ret np a).
Proof. intros st1 st2 H. simpl. now split. Qed.

Lemma blind_bind {A B : Type} (c : gen np A) (k : A -> gen np B) :
  blind np c -> (forall a, blind np (k a)) -> blind np (bind np c k).
Proof.
  intros Hc Hk st1 st2 H. unfold bind.
  specialize (Hc st1 st2 H). unfold same_result in Hc.
  destruct (c st1) as [e1|[a1 s1]], (c st2) as [e2|[a2 s2]]; try contradiction.
  - exact Hc.
  - destruct Hc as [-> Hs]. now apply Hk.
Qed.

Lemma blind_lift {A : Type} (r : exn + A) : blind np (lift np r).
Proof. intros st1 st2 H. unfold lift. destruct r; simpl; auto. Qed.

Lemma blind_print (l : line) : blind np (print np l).
Proof.
  intros st1 st2 (Hd & Hr & Ho). unfold print. simpl.
  split; [reflexivity |]. repeat split; simpl; congruence.
Qed.

Lemma blind_set_test_data k v : blind np (set_test_data np k v).
Proof.
  intros st1 st2 (Hd & Hr & Ho). unfold set_test_data. simpl.
  split; [reflexivity |]. repeat split; simpl; congruence.
Qed.

Lemma blind_standard_normal : blind np (standard_normal np).
Proof.
  intros st1 st2 (Hd & Hr & Ho). unfold standard_normal. rewrite Hr.
  destruct (Np.standard_normal np (rng np st2)) as [x g]. simpl.
  split; [reflexivity |]. repeat split; simpl; congruence.
Qed.

Lemma blind_for_each {A B : Type} (xs : list A) (body : A -> gen np B) :
  (forall x, blind np (body x)) -> blind np (for_each np xs body).
Proof.
  intros Hb. induction xs as [|x xs IH]; simpl.
  - apply blind_ret.
  - apply blind_bind; [apply Hb | intros b].
    apply blind_bind; [apply IH | intros bs]. apply blind_ret.
Qed.

Lemma blind_randn n : blind np (randn np n).
Proof.
  induction n as [|n IH]; simpl.
  - apply blind_ret.
  - apply blind_bind; [apply blind_standard_normal | intros x].
    apply blind_bind; [apply IH | intros xs]. apply blind_ret.
Qed.

Lemma blind_randn2 m n : blind np (randn2 np m n).
Proof.
  induction m as [|m IH]; simpl.
  - apply blind_ret.
  - apply blind_bind; [apply blind_randn | intros x].
    apply blind_bind; [apply IH | intros xs]. apply blind_ret.
Qed.

Ltac blind :=
  repeat first
    [ apply blind_ret | apply blind_print | apply blind_lift
    | apply blind_set_test_data | apply blind_standard_normal
    | apply blind_randn | apply blind_randn2
    | apply blind_bind; [| intro]
    | apply blind_for_each; intro
    | match goal with
      | |- blind _ (let '(_, _) := ?p in _) => destruct p
      | |- blind _ (if ?b then _ else _) => destruct b
      end ].

Lemma blind_random_vector n : blind np (random_vector np n).
Proof. unfold random_vector. blind. Qed.

Lemma blind_random_matrix m n : blind np (random_matrix np m n).
Proof. unfold random_matrix. blind. Qed.

Lemma blind_level1_test_case n : blind np (level1_test_case np n).
Proof.
  unfold level1_test_case.
  apply blind_bind; [apply blind_random_vector | intro].
  apply blind_bind; [apply blind_random_vector | intro].
  apply blind_ret.
Qed.

Lemma blind_level2_test_case shape : blind np (level2_test_case np shape).
Proof.
  unfold level2_test_case. destruct shape as [m n].
  apply blind_bind; [apply blind_random_matrix | intro].
  apply blind_bind; [apply blind_random_vector | intro].
  apply blind_bind; [apply blind_random_vector | intro].
  destruct (m =? n)%nat; [| apply blind_ret].
  apply blind_bind; [apply blind_random_vector | intro].
  apply blind_bind; [apply blind_lift | intro].
  apply blind_ret.
Qed.

Lemma blind_rank1 : blind np (generate_rank1_update_tests np).
Proof.
  unfold generate_rank1_update_tests.
  apply blind_bind; [apply blind_random_matrix | intro].
  apply blind_bind; [apply blind_random_vector | intro].
  apply blind_bind; [apply blind_random_vector | intro].
  apply blind_ret.
Qed.

Lemma blind_level3_test_case shape : blind np (level3_test_case np shape).
Proof.
  unfold level3_test_case. destruct shape as [[m k] n].
  apply blind_bind; [apply blind_random_matrix | intro].
  apply blind_bind; [apply blind_random_matrix | intro].
  apply blind_bind; [apply blind_random_matrix | intro].
  destruct ((m =? n) && (n =? k))%nat; apply blind_ret.
Qed.

Lemma blind_generate_level1_tests : blind np (generate_level1_tests np).
Proof.
  unfold generate_level1_tests.
  apply blind_bind; [apply blind_print | intro].
  apply blind_bind; [apply blind_for_each, blind_level1_test_case | intro].
  apply blind_set_test_data.
Qed.

Lemma blind_generate_level2_tests : blind np (generate_level2_tests np).
Proof.
  unfold generate_level2_tests.
  apply blind_bind; [apply blind_print | intro].
  apply blind_bind; [apply blind_for_each, blind_level2_test_case | intro].
  apply blind_bind; [apply blind_rank1 | intro].
  apply blind_set_test_data.
Qed.

Lemma blind_generate_level3_tests : blind np (generate_level3_tests np).
Proof.
  unfold generate_level3_tests.
  apply blind_bind; [apply blind_print | intro].
  apply blind_bind; [apply blind_for_each, blind_level3_test_case | intro].
  apply blind_set_test_data.
Qed.

(** *** What [generate_level2_tests] stores *)

Lemma for_each_In {A B : Type} (xs : list A) (body : A -> gen np B) :
  forall st bs st',
    for_each np xs body st = inr (bs, st') ->
    forall b, In b bs -> exists x s1 s2, In x xs /\ body x s1 = inr (b, s2).
Proof.
  induction xs as [|x xs IH]; simpl; intros st bs st' H b Hb.
  - injection H as <- _. contradiction.
  - apply bind_inr in H as (b0 & st1 & H0 & H).
    apply bind_inr in H as (bs0 & st2 & H1 & H).
    injection H as <- _. destruct Hb as [<-|Hb].
    + exists x, st, st1. auto.
    + destruct (IH _ _ _ H1 b Hb) as (x' & s1 & s2 & Hx & Hs).
      exists x', s1, s2. auto.
Qed.

Lemma dict_get_set d k v : dict_get (dict_set d k v) k = Some v.
Proof.
  induction d as [|[k' v'] d IH]; simpl.
  - now rewrite String.eqb_refl.
  - destruct (String.eqb k k') eqn:E; simpl; rewrite ?E, ?String.eqb_refl; auto.
Qed.

(** The fixture [U] of a test case is [np.triu] of its base matrix. *)
Lemma level2_test_case_U shape s1 s2 tc u :
  level2_test_case np shape s1 = inr (VDict tc, s2) ->
  dict_get tc "U" = Some u ->
  exists A, u = matrix_to_list (Np.triu np A).
Proof.
  destruct shape as [m n]. unfold level2_test_case. intros H Hu.
  apply bind_inr in H as (A & st1 & _ & H).
  apply bind_inr in H as (x & st2 & _ & H).
  apply bind_inr in H as (y & st3 & _ & H).
  destruct (m =? n)%nat.
  - apply bind_inr in H as (b & st4 & _ & H).
    apply bind_inr in H as (sol & st5 & _ & H).
    injection H as <- _. simpl in Hu. injection Hu as <-. now exists A.
  - injection H as <- _. simpl in Hu. discriminate Hu.
Qed.

Lemma rank1_has_no_U st tests st' tc :
  generate_rank1_update_tests np st = inr (tests, st') ->
  In (VDict tc) tests -> dict_get tc "U" = None.
Proof.
  unfold generate_rank1_update_tests. intros H Hin.
  apply bind_inr in H as (A & st1 & _ & H).
  apply bind_inr in H as (x & st2 & _ & H).
  apply bind_inr in H as (y & st3 & _ & H).
  injection H as <- _. destruct Hin as [E|[]]. injection E as <-. reflexivity.
Qed.

Lemma generate_level2_tests_U st st' tests tc u :
  generate_level2_tests np st = inr (tt, st') ->
  dict_get (test_data np st') "level2" = Some (VList tests) ->
  In (VDict tc) tests ->
  dict_get tc "U" = Some u ->
  exists A, u = matrix_to_list (Np.triu np A).
Proof.
  unfold generate_level2_tests. intros H Hget Hin Hu.
  apply bind_inr in H as (u0 & st1 & _ & H).
  apply bind_inr in H as (l2 & st2 & Hl2 & H).
  apply bind_inr in H as (r1 & st3 & Hr1 & H).
  injection H as <-. simpl in Hget. rewrite dict_get_set in Hget.
  injection Hget as <-. apply in_app_or in Hin as [Hin|Hin].
  - destruct (for_each_In _ _ _ _ _ Hl2 _ Hin) as (shape & s1 & s2 & _ & Hs).
    eapply level2_test_case_U; eauto.
  - rewrite (rank1_has_no_U _ _ _ _ Hr1 Hin) in Hu. discriminate Hu.
Qed.

Variable float_repr : float -> string.

Lemma blind_save_test_data filename :
  blind np (save_test_data np float_repr filename).
Proof.
  unfold save_test_data.
  apply blind_bind; [| intro; apply blind_print].
  intros st1 st2 (Hd & Hr & Ho). simpl.
  split; [reflexivity |]. repeat split; simpl; congruence.
Qed.

Lemma blind_generate_all_tests : blind np (generate_all_tests np float_repr).
Proof.
  unfold generate_all_tests.
  apply blind_bind; [apply blind_generate_level1_tests | intro].
  apply blind_bind; [apply blind_generate_level2_tests | intro].
  apply blind_bind; [apply blind_generate_level3_tests | intro].
  apply blind_save_test_data.
Qed.

Lemma file_content_set fs name content :
  file_content (dict_like_set fs name content) name = Some content.
Proof.
  induction fs as [|[n' c'] fs IH]; simpl.
  - now rewrite String.eqb_refl.
  - destruct (String.eqb name n') eqn:E; simpl; rewrite ?E, ?String.eqb_refl; auto.
Qed.

Lemma print_saved l st r :
  print np l st = inr r -> saved np float_repr st -> saved np float_repr (snd r).
Proof. unfold print. intros [= <-] H. exact H. Qed.

Lemma save_test_data_saved st r :
  save_test_data np float_repr "complex_blas_test_data.json" st = inr r ->
  saved np float_repr (snd r).
Proof.
  unfold save_test_data. intros H.
  apply bind_inr in H as (a & st1 & H1 & H2).
  injection H1 as _ <-.
  apply print_saved in H2; [exact H2 |].
  unfold saved. simpl. apply file_content_set.
Qed.

Lemma generate_all_tests_saved st r :
  generate_all_tests np float_repr st = inr r -> saved np float_repr (snd r).
Proof.
  unfold generate_all_tests. intros H.
  apply bind_inr in H as (a1 & st1 & _ & H).
  apply bind_inr in H as (a2 & st2 & _ & H).
  apply bind_inr in H as (a3 & st3 & _ & H).
  now apply save_test_data_saved in H.
Qed.

Lemma main_seeded_saved seed st r :
  main_seeded np float_repr seed st = inr r -> saved np float_repr (snd r).
Proof.
  unfold main_seeded. intros H.
  apply bind_inr in H as (a0 & st0 & _ & H).
  apply bind_inr in H as (a1 & st1 & H1 & H).
  apply generate_all_tests_saved in H1. simpl in H1.
  apply bind_inr in H as (a2 & st2 & H2 & H).
  apply print_saved in H2; [| exact H1]. simpl in H2.
  apply bind_inr in H as (a3 & st3 & H3 & H).
  apply print_saved in H3; [| exact H2]. simpl in H3.
  apply bind_inr in H as (a4 & st4 & H4 & H).
  apply print_saved in H4; [| exact H3]. simpl in H4.
  apply bind_inr in H as (a5 & st5 & H5 & H).
  apply print_saved in H5; [| exact H4]. simpl in H5.
  apply print_saved in H; [| exact H5]. exact H.
Qed.

(** After [__init__] nothing depends on the state the process started in,
    the files on disk apart. *)
Lemma main_seeded_same seed g1 g2 disk1 disk2 :
  same_result np
    (main_seeded np float_repr seed (State np [] g1 [] disk1))
    (main_seeded np float_repr seed (State np [] g2 [] disk2)).
Proof.
  unfold main_seeded.
  match goal with
  | |- same_result _ (bind _ _ ?k _) _ => assert (Hk : blind np (k tt))
  end.
  { apply blind_bind; [apply blind_generate_all_tests | intro].
    repeat (apply blind_bind; [apply blind_print | intro]).
    apply blind_print. }
  apply (Hk (State np [] (Np.random_seed np seed) [] disk1)
            (State np [] (Np.random_seed np seed) [] disk2)).
  now repeat split.
Qed.

End Steps.

(** *** [np.triu] *)

Lemma triu_row_lower (i : nat) (r : vec) :
  forall j0 j z,
    nth_error (Np.triu_row i j0 r) j = Some z -> (j0 + j < i)%nat -> z = c_zero.
Proof.
  induction r as [|a r IH]; intros j0 j z H Hlt.
  - destruct j; discriminate H.
  - destruct j as [|j]; simpl in H.
    + destruct (Nat.ltb_spec j0 i); [now injection H as <- | lia].
    + apply (IH (S j0) j z H). lia.
Qed.

Lemma triu_rows_lower (A : mat) :
  forall i0 i r j z,
    nth_error (Np.triu_rows i0 A) i = Some r ->
    nth_error r j = Some z -> (j < i0 + i)%nat -> z = c_zero.
Proof.
  induction A as [|a A IH]; intros i0 i r j z Hr Hz Hlt.
  - destruct i; discriminate Hr.
  - destruct i as [|i]; simpl in Hr.
    + injection Hr as <-. apply (triu_row_lower i0 a 0 j z Hz). lia.
    + apply (IH (S i0) i r j z Hr Hz). lia.
Qed.

Lemma entry_matrix_to_list (M : mat) i j e :
  entry (matrix_to_list M) i j = Some e ->
  exists r z, nth_error M i = Some r /\ nth_error r j = Some z
              /\ e = complex_to_dict z.
Proof.
  unfold entry, matrix_to_list. rewrite nth_error_map.
  destruct (nth_error M i) as [r|] eqn:Er; simpl; [| discriminate].
  rewrite nth_error_map.
  destruct (nth_error r j) as [z|] eqn:Ez; simpl; [| discriminate].
  intros [= <-]. now exists r, z.
Qed.

(** C6: in the test data that [generate_level2_tests] stores, every entry
    of a fixture [U] whose row index is greater than its column index is
    the dictionary of the zero complex value, [+0.0] in both parts. *)
Theorem upper_triangular_fixture_is_zero_below_diagonal (rng : Type)
    (seed : Z -> rng) (standard_normal : rng -> float * rng)
    (hypot : float -> float -> float) :
  let np := Np64.numpy64 rng seed standard_normal hypot in
  forall (st st' : state np) (tests : list value) (tc : dict) (u e : value)
         (i j : nat),
    generate_level2_tests np st = inr (tt, st') ->
    dict_get (test_data np st') "level2" = Some (VList tests) ->
    In (VDict tc) tests ->
    dict_get tc "U" = Some u ->
    entry u i j = Some e ->
    (j < i)%nat ->
    e = VDict [("real", VFloat 0); ("imag", VFloat 0)].
Proof.
  intros np st st' tests tc u e i j Hrun Hget Hin Hu He Hlt.
  destruct (generate_level2_tests_U np st st' tests tc u Hrun Hget Hin Hu)
    as (A & ->).
  apply entry_matrix_to_list in He as (r & z & Hr & Hz & ->).
  change (Np.triu np A) with (Np.triu_rows 0 A) in Hr.
  now rewrite (triu_rows_lower A 0 i r j z Hr Hz Hlt).
Qed.

(** The theorem at work: the first fixture [U] of a run on the counting
    generator, and its entry in row 1 and column 0. *)
Lemma upper_triangular_fixture_witness :
  exists st' tests tc u e,
    generate_level2_tests numpy_counting (State numpy_counting [] 1%Z [] [])
      = inr (tt, st') /\
    dict_get (test_data numpy_counting st') "level2" = Some (VList tests) /\
    In (VDict tc) tests /\
    dict_get tc "U" = Some u /\
    entry u 1 0 = Some e /\
    (0 < 1)%nat /\
    e = VDict [("real", VFloat 0); ("imag", VFloat 0)].
Proof.
  assert (H1 : exists st', generate_level2_tests numpy_counting
                 (State numpy_counting [] 1%Z [] []) = inr (tt, st')).
  { eexists. vm_compute. reflexivity. }
  destruct H1 as (st' & H1).
  assert (H2 : exists tests, dict_get (test_data numpy_counting st') "level2"
                 = Some (VList tests) /\ exists tc, hd_error tests = Some (VDict tc)
                 /\ exists u, dict_get tc "U" = Some u
                 /\ exists e, entry u 1 0 = Some e).
  { revert H1. vm_compute. intros [= <-]. simpl.
    eexists. split; [reflexivity |]. eexists. split; [reflexivity |].
    eexists. split; [reflexivity |]. eexists. reflexivity. }
  destruct H2 as (tests & H2 & tc & H3 & u & H4 & e & H5).
  assert (H3' : In (VDict tc) tests).
  { destruct tests as [|t tests]; [discriminate H3 |].
    injection H3 as ->. now left. }
  exists st', tests, tc, u, e.
  repeat split; try assumption; try lia.
  exact (upper_triangular_fixture_is_zero_below_diagonal Z (fun s => s)
           (fun g => (PrimFloat.of_uint63 (Uint63.of_Z g), (g + 1)%Z))
           (fun a b => PrimFloat.sqrt (a * a + b * b))
           (State numpy_counting [] 1%Z [] []) st' tests tc u e 1%nat 0%nat
           H1 H2 H3' H4 H5 (Nat.lt_0_succ 0)).
Defined.

(** C1: for every seed, two runs of the generator end alike, whatever
    the state of the random generator and the files on disk when each
    starts: with the same exception, or with the same test data and the
    same bytes in the fixture file, which are the serialized test data. *)
Theorem generation_is_deterministic (np : Np.api) (float_repr : float -> string)
    (seed : Z) (ambient1 ambient2 : Np.rng np)
    (disk1 disk2 : list (string * string)) :
  match run_seeded np float_repr seed ambient1 disk1,
        run_seeded np float_repr seed ambient2 disk2 with
  | inr (suite1, files1), inr (suite2, files2) =>
      suite1 = suite2 /\
      file_content files1 "complex_blas_test_data.json"
        = Some (json_dumps float_repr (VDict suite1)) /\
      file_content files2 "complex_blas_test_data.json"
        = file_content files1 "complex_blas_test_data.json"
  | inl e1, inl e2 => e1 = e2
  | _, _ => False
  end.
Proof.
  unfold run_seeded.
  assert (Hsame := main_seeded_same np float_repr seed ambient1 ambient2 disk1 disk2).
  assert (S1 := main_seeded_saved np float_repr seed (State np [] ambient1 [] disk1)).
  assert (S2 := main_seeded_saved np float_repr seed (State np [] ambient2 [] disk2)).
  unfold same_result in Hsame.
  destruct (main_seeded np float_repr seed (State np [] ambient1 [] disk1))
    as [e1|[u1 st1]],
    (main_seeded np float_repr seed (State np [] ambient2 [] disk2))
    as [e2|[u2 st2]]; try contradiction.
  - exact Hsame.
  - destruct Hsame as (_ & Hd & _ & _).
    specialize (S1 _ eq_refl). specialize (S2 _ eq_refl).
    unfold saved in S1, S2. simpl in S1, S2.
    split; [exact Hd |]. split; [exact S1 |].
    rewrite S1, S2. now rewrite Hd.
Qed.

End GenerateFacts.

(** ** The comparison of the harness *)

Module ToleranceFacts.

Import Validate.

Local Open Scope float_scope.

(** *** Binary64 facts *)

Lemma finite_cases (x : float) :
  isfinite x = true ->
  (exists s, Prim2SF x = S754_zero s)
  \/ (exists s m e, Prim2SF x = S754_finite s m e).
Proof.
  unfold isfinite, is_nan, is_infinity. rewrite !eqb_spec, abs_spec.
  destruct (Prim2SF x) as [s|s| |s m e]; simpl; try discriminate; eauto.
  destruct s; discriminate.
Qed.

Lemma zero_cases (a : float) : (a =? 0) = true -> a = 0 \/ a = (-0).
Proof.
  rewrite eqb_spec. intros H.
  assert (E : exists s, Prim2SF a = S754_zero s).
  { change (Prim2SF 0) with (S754_zero false) in H.
    destruct (Prim2SF a) as [s|s| |s m e]; try discriminate; eauto;
      destruct s; discriminate. }
  destruct E as [s E]. rewrite <- (SF2Prim_Prim2SF a), E.
  destruct s; [right | left]; reflexivity.
Qed.

(** With [rtol = 0] the bound of the comparison is [atol] itself. *)
Lemma tol_plus_zero (c : float) :
  isfinite c = true -> DEFAULT_TOL + 0 * c = DEFAULT_TOL.
Proof.
  intros H. apply Prim2SF_inj. rewrite add_spec, mul_spec.
  change (Prim2SF 0) with (S754_zero false).
  destruct (finite_cases c H) as [[s E]|(s & m & e & E)]; rewrite E; reflexivity.
Qed.

Lemma sub_diag_core (t : Z) : IntDef.Z.sub t t = 0%Z.
Proof. apply Z.sub_diag. Qed.

(** Two equal finite floats differ by a zero. *)
Lemma sub_eq_zero (x y : float) :
  isfinite y = true -> (x =? y) = true -> (x - y =? 0) = true.
Proof.
  intros Hy. rewrite !eqb_spec, sub_spec.
  change (Prim2SF 0) with (S754_zero false).
  destruct (finite_cases y Hy) as [[s E]|(s & m & e & E)]; rewrite E.
  - destruct (Prim2SF x) as [sx|sx| |sx mx ex]; simpl; try discriminate.
    + destruct sx, s; reflexivity.
    + destruct sx; discriminate.
    + destruct sx; discriminate.
  - destruct (Prim2SF x) as [sx|sx| |sx mx ex];
      try (destruct sx, s; discriminate); try discriminate.
    unfold SFeqb, SFcompare.
    destruct sx, s; try discriminate;
      destruct (Z.compare_spec ex e) as [->| |]; try discriminate;
      destruct (Pos.compare_cont Eq mx m) eqn:Em; try discriminate;
      apply Pos.compare_eq in Em; subst; intros _;
      unfold SF64sub, SFsub; rewrite Z.min_id; unfold shl_align;
      rewrite !sub_diag_core; reflexivity.
Qed.

Lemma abs_zero_within (a : float) :
  (a =? 0) = true -> (abs a <=? DEFAULT_TOL) = true.
Proof. intros H. destruct (zero_cases a H) as [->| ->]; reflexivity. Qed.

Lemma abs_finite (y : float) : isfinite y = true -> isfinite (abs y) = true.
Proof.
  intros H. unfold isfinite, is_nan, is_infinity. rewrite !eqb_spec, !abs_spec.
  destruct (finite_cases y H) as [[s E]|(s & m & e & E)]; rewrite E; simpl.
  - reflexivity.
  - unfold SFeqb, SFcompare. rewrite Z.compare_refl.
    assert (Pos.compare_cont Eq m m = Eq) as -> by apply Pos.compare_refl.
    reflexivity.
Qed.

(** The textbook modulus of two zeros is [+0.0]. *)
Lemma sqrt_modulus_of_zeros (a b : float) :
  (a =? 0) = true -> (b =? 0) = true -> sqrt (a * a + b * b) = 0.
Proof.
  intros Ha Hb.
  destruct (zero_cases a Ha) as [->| ->], (zero_cases b Hb) as [->| ->];
    reflexivity.
Qed.

(** *** [np.allclose(result, expected, rtol=0, atol=DEFAULT_TOL)] *)

Section Modulus.

Variable hypot : float -> float -> float.

(** C's [hypot] of two zeros is [+0.0]. *)
Hypothesis hypot_of_zeros :
  forall a b, (a =? 0) = true -> (b =? 0) = true -> hypot a b = 0.

Lemma isclose_complex_absolute (result expected : complex) :
  c_isfinite expected = true ->
  isfinite (Np.absolute128 hypot expected) = true ->
  Np.isclose_complex hypot result expected 0 DEFAULT_TOL
    = (Np.absolute128 hypot (c_sub result expected) <=? DEFAULT_TOL).
Proof.
  intros Hfin Habs. unfold Np.isclose_complex.
  rewrite (tol_plus_zero _ Habs), Hfin, andb_true_r.
  destruct (c_eqb result expected) eqn:E; [| now rewrite orb_false_r].
  rewrite orb_true_r. symmetry.
  unfold c_eqb in E. apply andb_prop in E as [Er Ei].
  unfold c_isfinite in Hfin. apply andb_prop in Hfin as [Fr Fi].
  unfold Np.absolute128, c_sub. cbn [real imag].
  rewrite (hypot_of_zeros _ _ (sub_eq_zero _ _ Fr Er) (sub_eq_zero _ _ Fi Ei)).
  reflexivity.
Qed.

End Modulus.

Lemma isclose_real_absolute (result expected : float) :
  isfinite expected = true ->
  Np.isclose_real result expected 0 DEFAULT_TOL
    = (abs (result - expected) <=? DEFAULT_TOL).
Proof.
  intros Hfin. unfold Np.isclose_real.
  rewrite (tol_plus_zero _ (abs_finite _ Hfin)), Hfin, andb_true_r.
  destruct (result =? expected) eqn:E; [| now rewrite orb_false_r].
  rewrite orb_true_r. symmetry.
  apply abs_zero_within, sub_eq_zero; assumption.
Qed.



End ToleranceFacts.

(** ** The triangular solve *)

Module SolveFacts.

Import LinAlg.

(** *** On any scalars: a zero pivot is detected *)

Section AnyScalars.

Variable C : Type.
Variables (zero : C) (add sub mul div : C -> C -> C).
Variable is_zero : C -> bool.

Local Abbreviation back_substitution :=
  (LinAlg.back_substitution C zero add sub mul div is_zero).
Local Abbreviation solve_upper :=
  (LinAlg.solve_upper C zero add sub mul div is_zero).

Lemma back_substitution_error rows : forall bs i e,
  back_substitution i rows bs = inl e -> e = LinAlgError "Singular matrix".
Proof.
  induction rows as [|r rows IH]; intros bs i e H; simpl in H.
  - discriminate H.
  - destruct bs as [|bi bs]; [discriminate H |].
    destruct (back_substitution (S i) rows bs) as [e'|xs] eqn:E.
    + injection H as <-. eapply IH, E.
    + destruct (is_zero (nth i r zero)); now inversion H.
Qed.

Lemma back_substitution_singular rows : forall bs i,
  List.length bs = List.length rows ->
  (exists k r, nth_error rows k = Some r
               /\ is_zero (nth (i + k) r zero) = true) ->
  back_substitution i rows bs = inl (LinAlgError "Singular matrix").
Proof.
  induction rows as [|r rows IH]; intros bs i Hlen (k & r' & Hk & Hz).
  - destruct k; discriminate Hk.
  - destruct bs as [|bi bs]; [discriminate Hlen |]. simpl.
    destruct k as [|k].
    + injection Hk as ->. rewrite Nat.add_0_r in Hz.
      destruct (back_substitution (S i) rows bs) as [e|xs] eqn:E.
      * now rewrite (back_substitution_error _ _ _ _ E).
      * now rewrite Hz.
    + rewrite IH; [reflexivity | now injection Hlen |].
      exists k, r'. split; [exact Hk |]. now rewrite Nat.add_succ_comm.
Qed.

Lemma solve_upper_singular n U b :
  system C n U b -> zero_pivot C zero is_zero n U ->
  solve_upper U b = inl (LinAlgError "Singular matrix").
Proof.
  intros (HU & Hb & _) (i & Hi & Hz). unfold LinAlg.solve_upper.
  apply back_substitution_singular; [congruence |].
  unfold entry_at in Hz.
  destruct (nth_error U i) as [r|] eqn:E.
  - exists i, r. split; [exact E |].
    now rewrite (nth_error_nth _ _ _ E) in Hz.
  - apply nth_error_None in E. lia.
Qed.

Lemma back_substitution_returns rows : forall bs i,
  List.length bs = List.length rows ->
  (forall k r, nth_error rows k = Some r ->
               is_zero (nth (i + k) r zero) = false) ->
  exists xs, back_substitution i rows bs = inr xs
             /\ List.length xs = List.length rows.
Proof.
  induction rows as [|r rows IH]; intros bs i Hlen Hd.
  - exists []. now split.
  - destruct bs as [|bi bs]; [discriminate Hlen |].
    destruct (IH bs (S i)) as (xs & Hxs & Hl).
    + now injection Hlen.
    + intros k r' Hk. rewrite Nat.add_succ_comm. apply (Hd (S k) r' Hk).
    + simpl. rewrite Hxs. specialize (Hd 0%nat r eq_refl).
      rewrite Nat.add_0_r in Hd. rewrite Hd.
      eexists. split; [reflexivity | simpl; congruence].
Qed.

Lemma solve_upper_returns n U b :
  system C n U b -> ~ zero_pivot C zero is_zero n U ->
  exists x, solve_upper U b = inr x /\ List.length x = n.
Proof.
  intros (HU & Hb & _) Hnz. unfold LinAlg.solve_upper.
  destruct (back_substitution_returns U b 0) as (x & Hx & Hl).
  - congruence.
  - intros k r Hk. simpl.
    destruct (is_zero (nth k r zero)) eqn:E; [| reflexivity].
    exfalso. apply Hnz. exists k. split.
    + rewrite <- HU. apply nth_error_Some. congruence.
    + unfold entry_at. now rewrite (nth_error_nth _ _ _ Hk).
  - exists x. split; [exact Hx | congruence].
Qed.

End AnyScalars.

(** *** In exact arithmetic: the solution satisfies the system *)

Section ExactArithmetic.

Variable C : Type.
Variables (zero one : C) (add mul sub : C -> C -> C) (opp : C -> C).
Variables (div : C -> C -> C) (inv : C -> C).
Variable is_zero : C -> bool.

Hypothesis scalars_field : field_theory zero one add mul sub opp div inv eq.
Hypothesis is_zero_spec : forall d, is_zero d = true <-> d = zero.

Add Field scalars : scalars_field.

Local Abbreviation dot_from := (LinAlg.dot_from C add mul).
Local Abbreviation matvec := (LinAlg.matvec C zero add mul).
Local Abbreviation back_substitution :=
  (LinAlg.back_substitution C zero add sub mul div is_zero).
Local Abbreviation solve_upper :=
  (LinAlg.solve_upper C zero add sub mul div is_zero).

Lemma dot_from_acc x : forall y acc,
  dot_from acc x y = add acc (dot_from zero x y).
Proof.
  induction x as [|a x IH]; intros y acc; simpl.
  - ring.
  - destruct y as [|b y]; [ring |].
    rewrite (IH y (add acc (mul a b))), (IH y (add zero (mul a b))). ring.
Qed.

(** The entries left of the diagonal contribute nothing. *)
Lemma dot_from_skip_zeros k : forall r x acc,
  (forall j, (j < k)%nat -> nth j r zero = zero) ->
  (k <= List.length r)%nat -> (k <= List.length x)%nat ->
  dot_from acc r x = dot_from acc (skipn k r) (skipn k x).
Proof.
  induction k as [|k IH]; intros r x acc Hz Hr Hx; [reflexivity |].
  destruct r as [|a r]; [simpl in Hr; lia |].
  destruct x as [|b x]; [simpl in Hx; lia |].
  simpl. assert (a = zero) as -> by (apply (Hz 0%nat); lia).
  replace (add acc (mul zero b)) with acc by ring.
  apply IH; simpl in *; try lia.
  intros j Hj. apply (Hz (S j)). lia.
Qed.

Lemma skipn_nth_cons (r : list C) i :
  (i < List.length r)%nat -> skipn i r = nth i r zero :: skipn (S i) r.
Proof.
  revert i. induction r as [|a r IH]; intros i Hi; [simpl in Hi; lia |].
  destruct i as [|i]; [reflexivity |].
  simpl. apply IH. simpl in Hi. lia.
Qed.

(** Back substitution on the rows from [i] on: each equation holds on the
    unknowns it reads. *)
Lemma back_substitution_solves rows : forall bs i,
  List.length bs = List.length rows ->
  (forall k r, nth_error rows k = Some r ->
               (i + k < List.length r)%nat
               /\ is_zero (nth (i + k) r zero) = false) ->
  exists xs,
    back_substitution i rows bs = inr xs
    /\ List.length xs = List.length rows
    /\ forall k r bk,
         nth_error rows k = Some r -> nth_error bs k = Some bk ->
         dot_from zero (skipn (i + k) r) (skipn k xs) = bk.
Proof.
  induction rows as [|r rows IH]; intros bs i Hlen Hd.
  - exists []. repeat split. intros k r bk Hk. destruct k; discriminate Hk.
  - destruct bs as [|bi bs]; [discriminate Hlen |].
    destruct (IH bs (S i)) as (xs & Hxs & Hl & Heq).
    + now injection Hlen.
    + intros k r' Hk. rewrite Nat.add_succ_comm. apply (Hd (S k) r' Hk).
    + destruct (Hd 0%nat r eq_refl) as [Hi Hnz]. rewrite Nat.add_0_r in Hi, Hnz.
      simpl. rewrite Hxs, Hnz. eexists. split; [reflexivity |].
      split; [simpl; congruence |].
      intros k r' bk Hk Hbk. destruct k as [|k].
      * injection Hk as <-. injection Hbk as <-. rewrite Nat.add_0_r.
        rewrite (skipn_nth_cons r i Hi). simpl.
        rewrite dot_from_acc.
        assert (Hne : nth i r zero <> zero).
        { intros E. apply is_zero_spec in E. congruence. }
        field. exact Hne.
      * rewrite Nat.add_succ_r. simpl skipn at 2. apply (Heq k r' bk Hk Hbk).
Qed.

Lemma map_eq_nth {A B : Type} (f : A -> B) (l : list A) (m : list B) :
  List.length l = List.length m ->
  (forall k a b, nth_error l k = Some a -> nth_error m k = Some b -> f a = b) ->
  map f l = m.
Proof.
  revert m. induction l as [|a l IH]; intros [|b m] Hlen H; try discriminate Hlen.
  - reflexivity.
  - simpl. f_equal.
    + apply (H 0%nat a b); reflexivity.
    + apply IH; [now injection Hlen |].
      intros k a' b' Ha Hb. apply (H (S k) a' b'); assumption.
Qed.

(** On a triangular system of [n] equations over a field, the solve fails
    with [LinAlgError] when a pivot is zero, and otherwise returns an [x]
    with [U x = b]. *)
Lemma solve_upper_exact (n : nat) (U : list (list C)) (b : list C) :
  system C n U b ->
  upper_triangular C zero U ->
  (zero_pivot C zero is_zero n U ->
   solve_upper U b = inl (LinAlgError "Singular matrix"))
  /\ (~ zero_pivot C zero is_zero n U ->
      exists x, solve_upper U b = inr x /\ matvec U x = b).
Proof.
  intros Hsys Hut. split.
  - now apply solve_upper_singular.
  - intros Hnz. destruct Hsys as (HU & Hb & Hrows).
    destruct (back_substitution_solves U b 0) as (x & Hx & Hl & Heq).
    + congruence.
    + intros k r Hk. simpl.
      assert (Hkn : (k < n)%nat).
      { rewrite <- HU. apply nth_error_Some. congruence. }
      split.
      * rewrite Forall_forall in Hrows.
        rewrite (Hrows r (nth_error_In _ _ Hk)). exact Hkn.
      * destruct (is_zero (nth k r zero)) eqn:E; [| reflexivity].
        exfalso. apply Hnz. exists k. split; [exact Hkn |].
        unfold entry_at. now rewrite (nth_error_nth _ _ _ Hk).
    + exists x. split; [exact Hx |]. unfold LinAlg.matvec.
      apply map_eq_nth; [congruence |].
      intros k r bk Hk Hbk.
      assert (Hkn : (k < n)%nat).
      { rewrite <- HU. apply nth_error_Some. congruence. }
      rewrite Forall_forall in Hrows.
      rewrite (dot_from_skip_zeros k r x zero).
      * apply (Heq k r bk Hk Hbk).
      * intros j Hj. specialize (Hut k j Hj). unfold entry_at in Hut.
        now rewrite (nth_error_nth _ _ _ Hk) in Hut.
      * rewrite (Hrows r (nth_error_In _ _ Hk)). lia.
      * rewrite Hl, HU. lia.
Qed.

End ExactArithmetic.

(** *** On [complex128] *)


Lemma rational_is_zero_spec (d : Qcanon.Qc) :
  rational_is_zero d = true <-> d = rational 0.
Proof.
  unfold rational_is_zero. split.
  - apply Qcanon.Qc_eq_bool_correct.
  - intros ->. unfold Qcanon.Qc_eq_bool.
    now destruct (Qcanon.Qc_eq_dec (rational 0) (rational 0)).
Qed.


End SolveFacts.

(** ** The complex-number decoder *)

Module DecoderFacts.

Import PyStr Validate.

Local Open Scope N_scope.

(** *** The backtracking search *)

Lemma repeat_greedy_sound (k : str -> option (list str)) (c : N -> bool) :
  forall s ms,
    repeat_greedy k c s = Some ms ->
    exists g ms' r, ms = g :: ms' /\ Forall (fun a => c a = true) g
                    /\ s = g ++ r /\ k r = Some ms'.
Proof.
  induction s as [|a s IH]; intros ms H; simpl in H.
  - destruct (k []) as [ms'|] eqn:E; [| discriminate H].
    injection H as <-. exists [], ms', []. auto.
  - assert (Stop : option_map (cons []) (k (a :: s)) = Some ms ->
                   exists g ms' r, ms = g :: ms'
                     /\ Forall (fun a => c a = true) g
                     /\ a :: s = g ++ r /\ k r = Some ms').
    { destruct (k (a :: s)) as [ms'|] eqn:E; [| discriminate].
      intros [= <-]. exists [], ms', (a :: s). auto. }
    destruct (c a) eqn:Ca; [| now apply Stop].
    destruct (repeat_greedy k c s) as [[|m ms1]|] eqn:E; try now apply Stop.
    injection H as <-.
    destruct (IH _ eq_refl) as (g & ms' & r & Hm & Hg & Hs & Hk).
    injection Hm as -> ->.
    exists (a :: g), ms', r. repeat split; auto. now rewrite Hs.
Qed.

(** A match splits a prefix of the text among the items of the pattern. *)
Lemma match_items_sound (p : list item) :
  forall s ms,
    match_items p s = Some ms ->
    Forall2 takes p ms /\ exists r, s = List.concat ms ++ r.
Proof.
  induction p as [|[q c] p IH]; intros s ms H.
  - injection H as <-. split; [constructor | now exists s].
  - destruct q; simpl in H.
    + (* One *)
      destruct s as [|a s]; [discriminate H |].
      destruct (c a) eqn:Ca; [| discriminate H].
      destruct (match_items p s) as [ms'|] eqn:E; [| discriminate H].
      injection H as <-. destruct (IH _ _ E) as (F & r & ->).
      split; [| now exists r].
      constructor; [| exact F]. split; [| reflexivity]. now repeat constructor.
    + (* Opt *)
      assert (Skip : option_map (cons []) (match_items p s) = Some ms ->
                     Forall2 takes ((Opt, c) :: p) ms
                     /\ exists r, s = List.concat ms ++ r).
      { destruct (match_items p s) as [ms'|] eqn:E; [| discriminate].
        intros [= <-]. destruct (IH _ _ E) as (F & r & ->).
        split; [| now exists r].
        constructor; [| exact F]. split; [constructor | simpl; lia]. }
      destruct s as [|a s]; [now apply Skip |].
      destruct (c a) eqn:Ca; [| now apply Skip].
      destruct (match_items p s) as [ms'|] eqn:E; [| now apply Skip].
      injection H as <-. destruct (IH _ _ E) as (F & r & ->).
      split; [| now exists r].
      constructor; [| exact F]. split; [| simpl; lia]. now repeat constructor.
    + (* Star *)
      destruct (repeat_greedy_sound _ _ _ _ H) as (g & ms' & r & -> & Hg & -> & Hk).
      destruct (IH _ _ Hk) as (F & r' & ->).
      split; [| exists r'; simpl; now rewrite app_assoc].
      constructor; [| exact F]. now split.
    + (* Plus *)
      destruct s as [|a s]; [discriminate H |].
      destruct (c a) eqn:Ca; [| discriminate H].
      destruct (repeat_greedy (match_items p) c s) as [[|m ms1]|] eqn:E;
        try discriminate H.
      injection H as <-.
      destruct (repeat_greedy_sound _ _ _ _ E) as (g & ms' & r & Hm & Hg & -> & Hk).
      injection Hm as -> ->.
      destruct (IH _ _ Hk) as (F & r' & ->).
      split; [| exists r'; simpl; now rewrite app_assoc].
      constructor; [| exact F]. split; [now constructor | discriminate].
Qed.

(** The search is complete: it finds a match whenever the text can be
    split among the items. *)
Lemma repeat_greedy_complete (k : str -> option (list str)) (c : N -> bool) g :
  forall s,
    Forall (fun a => c a = true) g -> k s <> None ->
    repeat_greedy k c (g ++ s) <> None.
Proof.
  assert (Stop : forall s, k s <> None -> repeat_greedy k c s <> None).
  { intros s Hk. destruct (k s) as [ms|] eqn:E; [| contradiction].
    destruct s as [|a s]; simpl; rewrite ?E; [discriminate |].
    destruct (c a); [| discriminate].
    destruct (repeat_greedy k c s) as [[|m ms1]|]; discriminate. }
  induction g as [|a g IH]; intros s Hg Hk; [now apply Stop |].
  inversion Hg as [|? ? Ha Hg']; subst. simpl. rewrite Ha.
  destruct (repeat_greedy k c (g ++ s)) as [ms|] eqn:E;
    [| now destruct (IH s Hg' Hk)].
  destruct (repeat_greedy_sound _ _ _ _ E) as (g0 & ms' & r & -> & _).
  discriminate.
Qed.

Lemma match_items_complete (p : list item) : forall ms r,
  Forall2 takes p ms -> match_items p (List.concat ms ++ r) <> None.
Proof.
  induction p as [|[q c] p IH]; intros ms r F.
  - discriminate.
  - inversion F as [|? g ? ms' [Hg Hq] F']; subst. cbn [fst snd] in *.
    specialize (IH ms' r F'). cbn [List.concat]. rewrite <- app_assoc.
    destruct (match_items p (List.concat ms' ++ r)) as [m0|] eqn:E;
      [clear IH | contradiction].
    destruct q; cbn [match_items].
    + (* One *)
      destruct g as [|a [|? ?]]; try discriminate Hq.
      inversion Hg as [|? ? Ha _]; subst. cbn [app]. rewrite Ha, E. discriminate.
    + (* Opt *)
      destruct g as [|a [|? ?]]; [| | simpl in Hq; lia].
      * cbn [app]. rewrite E.
        destruct (List.concat ms' ++ r) as [|a t]; [discriminate |].
        destruct (c a); [| discriminate].
        destruct (match_items p t); discriminate.
      * inversion Hg as [|? ? Ha _]; subst. cbn [app]. rewrite Ha, E. discriminate.
    + (* Star *)
      apply repeat_greedy_complete; [exact Hg | now rewrite E].
    + (* Plus *)
      destruct g as [|a g]; [contradiction |].
      inversion Hg as [|? ? Ha Hg']; subst. cbn [app]. rewrite Ha.
      destruct (repeat_greedy (match_items p) c (g ++ List.concat ms' ++ r))
        as [ms|] eqn:G.
      * destruct (repeat_greedy_sound _ _ _ _ G) as (g0 & ms1 & r1 & -> & _).
        discriminate.
      * exfalso. revert G. apply repeat_greedy_complete; [exact Hg' |].
        now rewrite E.
Qed.

(** A greedy repetition takes the whole run when what follows the run
    matches the rest of the pattern. *)
Lemma repeat_greedy_run (k : str -> option (list str)) (c : N -> bool)
    (g s : str) (ms : list str) :
  Forall (fun a => c a = true) g -> stops c s -> k s = Some ms ->
  repeat_greedy k c (g ++ s) = Some (g :: ms).
Proof.
  intros Hg Hs Hk. induction Hg as [|a g Ha Hg IH]; simpl.
  - destruct s as [|b s]; simpl in *; [now rewrite Hk |].
    rewrite Hs. now rewrite Hk.
  - now rewrite Ha, IH.
Qed.

Lemma match_one_take p c a s ms :
  c a = true -> match_items p s = Some ms ->
  match_items ((One, c) :: p) (a :: s) = Some ([a] :: ms).
Proof. intros Ha Hm. simpl. now rewrite Ha, Hm. Qed.

Lemma match_opt_take p c a s ms :
  c a = true -> match_items p s = Some ms ->
  match_items ((Opt, c) :: p) (a :: s) = Some ([a] :: ms).
Proof. intros Ha Hm. simpl. now rewrite Ha, Hm. Qed.

Lemma match_opt_skip p c s ms :
  stops c s -> match_items p s = Some ms ->
  match_items ((Opt, c) :: p) s = Some ([] :: ms).
Proof.
  intros Hs Hm. destruct s as [|a s]; simpl in *; [now rewrite Hm |].
  now rewrite Hs, Hm.
Qed.

Lemma match_star_run p c g s ms :
  Forall (fun a => c a = true) g -> stops c s -> match_items p s = Some ms ->
  match_items ((Star, c) :: p) (g ++ s) = Some (g :: ms).
Proof. intros. simpl. now apply repeat_greedy_run. Qed.

Lemma match_plus_run p c g s ms :
  g <> [] -> Forall (fun a => c a = true) g -> stops c s ->
  match_items p s = Some ms ->
  match_items ((Plus, c) :: p) (g ++ s) = Some (g :: ms).
Proof.
  intros Hne Hg Hs Hm. destruct g as [|a g]; [contradiction |].
  inversion Hg as [|? ? Ha Hg']; subst. simpl. rewrite Ha.
  now rewrite (repeat_greedy_run _ c g s ms Hg' Hs Hm).
Qed.

(** *** Characters *)

Lemma digit_cases c :
  is_digit c = true ->
  c = 48 \/ c = 49 \/ c = 50 \/ c = 51 \/ c = 52
  \/ c = 53 \/ c = 54 \/ c = 55 \/ c = 56 \/ c = 57.
Proof.
  unfold is_digit. rewrite andb_true_iff, !N.leb_le. lia.
Qed.

Lemma sign_cases c : is_sign c = true -> c = 43 \/ c = 45.
Proof. unfold is_sign. rewrite orb_true_iff, !N.eqb_eq. tauto. Qed.

Ltac digit_cases H :=
  let E := fresh in
  destruct (digit_cases _ H) as [E|[E|[E|[E|[E|[E|[E|[E|[E|E]]]]]]]]];
  rewrite E in *.

Section Tables.

Variable unicode_isspace : N -> bool.
Variable unicode_decimal : N -> option digit.

Local Abbreviation isspace := (PyStr.isspace unicode_isspace).
Local Abbreviation isdecimal := (PyStr.isdecimal unicode_decimal).
Local Abbreviation strip := (PyStr.strip unicode_isspace).
Local Abbreviation to_ascii := (PyStr.to_ascii unicode_isspace unicode_decimal).
Local Abbreviation float := (PyStr.float_of_str unicode_isspace unicode_decimal).
Local Abbreviation pattern := (complex_pattern unicode_isspace unicode_decimal).
Local Abbreviation parse_complex :=
  (Validate.parse_complex unicode_isspace unicode_decimal).

Lemma digit_isdecimal c : is_digit c = true -> isdecimal c = true.
Proof. intros H. digit_cases H; reflexivity. Qed.

Lemma digit_not_space c : is_digit c = true -> isspace c = false.
Proof. intros H. digit_cases H; reflexivity. Qed.

Lemma all_digits_decimal ds :
  all_digits ds -> Forall (fun a => isdecimal a = true) ds.
Proof. apply Forall_impl. intros a. apply digit_isdecimal. Qed.

Lemma blanks_space ws : blanks ws -> Forall (fun a => isspace a = true) ws.
Proof. apply Forall_impl. now intros a ->. Qed.

(** A class that holds neither the blank nor [x] does not start a run of
    blanks followed by [x]. *)
Lemma stops_blanks (c : N -> bool) ws x s :
  blanks ws -> c 32 = false -> c x = false -> stops c (ws ++ x :: s).
Proof.
  intros Hws H32 Hx. destruct Hws as [|a ws Ha _]; simpl; [exact Hx |].
  now rewrite Ha.
Qed.

(** *** The pattern on a text of the affine form *)

(** The three items of a numeral take it whole. *)
Lemma match_numeral p t s ms :
  numeral t -> stops isdecimal s -> stops is_dot s ->
  match_items p s = Some ms ->
  exists g1 g2 g3,
    match_items ((Plus, isdecimal) :: (Opt, is_dot) :: (Star, isdecimal) :: p)
      (t ++ s) = Some (g1 :: g2 :: g3 :: ms)
    /\ g1 ++ g2 ++ g3 = t.
Proof.
  intros Ht Hd Hp Hm. destruct Ht as [ip Hne Hip|ip fp Hne Hip Hfp].
  - exists ip, [], []. split; [| now rewrite app_nil_r].
    apply match_plus_run; auto using all_digits_decimal.
    apply match_opt_skip; [exact Hp |].
    now apply (match_star_run p isdecimal [] s ms).
  - exists ip, [46], fp. split; [| reflexivity].
    rewrite <- app_assoc. apply match_plus_run; auto using all_digits_decimal.
    + reflexivity.
    + apply (match_opt_take _ is_dot 46 (fp ++ s)); [reflexivity |].
      apply match_star_run; auto using all_digits_decimal.
Qed.

Lemma numeral_head t :
  numeral t -> exists a t', t = a :: t' /\ is_digit a = true.
Proof.
  intros [ip Hne Hip|ip fp Hne Hip Hfp];
    (destruct ip as [|a ip]; [contradiction |]);
    inversion Hip; subst; simpl; eauto.
Qed.

Lemma digit_not_sign c : is_digit c = true -> is_sign c = false.
Proof. intros H. digit_cases H; reflexivity. Qed.

Lemma sign_not_space c : is_sign c = true -> isspace c = false.
Proof. intros H. destruct (sign_cases c H) as [-> | ->]; reflexivity. Qed.

Lemma sign_not_decimal c : is_sign c = true -> isdecimal c = false.
Proof. intros H. destruct (sign_cases c H) as [-> | ->]; reflexivity. Qed.

Lemma sign_not_dot c : is_sign c = true -> is_dot c = false.
Proof. intros H. destruct (sign_cases c H) as [-> | ->]; reflexivity. Qed.

(** The pattern on [<re> <sign> <im> i]: its groups are [<re>], the sign
    and [<im>]. *)
Lemma match_affine re sgn im ws1 ws2 ws3 post :
  signed_numeral re -> is_sign sgn = true -> numeral im ->
  blanks ws1 -> blanks ws2 -> blanks ws3 ->
  exists m,
    match_items pattern (re ++ ws1 ++ sgn :: ws2 ++ im ++ ws3 ++ 105 :: post)
      = Some m
    /\ groups m = (re, [sgn], im).
Proof.
  intros Hre Hsgn Him H1 H2 H3.
  (* from the imaginary unit backwards *)
  assert (M11 : match_items [(One, imaginary_unit)] (105 :: post) = Some [[105]]).
  { now apply match_one_take. }
  assert (M10 : match_items [(Star, isspace); (One, imaginary_unit)]
                  (ws3 ++ 105 :: post) = Some [ws3; [105]]).
  { apply match_star_run; auto using blanks_space. reflexivity. }
  destruct (match_numeral [(Star, isspace); (One, imaginary_unit)] im
              (ws3 ++ 105 :: post) [ws3; [105]] Him)
    as (h1 & h2 & h3 & M7 & Eim);
    [now apply stops_blanks | now apply stops_blanks | exact M10 |].
  assert (M6 : match_items
                 ((Star, isspace) :: (Plus, isdecimal) :: (Opt, is_dot)
                  :: (Star, isdecimal) :: [(Star, isspace); (One, imaginary_unit)])
                 (ws2 ++ im ++ ws3 ++ 105 :: post)
               = Some [ws2; h1; h2; h3; ws3; [105]]).
  { apply match_star_run; auto using blanks_space.
    destruct (numeral_head im Him) as (a & t' & -> & Ha). simpl.
    now apply digit_not_space. }
  assert (M5 := match_one_take _ is_sign sgn _ _ Hsgn M6).
  assert (M4 := match_star_run _ isspace ws1 (sgn :: _) _ (blanks_space _ H1)
                  (sign_not_space _ Hsgn) M5).
  assert (Sd : stops isdecimal (ws1 ++ sgn :: ws2 ++ im ++ ws3 ++ 105 :: post)).
  { apply stops_blanks; auto using sign_not_decimal. }
  assert (Sp : stops is_dot (ws1 ++ sgn :: ws2 ++ im ++ ws3 ++ 105 :: post)).
  { apply stops_blanks; auto using sign_not_dot. }
  destruct Hre as [t Ht|c t Hc Ht].
  - destruct (match_numeral _ t _ _ Ht Sd Sp M4) as (g1 & g2 & g3 & M1 & Et).
    eexists. split.
    + unfold complex_pattern. apply match_opt_skip; [| exact M1].
      destruct (numeral_head t Ht) as (a & t' & -> & Ha). simpl.
      now apply digit_not_sign.
    + simpl. now rewrite Et, Eim.
  - destruct (match_numeral _ t _ _ Ht Sd Sp M4) as (g1 & g2 & g3 & M1 & Et).
    eexists. split.
    + unfold complex_pattern.
      apply (match_opt_take _ is_sign c (t ++ _)); [exact Hc | exact M1].
    + simpl. now rewrite Et, Eim.
Qed.

(** *** [strip] on a text with blanks at both ends *)

Lemma lstrip_blanks pre x : blanks pre -> lstrip unicode_isspace (pre ++ x) = lstrip unicode_isspace x.
Proof. induction 1 as [|a pre -> _ IH]; [reflexivity | exact IH]. Qed.

Lemma lstrip_stops x : stops isspace x -> lstrip unicode_isspace x = x.
Proof. destruct x as [|a x]; simpl; [reflexivity | now intros ->]. Qed.

Lemma strip_blanks pre a core z post :
  blanks pre -> blanks post -> isspace a = false -> isspace z = false ->
  strip (pre ++ (a :: core ++ [z]) ++ post) = a :: core ++ [z].
Proof.
  intros Hpre Hpost Ha Hz. unfold PyStr.strip, rstrip.
  rewrite lstrip_blanks by exact Hpre.
  rewrite (lstrip_stops ((a :: core ++ [z]) ++ post)) by exact Ha.
  rewrite rev_app_distr, lstrip_blanks by now apply Forall_rev.
  change (a :: core ++ [z]) with ((a :: core) ++ [z]).
  rewrite rev_unit, lstrip_stops by exact Hz.
  now rewrite <- rev_unit, rev_involutive.
Qed.

(** *** [float] on a numeral *)

Lemma plain_to_ascii c : plain c -> to_ascii c = c.
Proof.
  intros [H|[->|H]]; [digit_cases H | | destruct (sign_cases c H) as [-> | ->]];
    reflexivity.
Qed.

Lemma plain_not_underscore c : plain c -> (95 =? c) = false.
Proof.
  intros [H|[->|H]]; [digit_cases H | | destruct (sign_cases c H) as [-> | ->]];
    reflexivity.
Qed.

Lemma plain_not_ISSPACE c : plain c -> Py_ISSPACE c = false.
Proof.
  intros [H|[->|H]]; [digit_cases H | | destruct (sign_cases c H) as [-> | ->]];
    reflexivity.
Qed.

Lemma numeral_plain t : numeral t -> Forall plain t.
Proof.
  intros [ip _ Hip|ip fp _ Hip Hfp].
  - eapply Forall_impl; [| exact Hip]. intros a Ha. now left.
  - apply Forall_app. split; [| constructor; [right; now left |]];
      (eapply Forall_impl; [| eassumption]); intros a Ha; now left.
Qed.

Lemma signed_numeral_plain r : signed_numeral r -> Forall plain r.
Proof.
  intros [t Ht|c t Hc Ht]; [now apply numeral_plain |].
  constructor; [right; now right | now apply numeral_plain].
Qed.

Lemma lstrip_ascii_plain l : Forall plain l -> lstrip_ascii l = l.
Proof.
  destruct 1 as [|a l Ha _]; [reflexivity |].
  simpl. now rewrite (plain_not_ISSPACE a Ha).
Qed.

Lemma digits_run ds : forall acc rest,
  all_digits ds -> stops is_digit rest ->
  exists v, digits acc (ds ++ rest) = (v, List.length ds, rest).
Proof.
  induction ds as [|a ds IH]; intros acc rest Hds Hrest.
  - exists acc. destruct rest as [|b rest]; simpl in *; [reflexivity |].
    now rewrite Hrest.
  - inversion Hds as [|? ? Ha Hds']; subst.
    destruct (IH (acc * 10 + Z.of_N (a - 48))%Z rest Hds' Hrest) as [v Hv].
    exists v. simpl. now rewrite Ha, Hv.
Qed.

Lemma strtod_numeral s neg t :
  sign s = (neg, t) -> numeral t -> exists x, strtod s = Some (x, []).
Proof.
  intros Hs Ht. unfold strtod, mantissa. rewrite Hs.
  destruct Ht as [ip Hne Hip|ip fp Hne Hip Hfp].
  - destruct (digits_run ip 0%Z [] Hip I) as [v Hv].
    rewrite app_nil_r in Hv. rewrite Hv.
    destruct ip as [|a ip]; [contradiction |]. simpl. eexists. reflexivity.
  - destruct (digits_run ip 0%Z (46 :: fp) Hip eq_refl) as [v Hv]. rewrite Hv.
    rewrite N.eqb_refl.
    destruct (digits_run fp v [] Hfp I) as [w Hw].
    rewrite app_nil_r in Hw. rewrite Hw.
    destruct ip as [|a ip]; [contradiction |]. simpl. eexists. reflexivity.
Qed.

Lemma sign_of_signed_numeral r :
  signed_numeral r -> exists neg t, sign r = (neg, t) /\ numeral t.
Proof.
  intros [t Ht|c t Hc Ht].
  - exists false, t. split; [| exact Ht].
    destruct (numeral_head t Ht) as (a & t' & -> & Ha).
    digit_cases Ha; reflexivity.
  - destruct (sign_cases c Hc) as [-> | ->].
    + exists false, t. now split.
    + exists true, t. now split.
Qed.

(** [float] accepts every signed numeral. *)
Lemma float_signed_numeral r : signed_numeral r -> exists x, float r = Some x.
Proof.
  intros Hr. assert (Hp := signed_numeral_plain r Hr).
  destruct (sign_of_signed_numeral r Hr) as (neg & t & Hs & Ht).
  destruct (strtod_numeral r neg t Hs Ht) as [x Hx].
  exists x. unfold float_of_str.
  assert (E : map to_ascii r = r).
  { clear - Hp. induction Hp as [|a l Ha _ IH]; [reflexivity |].
    simpl. now rewrite (plain_to_ascii a Ha), IH. }
  rewrite E.
  assert (U : existsb (N.eqb 95) r = false).
  { clear - Hp. induction Hp as [|a l Ha _ IH]; [reflexivity |].
    cbn [existsb]. now rewrite (plain_not_underscore a Ha), IH. }
  rewrite U. unfold float_from_string_inner.
  rewrite (lstrip_ascii_plain r Hp).
  destruct r as [|c r']; [destruct (sign_of_signed_numeral [] Hr) as (? & ? & [= <- <-] & Hn);
                           destruct (numeral_head _ Hn) as (? & ? & [=] & _) |].
  inversion Hp as [|? ? _ Hp']; subst.
  rewrite (lstrip_ascii_plain (rev r')) by now apply Forall_rev.
  rewrite rev_involutive. unfold ascii_strtod. now rewrite Hx.
Qed.

Lemma float_numeral t : numeral t -> exists x, float t = Some x.
Proof. intros Ht. apply float_signed_numeral. now constructor. Qed.

Lemma signed_numeral_head r :
  signed_numeral r -> exists a r', r = a :: r' /\ isspace a = false.
Proof.
  intros [t Ht|c t Hc Ht].
  - destruct (numeral_head t Ht) as (a & t' & -> & Ha).
    exists a, t'. auto using digit_not_space.
  - exists c, t. auto using sign_not_space.
Qed.

End Tables.

(** *** What [float] accepts has no inner sign *)

Lemma inner_sign_no_sign l : forall p, no_sign l -> inner_sign p l = false.
Proof.
  induction l as [|a l IH]; intros p H; [reflexivity |].
  inversion H as [|? ? Ha Hl]; subst. simpl. rewrite Ha. now apply IH.
Qed.

Lemma last_cons (l : str) : forall a p, last (a :: l) p = last l a.
Proof.
  induction l as [|b l IH]; intros a p; [reflexivity |].
  change (last (a :: b :: l) p) with (last (b :: l) p).
  now rewrite !IH.
Qed.

Lemma inner_sign_app l : forall p r,
  inner_sign p (l ++ r) = inner_sign p l || inner_sign (last l p) r.
Proof.
  induction l as [|a l IH]; intros p r; [reflexivity |].
  cbn [app inner_sign]. now rewrite IH, orb_assoc, last_cons.
Qed.

Lemma has_inner_sign_le p s : inner_sign p s = false -> has_inner_sign s = false.
Proof.
  destruct s as [|c s]; [reflexivity |]. simpl.
  now intros [_ H]%orb_false_elim.
Qed.

Lemma digit_plain_facts c : is_digit c = true -> is_sign c = false /\ is_e c = false.
Proof. intros H. digit_cases H; now split. Qed.

Lemma digits_split s : forall acc v n r,
  digits acc s = (v, n, r) -> exists ds, s = ds ++ r /\ all_digits ds.
Proof.
  induction s as [|c s IH]; intros acc v n r H; simpl in H.
  - injection H as _ _ <-. exists []. split; [reflexivity | constructor].
  - destruct (is_digit c) eqn:Hc.
    + destruct (digits (acc * 10 + Z.of_N (c - 48)) s) as [[v' n'] r'] eqn:E.
      injection H as _ _ <-.
      destruct (IH _ _ _ _ E) as (ds & -> & Hds).
      exists (c :: ds). split; [reflexivity | now constructor].
    + injection H as _ _ <-. exists []. split; [reflexivity | constructor].
Qed.

Lemma all_digits_clean ds : all_digits ds -> clean ds.
Proof. apply Forall_impl. intros a. apply digit_plain_facts. Qed.

Lemma all_digits_no_sign ds : all_digits ds -> no_sign ds.
Proof. apply Forall_impl. intros a Ha. now apply digit_plain_facts. Qed.

Lemma mantissa_split s m n1 nfrac s2 :
  mantissa s = (m, n1, nfrac, s2) -> exists l, s = l ++ s2 /\ clean l.
Proof.
  unfold mantissa. destruct (digits 0 s) as [[m1 k1] s1] eqn:D1.
  destruct (digits_split _ _ _ _ _ D1) as (ds1 & -> & H1).
  destruct s1 as [|c s1'].
  - intros [= _ _ _ <-]. exists ds1. auto using all_digits_clean.
  - destruct (c =? 46) eqn:Hc.
    + apply N.eqb_eq in Hc. subst c.
      destruct (digits m1 s1') as [[m2 k2] s2'] eqn:D2.
      destruct (digits_split _ _ _ _ _ D2) as (ds2 & -> & H2).
      intros [= _ _ _ <-]. exists (ds1 ++ 46 :: ds2). split.
      * now rewrite <- app_assoc.
      * apply Forall_app. split; [now apply all_digits_clean |].
        constructor; [now split | now apply all_digits_clean].
    + intros [= _ _ _ <-]. exists ds1. auto using all_digits_clean.
Qed.

Lemma sign_split s neg s0 :
  sign s = (neg, s0) ->
  s = s0 \/ exists c, is_sign c = true /\ s = c :: s0.
Proof.
  destruct s as [|c s']; simpl; [intros [= _ <-]; now left |].
  destruct (c =? 45) eqn:E45; [| destruct (c =? 43) eqn:E43].
  - intros [= _ <-]. right. exists c. unfold is_sign. now rewrite E45, orb_true_r.
  - intros [= _ <-]. right. exists c. unfold is_sign. now rewrite E43.
  - intros [= _ <-]. now left.
Qed.

(** After a mantissa, an exponent or nothing: no inner sign. *)
Lemma exponent_no_inner_sign s2 e :
  exponent s2 = (e, []) -> forall p, inner_sign p s2 = false.
Proof.
  destruct s2 as [|c s']; [reflexivity |]. simpl.
  destruct (is_e c) eqn:Hc; [| discriminate].
  destruct (sign s') as [eneg s''] eqn:Hs.
  destruct (digits 0 s'') as [[ev en] r] eqn:D.
  destruct (en =? 0)%nat; [discriminate |].
  intros [= _ ->] p.
  destruct (digits_split _ _ _ _ _ D) as (ds & -> & Hds).
  rewrite app_nil_r in Hs.
  assert (Hsc : is_sign c = false).
  { unfold is_e in Hc. unfold is_sign.
    apply orb_true_iff in Hc. rewrite !N.eqb_eq in Hc.
    destruct Hc as [-> | ->]; reflexivity. }
  rewrite Hsc. simpl.
  destruct (sign_split _ _ _ Hs) as [-> | (c' & Hc' & ->)].
  - now apply inner_sign_no_sign, all_digits_no_sign.
  - simpl. rewrite Hc. rewrite andb_false_r. simpl.
    now apply inner_sign_no_sign, all_digits_no_sign.
Qed.

Lemma clean_no_sign l : clean l -> no_sign l.
Proof. apply Forall_impl. now intros a [H _]. Qed.

Lemma strtod_no_inner_sign s x :
  strtod s = Some (x, []) -> has_inner_sign s = false.
Proof.
  unfold strtod. destruct (sign s) as [neg s0] eqn:Hs.
  destruct (mantissa s0) as [[[m n1] nfrac] s2] eqn:Hm.
  destruct (n1 + nfrac =? 0)%nat; [discriminate |].
  destruct (exponent s2) as [e s3] eqn:He. intros [= _ ->].
  destruct (mantissa_split _ _ _ _ _ Hm) as (l & -> & Hl).
  assert (Body : forall p, inner_sign p (l ++ s2) = false).
  { intros p. rewrite inner_sign_app.
    rewrite (inner_sign_no_sign l p (clean_no_sign l Hl)).
    apply (exponent_no_inner_sign s2 e He). }
  destruct (sign_split _ _ _ Hs) as [-> | (c & Hc & ->)].
  - apply (has_inner_sign_le 0), Body.
  - simpl. apply Body.
Qed.

Lemma case_insensitive_match_split w : forall s r,
  no_sign w -> case_insensitive_match w s = Some r ->
  exists l, s = l ++ r /\ no_sign l.
Proof.
  induction w as [|a w IH]; intros s r Hw H; simpl in H.
  - injection H as <-. exists []. split; [reflexivity | constructor].
  - destruct s as [|c s]; [discriminate H |].
    inversion Hw as [|? ? Ha Hw']; subst.
    destruct ((if (65 <=? c) && (c <=? 90) then c + 32 else c) =? a) eqn:E;
      [| discriminate H].
    destruct (IH s r Hw' H) as (l & -> & Hl).
    exists (c :: l). split; [reflexivity |]. constructor; [| exact Hl].
    apply N.eqb_eq in E.
    destruct ((65 <=? c) && (c <=? 90)) eqn:U.
    + apply andb_prop in U as [U1 U2]. apply N.leb_le in U1, U2.
      unfold is_sign. apply orb_false_iff. rewrite !N.eqb_neq. lia.
    + now subst a.
Qed.

Lemma parse_inf_or_nan_no_inner_sign s x :
  parse_inf_or_nan s = Some (x, []) -> has_inner_sign s = false.
Proof.
  unfold parse_inf_or_nan. destruct (sign s) as [neg s0] eqn:Hs.
  assert (Hinf : no_sign (of_string "inf")) by (repeat constructor).
  assert (Hinity : no_sign (of_string "inity")) by (repeat constructor).
  assert (Hnan : no_sign (of_string "nan")) by (repeat constructor).
  assert (Body : forall l, no_sign l -> s0 = l -> has_inner_sign s = false).
  { intros l Hl ->.
    destruct (sign_split _ _ _ Hs) as [-> | (c & Hc & ->)].
    - apply (has_inner_sign_le 0). now apply inner_sign_no_sign.
    - simpl. now apply inner_sign_no_sign. }
  destruct (case_insensitive_match (of_string "inf") s0) as [r|] eqn:E1.
  - destruct (case_insensitive_match_split _ _ _ Hinf E1) as (l1 & -> & Hl1).
    destruct (case_insensitive_match (of_string "inity") r) as [r'|] eqn:E2.
    + destruct (case_insensitive_match_split _ _ _ Hinity E2) as (l2 & -> & Hl2).
      intros [= _ ->]. apply (Body (l1 ++ l2 ++ [])); [| reflexivity].
      apply Forall_app. split; [exact Hl1 |]. now rewrite app_nil_r.
    + intros [= _ ->]. apply (Body (l1 ++ [])); [| reflexivity].
      now rewrite app_nil_r.
  - destruct (case_insensitive_match (of_string "nan") s0) as [r|] eqn:E2;
      [| discriminate].
    destruct (case_insensitive_match_split _ _ _ Hnan E2) as (l & -> & Hl).
    intros [= _ ->]. apply (Body (l ++ [])); [| reflexivity].
    now rewrite app_nil_r.
Qed.

Lemma ascii_strtod_no_inner_sign s x :
  ascii_strtod s = Some (x, []) -> has_inner_sign s = false.
Proof.
  unfold ascii_strtod. destruct (strtod s) as [[y r]|] eqn:E.
  - intros [= -> ->]. eapply strtod_no_inner_sign, E.
  - apply parse_inf_or_nan_no_inner_sign.
Qed.

Lemma lstrip_ascii_split u :
  exists sp, u = sp ++ lstrip_ascii u /\ Forall (fun c => Py_ISSPACE c = true) sp.
Proof.
  induction u as [|c u (sp & E & Hsp)]; [exists []; now split |].
  simpl. destruct (Py_ISSPACE c) eqn:Hc.
  - exists (c :: sp). split; [simpl; congruence | now constructor].
  - exists []. now split.
Qed.

Lemma ISSPACE_not_sign c : Py_ISSPACE c = true -> is_sign c = false.
Proof.
  unfold Py_ISSPACE, is_sign.
  rewrite orb_true_iff, andb_true_iff, orb_false_iff, N.eqb_eq, !N.leb_le, !N.eqb_neq.
  lia.
Qed.

(** Dropping white space at the end keeps an inner sign. *)
Lemma rstrip_ascii_inner_sign l p :
  inner_sign p l = true -> inner_sign p (rev (lstrip_ascii (rev l))) = true.
Proof.
  destruct (lstrip_ascii_split (rev l)) as (sp & E & Hsp).
  apply (f_equal (@rev N)) in E. rewrite rev_involutive, rev_app_distr in E.
  intros H. rewrite E, inner_sign_app in H.
  apply orb_true_iff in H as [H|H]; [exact H |].
  rewrite inner_sign_no_sign in H; [discriminate H |].
  apply Forall_rev. eapply Forall_impl; [| exact Hsp].
  intros a. apply ISSPACE_not_sign.
Qed.

(** Removing the underscores keeps an inner sign. *)
Lemma remove_underscores_inner_sign a : forall prev q d,
  remove_underscores prev a = Some d ->
  prev = 95 \/ q = prev ->
  inner_sign prev a = true -> inner_sign q d = true.
Proof.
  induction a as [|p a IH]; intros prev q d H Hq Hin; [discriminate Hin |].
  simpl in H. destruct (p =? 95) eqn:Ep.
  - apply N.eqb_eq in Ep. subst p.
    destruct (is_digit prev) eqn:Hprev; [| discriminate H].
    simpl in Hin. apply (IH 95 q d H); [now left | exact Hin].
  - destruct ((prev =? 95) && negb (is_digit p)) eqn:Eb; [discriminate H |].
    destruct (remove_underscores p a) as [d0|] eqn:E; [| discriminate H].
    injection H as <-. simpl in Hin. simpl.
    apply orb_true_iff in Hin as [Hin|Hin].
    + destruct Hq as [-> | ->].
      * simpl in Eb. apply negb_false_iff in Eb.
        destruct (digit_plain_facts p Eb) as [Hs _].
        rewrite Hs in Hin. discriminate Hin.
      * rewrite Hin. reflexivity.
    + rewrite (IH p p d0 E (or_intror eq_refl) Hin). apply orb_true_r.
Qed.

Section Tables2.

Variable unicode_isspace : N -> bool.
Variable unicode_decimal : N -> option digit.

Local Abbreviation isspace := (PyStr.isspace unicode_isspace).
Local Abbreviation isdecimal := (PyStr.isdecimal unicode_decimal).
Local Abbreviation strip := (PyStr.strip unicode_isspace).
Local Abbreviation to_ascii := (PyStr.to_ascii unicode_isspace unicode_decimal).
Local Abbreviation float := (PyStr.float_of_str unicode_isspace unicode_decimal).
Local Abbreviation pattern := (complex_pattern unicode_isspace unicode_decimal).
Local Abbreviation parse_complex :=
  (Validate.parse_complex unicode_isspace unicode_decimal).

Lemma to_ascii_cases c :
  to_ascii c = c
  \/ (127 <= c /\ (to_ascii c = 32 \/ to_ascii c = 63
                   \/ exists d, to_ascii c = 48 + digit_value d)).
Proof.
  unfold PyStr.to_ascii. destruct (N.ltb_spec c 127); [now left | right].
  split; [assumption |].
  destruct (PyStr.isspace unicode_isspace c); [now left |].
  destruct (todecimal unicode_decimal c) as [d|]; eauto.
Qed.

Lemma to_ascii_sign c : is_sign (to_ascii c) = is_sign c.
Proof.
  destruct (to_ascii_cases c) as [-> | [Hc [E|[E|[d E]]]]]; [reflexivity | | |];
    rewrite E; symmetry; unfold is_sign;
    (replace (c =? 43) with false by (symmetry; apply N.eqb_neq; lia));
    (replace (c =? 45) with false by (symmetry; apply N.eqb_neq; lia));
    try reflexivity.
  destruct d; reflexivity.
Qed.

Lemma to_ascii_e c : is_e (to_ascii c) = is_e c.
Proof.
  destruct (to_ascii_cases c) as [-> | [Hc [E|[E|[d E]]]]]; [reflexivity | | |];
    rewrite E; symmetry; unfold is_e;
    (replace (c =? 101) with false by (symmetry; apply N.eqb_neq; lia));
    (replace (c =? 69) with false by (symmetry; apply N.eqb_neq; lia));
    try reflexivity.
  destruct d; reflexivity.
Qed.

Lemma inner_sign_to_ascii l : forall p,
  inner_sign (to_ascii p) (map to_ascii l) = inner_sign p l.
Proof.
  induction l as [|a l IH]; intros p; [reflexivity |].
  simpl. now rewrite to_ascii_sign, to_ascii_e, IH.
Qed.

Lemma to_ascii_not_ISSPACE c :
  isspace c = false -> Py_ISSPACE (to_ascii c) = false.
Proof.
  intros Hc. unfold PyStr.to_ascii. destruct (N.ltb_spec c 127).
  - unfold PyStr.isspace in Hc.
    replace (c <? 128) with true in Hc by (symmetry; apply N.ltb_lt; lia).
    unfold Py_ISSPACE. apply orb_false_iff in Hc as [Hc _].
    exact Hc.
  - rewrite Hc. destruct (todecimal unicode_decimal c) as [d|]; [| reflexivity].
    destruct d; reflexivity.
Qed.

(** A text that [float] accepts, and that does not start with white
    space, has no inner sign. *)
Lemma float_no_inner_sign c t x :
  isspace c = false -> float (c :: t) = Some x ->
  has_inner_sign (c :: t) = false.
Proof.
  intros Hc H. destruct (has_inner_sign (c :: t)) eqn:Hin; [exfalso | reflexivity].
  simpl in Hin. rewrite <- inner_sign_to_ascii in Hin.
  assert (Hc' := to_ascii_not_ISSPACE c Hc).
  unfold float_of_str in H. cbn [map] in H.
  set (c' := to_ascii c) in *. set (a := map to_ascii t) in *.
  assert (Inner : forall d, inner_sign c' d = true ->
                  float_from_string_inner (c' :: d) = Some x -> False).
  { intros d Hd Hf. unfold float_from_string_inner in Hf.
    cbn [lstrip_ascii] in Hf. rewrite Hc' in Hf.
    destruct (ascii_strtod (c' :: rev (lstrip_ascii (rev d))))
      as [[y [|z r]]|] eqn:E; try discriminate Hf.
    apply ascii_strtod_no_inner_sign in E. simpl in E.
    now rewrite (rstrip_ascii_inner_sign d c' Hd) in E. }
  destruct (existsb (N.eqb 95) (c' :: a)); [| now apply (Inner a)].
  destruct (remove_underscores 0 (c' :: a)) as [d|] eqn:E; [| discriminate H].
  simpl in E. destruct (c' =? 95); [discriminate E |].
  simpl in E. destruct (remove_underscores c' a) as [d0|] eqn:E0; [| discriminate E].
  injection E as <-.
  apply (Inner d0); [| exact H].
  apply (remove_underscores_inner_sign a c' c' d0 E0); auto.
Qed.

(** *** A text the pattern matches has an inner sign *)

Lemma class_not_e (cls : N -> bool) (g : str) :
  cls 101 = false -> cls 69 = false ->
  Forall (fun a => cls a = true) g -> Forall (fun a => is_e a = false) g.
Proof.
  intros H101 H69. apply Forall_impl. intros a Ha.
  destruct (is_e a) eqn:E; [| reflexivity].
  unfold is_e in E. apply orb_true_iff in E. rewrite !N.eqb_eq in E.
  destruct E as [-> | ->]; congruence.
Qed.

Lemma inner_sign_found pre : forall p sgn rest,
  Forall (fun a => is_e a = false) pre -> is_e p = false ->
  is_sign sgn = true -> inner_sign p (pre ++ sgn :: rest) = true.
Proof.
  induction pre as [|a pre IH]; intros p sgn rest Hpre Hp Hs; simpl.
  - now rewrite Hs, Hp.
  - inversion Hpre as [|? ? Ha Hpre']; subst.
    rewrite (IH a sgn rest Hpre' Ha Hs). apply orb_true_r.
Qed.

Lemma match_has_inner_sign t m :
  match_items pattern t = Some m -> has_inner_sign t = true.
Proof.
  intros H. destruct (match_items_sound _ _ _ H) as (F & r & ->). clear H.
  unfold complex_pattern in F.
  destruct m as [|g0 m]; [inversion F |]. apply Forall2_cons_iff in F as [[T0 _] F].
  destruct m as [|g1 m]; [inversion F |]. apply Forall2_cons_iff in F as [[T1 N1] F].
  destruct m as [|g2 m]; [inversion F |]. apply Forall2_cons_iff in F as [[T2 _] F].
  destruct m as [|g3 m]; [inversion F |]. apply Forall2_cons_iff in F as [[T3 _] F].
  destruct m as [|g4 m]; [inversion F |]. apply Forall2_cons_iff in F as [[T4 _] F].
  destruct m as [|g5 m]; [inversion F |]. apply Forall2_cons_iff in F as [[T5 L5] F].
  cbn [fst snd] in *.
  destruct g5 as [|sgn [|? ?]]; try discriminate L5.
  inversion T5 as [|? ? Hsgn _]; subst.
  assert (Epre : Forall (fun a => is_e a = false) (g0 ++ g1 ++ g2 ++ g3 ++ g4)).
  { repeat (apply Forall_app; split).
    - now apply (class_not_e is_sign).
    - now apply (class_not_e isdecimal).
    - now apply (class_not_e is_dot).
    - now apply (class_not_e isdecimal).
    - now apply (class_not_e isspace). }
  assert (Npre : g0 ++ g1 ++ g2 ++ g3 ++ g4 <> []).
  { intros [_ [E _]%app_eq_nil]%app_eq_nil. contradiction. }
  cbn [List.concat].
  replace ((g0 ++ g1 ++ g2 ++ g3 ++ g4 ++ [sgn] ++ List.concat m) ++ r)
    with ((g0 ++ g1 ++ g2 ++ g3 ++ g4) ++ sgn :: (List.concat m ++ r))
    by (repeat (rewrite <- app_assoc; cbn [app]); reflexivity).
  destruct (g0 ++ g1 ++ g2 ++ g3 ++ g4) as [|a pre]; [contradiction |].
  inversion Epre; subst. simpl. now apply inner_sign_found.
Qed.

(** *** A stripped text does not start with white space *)

Lemma lstrip_head s c t : lstrip unicode_isspace s = c :: t -> isspace c = false.
Proof.
  induction s as [|a s IH]; simpl; [discriminate |].
  destruct (PyStr.isspace unicode_isspace a) eqn:E; [exact IH |].
  now intros [= <- _].
Qed.

Lemma lstrip_split u :
  exists sp, u = sp ++ lstrip unicode_isspace u.
Proof.
  induction u as [|c u (sp & E)]; [now exists [] |].
  simpl. destruct (PyStr.isspace unicode_isspace c).
  - exists (c :: sp). simpl. congruence.
  - now exists [].
Qed.

Lemma strip_head s c t : strip s = c :: t -> isspace c = false.
Proof.
  unfold PyStr.strip, rstrip. intros H.
  destruct (lstrip_split (rev (lstrip unicode_isspace s))) as (sp & E).
  apply (f_equal (@rev N)) in E. rewrite rev_involutive, rev_app_distr, H in E.
  apply (lstrip_head s c (t ++ rev sp)). exact E.
Qed.

(** A text that [float] accepts is not matched by the pattern. *)
Lemma float_excludes_match s x :
  float (strip s) = Some x -> match_items pattern (strip s) = None.
Proof.
  intros H. destruct (match_items pattern (strip s)) as [m|] eqn:M; [| reflexivity].
  apply match_has_inner_sign in M.
  destruct (strip s) as [|c t] eqn:E; [discriminate M |].
  rewrite (float_no_inner_sign c t x (strip_head s c t E) H) in M.
  discriminate M.
Qed.

End Tables2.

End DecoderFacts.

(** * The fixture file read back *)

Module SerializerFacts.

Import Generate.

Local Open Scope string_scope.

Lemma append_assoc (a b c : string) : (a ++ b) ++ c = a ++ b ++ c.
Proof. induction a as [|x a IH]; simpl; [reflexivity | now rewrite IH]. Qed.

Lemma length_append (a b : string) :
  String.length (a ++ b) = String.length a + String.length b.
Proof. induction a as [|x a IH]; simpl; [reflexivity | now rewrite IH]. Qed.

(** ** White space *)

Lemma skip_ws_spaces n s : skip_ws (spaces n ++ s) = skip_ws s.
Proof. induction n as [|n IH]; simpl; [reflexivity | exact IH]. Qed.

Lemma skip_ws_newline_indent level s :
  skip_ws (newline_indent level ++ s) = skip_ws s.
Proof. unfold newline_indent. simpl. apply skip_ws_spaces. Qed.

Lemma skip_ws_head c s : is_ws c = false -> skip_ws (String c s) = String c s.
Proof. intros H. simpl. now rewrite H. Qed.

Lemma skip_ws_idem s : skip_ws (skip_ws s) = skip_ws s.
Proof.
  induction s as [|c s IH]; simpl; [reflexivity |].
  destruct (is_ws c) eqn:E; [exact IH | simpl; now rewrite E].
Qed.

Lemma read_value_skip_ws n s : read_value n (skip_ws s) = read_value n s.
Proof. destruct n; simpl; [reflexivity | now rewrite skip_ws_idem]. Qed.

Lemma read_elements_skip_ws n s :
  read_elements n (skip_ws s) = read_elements n s.
Proof. destruct n; simpl; [reflexivity | now rewrite skip_ws_idem]. Qed.

Lemma read_member_skip_ws n s : read_member n (skip_ws s) = read_member n s.
Proof. destruct n; simpl; [reflexivity | now rewrite skip_ws_idem]. Qed.

Lemma read_members_skip_ws n s :
  read_members n (skip_ws s) = read_members n s.
Proof. destruct n; simpl; [reflexivity | now rewrite skip_ws_idem]. Qed.

(** ** Strings *)

(** The reader undoes the escape of one character. *)
Lemma read_string_escape_char fuel c r :
  read_string (S fuel) (escape_char c ++ r)
  = match read_string fuel r with
    | Some (t, r') => Some (String c t, r')
    | None => None
    end.
Proof.
  destruct c as [[] [] [] [] [] [] [] []]; reflexivity.
Qed.

Lemma read_string_escape t rest fuel :
  String.length t < fuel ->
  read_string fuel (escape t ++ quote ++ rest) = Some (t, rest).
Proof.
  revert fuel. induction t as [|c t IH]; intros fuel H.
  - destruct fuel as [|fuel]; [inversion H | reflexivity].
  - destruct fuel as [|fuel]; [inversion H |].
    cbn [escape]. rewrite append_assoc, read_string_escape_char.
    rewrite IH; [reflexivity | simpl in H; lia].
Qed.

Lemma length_escape_char c : 1 <= String.length (escape_char c).
Proof. destruct c as [[] [] [] [] [] [] [] []]; vm_compute; lia. Qed.

Lemma length_escape t : String.length t <= String.length (escape t).
Proof.
  induction t as [|c t IH]; simpl; [lia |].
  rewrite length_append. pose proof (length_escape_char c). lia.
Qed.

(** After the opening quote the reader finds the string that was encoded. *)
Lemma read_string_encoded t rest :
  read_string (String.length (escape t ++ quote ++ rest))
    (escape t ++ quote ++ rest) = Some (t, rest).
Proof.
  apply read_string_escape. rewrite !length_append.
  pose proof (length_escape t). simpl. lia.
Qed.

(** ** Numbers *)

Lemma span_number_token tok rest :
  number_chars tok = true -> delimited rest = true ->
  span_number (tok ++ rest) = (tok, rest).
Proof.
  intros T D. induction tok as [|c tok IH]; simpl.
  - destruct rest as [|c r]; [reflexivity |].
    simpl in D. apply andb_true_iff in D as [D _].
    apply negb_true_iff in D. simpl. now rewrite D.
  - simpl in T. apply andb_true_iff in T as [T1 T2].
    rewrite T1, (IH T2). reflexivity.
Qed.

(** A number character starts nothing but a number. *)
Lemma number_head c :
  is_number_char c = true ->
  is_ws c = false /\ Ascii.eqb c "[" = false /\ Ascii.eqb c "{" = false /\
  (N_of_ascii c =? 34)%N = false /\ Ascii.eqb c "N" = false /\
  Ascii.eqb c "I" = false /\ Ascii.eqb c "]" = false /\
  Ascii.eqb c "}" = false.
Proof.
  destruct c as [[] [] [] [] [] [] [] []]; vm_compute; intros H;
    try discriminate H; repeat split.
Qed.

Lemma not_minus_infinity tok rest :
  number_token tok = true -> delimited rest = true ->
  strip_prefix "-Infinity" (tok ++ rest) = None.
Proof.
  intros T D. destruct tok as [|c tok]; [discriminate T |].
  cbn [append strip_prefix].
  destruct (Ascii.eqb "-" c); [| reflexivity].
  simpl in T. apply andb_true_iff in T as [_ T].
  destruct tok as [|c2 tok].
  - destruct rest as [|c2 r]; [reflexivity |].
    simpl in D. apply andb_true_iff in D as [_ D].
    apply negb_true_iff in D.
    cbn [append strip_prefix]. now rewrite Ascii.eqb_sym, D.
  - simpl in T. apply andb_true_iff in T as [T _].
    apply number_head in T as (_ & _ & _ & _ & _ & T & _).
    cbn [append strip_prefix]. now rewrite Ascii.eqb_sym, T.
Qed.

(** On a number the reader goes to [read_number]. *)
Lemma read_value_number n tok rest :
  number_token tok = true -> delimited rest = true ->
  read_value (S n) (tok ++ rest) = read_number (tok ++ rest).
Proof.
  intros T D. pose proof (not_minus_infinity tok rest T D) as M.
  destruct tok as [|c tok]; [discriminate T |].
  simpl in T. apply andb_true_iff in T as [T _].
  apply number_head in T as (W & B1 & B2 & Q & N1 & N2 & _).
  cbn [append] in *. cbn [read_value].
  rewrite (skip_ws_head _ _ W), B1, B2, Q, N1, N2, M. reflexivity.
Qed.

Lemma number_chars_uint d : number_chars (NilEmpty.string_of_uint d) = true.
Proof. induction d; simpl; auto. Qed.

Lemma number_token_int n : number_token (encode_int n) = true.
Proof.
  unfold encode_int.
  destruct n as [|p|p]; cbn [Z.to_int NilZero.string_of_int].
  - reflexivity.
  - pose proof (DecimalPos.Unsigned.to_uint_nonnil p) as H.
    destruct (Pos.to_uint p) eqn:E; try (now destruct H);
      exact (number_chars_uint _).
  - pose proof (DecimalPos.Unsigned.to_uint_nonnil p) as H.
    destruct (Pos.to_uint p) eqn:E; try (now destruct H);
      exact (number_chars_uint _).
Qed.

Lemma int_of_encode_int n :
  NilZero.int_of_string (encode_int n) = Some (Z.to_int n).
Proof.
  unfold encode_int. apply NilZero.isi.
  - destruct n as [|p|p]; cbn [Z.to_int]; try discriminate.
    intros [= H]. now apply (DecimalPos.Unsigned.to_uint_nonnil p).
  - destruct n as [|p|p]; cbn [Z.to_int]; try discriminate.
    intros [= H]. now apply (DecimalPos.Unsigned.to_uint_nonnil p).
Qed.

Lemma number_token_chars s : number_token s = true -> number_chars s = true.
Proof. destruct s; [discriminate | trivial]. Qed.

Lemma read_value_int n z rest :
  delimited rest = true ->
  read_value (S n) (encode_int z ++ rest) = Some (VInt z, rest).
Proof.
  intros D. rewrite (read_value_number _ _ _ (number_token_int z) D).
  unfold read_number.
  rewrite (span_number_token _ _ (number_token_chars _ (number_token_int z)) D).
  rewrite int_of_encode_int, DecimalZ.of_to. reflexivity.
Qed.

Lemma eqb_infinity f : (f =? infinity)%float = true -> f = infinity.
Proof.
  rewrite FloatAxioms.eqb_spec. intros H. apply Prim2SF_inj.
  change (Prim2SF infinity) with (SpecFloat.S754_infinity false) in *.
  destruct (Prim2SF f) as [s|s| |s m e]; try destruct s; try discriminate H;
    reflexivity.
Qed.

Lemma eqb_neg_infinity f : (f =? neg_infinity)%float = true -> f = neg_infinity.
Proof.
  rewrite FloatAxioms.eqb_spec. intros H. apply Prim2SF_inj.
  change (Prim2SF neg_infinity) with (SpecFloat.S754_infinity true) in *.
  destruct (Prim2SF f) as [s|s| |s m e]; try destruct s; try discriminate H;
    reflexivity.
Qed.

(** ** Dictionaries *)

Lemma dict_set_fresh (d : dict) k v :
  ~ In k (map fst d) -> dict_set d k v = (d ++ [(k, v)])%list.
Proof.
  induction d as [|[k' v'] d IH]; intros H; simpl; [reflexivity |].
  destruct (String.eqb_spec k k') as [->|_].
  - exfalso. apply H. now left.
  - rewrite IH; [reflexivity |]. intros I. apply H. now right.
Qed.

Lemma fold_dict_set (l acc : dict) :
  NoDup (map fst (acc ++ l)%list) ->
  fold_left (fun d kx => dict_set d (fst kx) (snd kx)) l acc = (acc ++ l)%list.
Proof.
  revert acc. induction l as [|[k v] l IH]; intros acc H; simpl.
  - now rewrite app_nil_r.
  - rewrite dict_set_fresh.
    + rewrite IH; rewrite <- app_assoc; [reflexivity | exact H].
    + rewrite map_app in H. simpl in H.
      apply NoDup_remove_2 in H. intros I. apply H.
      apply in_or_app. now left.
Qed.

Lemma dict_of_pairs_nodup (d : dict) :
  NoDup (map fst d) -> dict_of_pairs d = d.
Proof. intros H. unfold dict_of_pairs. now rewrite fold_dict_set. Qed.

(** ** The steps of the reader *)

Lemma read_value_list n s' :
  read_value (S n) (String "[" s')
  = match skip_ws s' with
    | EmptyString => None
    | String c2 r =>
        if Ascii.eqb c2 "]" then Some (VList [], r)
        else
          match read_value n s' with
          | Some (x, r1) =>
              match read_elements n r1 with
              | Some (xs, r2) => Some (VList (x :: xs), r2)
              | None => None
              end
          | None => None
          end
    end.
Proof. reflexivity. Qed.

Lemma read_value_dict n s' :
  read_value (S n) (String "{" s')
  = match skip_ws s' with
    | EmptyString => None
    | String c2 r =>
        if Ascii.eqb c2 "}" then Some (VDict [], r)
        else
          match read_member n s' with
          | Some (kx, r1) =>
              match read_members n r1 with
              | Some (kxs, r2) => Some (VDict (dict_of_pairs (kx :: kxs)), r2)
              | None => None
              end
          | None => None
          end
    end.
Proof. reflexivity. Qed.

Lemma read_value_str n s' :
  read_value (S n) (quote ++ s')
  = match read_string (String.length s') s' with
    | Some (t, r) => Some (VStr t, r)
    | None => None
    end.
Proof. reflexivity. Qed.

Lemma read_elements_more n r :
  read_elements (S n) (String "," r)
  = match read_value n r with
    | Some (x, r1) =>
        match read_elements n r1 with
        | Some (xs, r2) => Some (x :: xs, r2)
        | None => None
        end
    | None => None
    end.
Proof. reflexivity. Qed.

Lemma read_members_more n r :
  read_members (S n) (String "," r)
  = match read_member n r with
    | Some (kx, r1) =>
        match read_members n r1 with
        | Some (kxs, r2) => Some (kx :: kxs, r2)
        | None => None
        end
    | None => None
    end.
Proof. reflexivity. Qed.

Lemma read_member_key n r :
  read_member (S n) (quote ++ r)
  = match read_string (String.length r) r with
    | Some (k, r1) =>
        match skip_ws r1 with
        | String c2 r2 =>
            if Ascii.eqb c2 ":" then
              match read_value n r2 with
              | Some (x, r3) => Some ((k, x), r3)
              | None => None
              end
            else None
        | EmptyString => None
        end
    | None => None
    end.
Proof. reflexivity. Qed.

Lemma read_elements_end n level rest :
  read_elements (S n) (newline_indent level ++ "]" ++ rest) = Some ([], rest).
Proof.
  rewrite <- read_elements_skip_ws, skip_ws_newline_indent. reflexivity.
Qed.

Lemma read_members_end n level rest :
  read_members (S n) (newline_indent level ++ "}" ++ rest) = Some ([], rest).
Proof.
  rewrite <- read_members_skip_ws, skip_ws_newline_indent. reflexivity.
Qed.

Section RoundTrip.

Variable float_repr : float -> string.

Local Abbreviation enc := (encode float_repr).
Local Abbreviation rep := (representable float_repr).

Lemma read_value_float n f rest :
  representable_float float_repr f -> delimited rest = true ->
  read_value (S n) (encode_float float_repr f ++ rest) = Some (VFloat f, rest).
Proof.
  intros [N R] D. unfold encode_float. rewrite N.
  destruct (f =? infinity)%float eqn:E1.
  { apply eqb_infinity in E1. subst f. reflexivity. }
  destruct (f =? neg_infinity)%float eqn:E2.
  { apply eqb_neg_infinity in E2. subst f. reflexivity. }
  destruct (R eq_refl eq_refl) as (T & I & F).
  rewrite (read_value_number _ _ _ T D). unfold read_number.
  rewrite (span_number_token _ _ (number_token_chars _ T) D), I, F.
  reflexivity.
Qed.

Lemma encode_list_cons level x xs :
  enc level (VList (x :: xs))
  = "[" ++ newline_indent (S level) ++ enc (S level) x
    ++ encode_elements float_repr (S level) xs ++ newline_indent level ++ "]".
Proof. reflexivity. Qed.

Lemma encode_dict_cons level k x kxs :
  enc level (VDict ((k, x) :: kxs))
  = "{" ++ newline_indent (S level) ++ encode_str k ++ ": " ++ enc (S level) x
    ++ encode_members float_repr (S level) kxs ++ newline_indent level ++ "}".
Proof. reflexivity. Qed.

Lemma encode_elements_cons level y l :
  encode_elements float_repr level (y :: l)
  = "," ++ newline_indent level ++ enc level y
    ++ encode_elements float_repr level l.
Proof. reflexivity. Qed.

Lemma encode_members_cons level k y l :
  encode_members float_repr level ((k, y) :: l)
  = "," ++ newline_indent level ++ encode_str k ++ ": " ++ enc level y
    ++ encode_members float_repr level l.
Proof. reflexivity. Qed.

Lemma rep_list l : rep (VList l) <-> Forall rep l.
Proof.
  induction l as [|x l IH]; simpl.
  - split; [constructor | trivial].
  - split.
    + intros [H1 H2]. constructor; [exact H1 | now apply IH].
    + intros H. inversion H; subst. split; [assumption | now apply IH].
Qed.

Lemma rep_dict d :
  rep (VDict d) <-> NoDup (map fst d) /\ Forall (fun kx => rep (snd kx)) d.
Proof.
  simpl. apply and_iff_compat_l.
  induction d as [|kx d IH].
  - split; [constructor | trivial].
  - split.
    + intros [H1 H2]. constructor; [exact H1 | now apply IH].
    + intros H. inversion H; subst. split; [assumption | now apply IH].
Qed.

(** An encoded value starts with a character that is no white space and
    closes no list. *)
Lemma encode_head level v rest :
  rep v ->
  exists c t, enc level v ++ rest = String c t /\ is_ws c = false /\
              Ascii.eqb c "]" = false.
Proof.
  intros R. destruct v as [z|f|t|l|d].
  - pose proof (number_token_int z) as T. cbn [encode].
    destruct (encode_int z) as [|c t]; [discriminate T |].
    simpl in T. apply andb_true_iff in T as [T _].
    apply number_head in T as (W & _ & _ & _ & _ & _ & B & _).
    exists c, (t ++ rest). auto.
  - destruct R as [N R]. cbn [encode]. unfold encode_float. rewrite N.
    destruct (f =? infinity)%float; [do 2 eexists; repeat split |].
    destruct (f =? neg_infinity)%float; [do 2 eexists; repeat split |].
    destruct (R eq_refl eq_refl) as (T & _).
    destruct (float_repr f) as [|c t]; [discriminate T |].
    simpl in T. apply andb_true_iff in T as [T _].
    apply number_head in T as (W & _ & _ & _ & _ & _ & B & _).
    exists c, (t ++ rest). auto.
  - do 2 eexists. repeat split.
  - destruct l; do 2 eexists; repeat split.
  - destruct d as [|[k x] d]; do 2 eexists; repeat split.
Qed.

Lemma delimited_elements level l indent s :
  delimited (encode_elements float_repr level l ++ newline_indent indent ++ s)
  = true.
Proof. destruct l; reflexivity. Qed.

Lemma delimited_members level d indent s :
  delimited (encode_members float_repr level d ++ newline_indent indent ++ s)
  = true.
Proof. destruct d as [|[k x] d]; reflexivity. Qed.

Lemma head_not_closing {A : Type} (close : ascii) (X : string) c t
    (a : string -> A) (b e : A) :
  X = String c t -> Ascii.eqb c close = false ->
  match X with
  | EmptyString => e
  | String c2 r => if Ascii.eqb c2 close then a r else b
  end = b.
Proof. intros -> H. now rewrite H. Qed.

Lemma read_member_encoded n k Z :
  read_member (S n) (encode_str k ++ ": " ++ Z)
  = match read_value n Z with
    | Some (x, r3) => Some ((k, x), r3)
    | None => None
    end.
Proof.
  unfold encode_str.
  rewrite !append_assoc, read_member_key, read_string_encoded.
  change (": " ++ Z) with (String ":" (String " " Z)).
  rewrite <- (read_value_skip_ws n Z).
  change (skip_ws Z) with (skip_ws (String " " Z)).
  rewrite read_value_skip_ws. reflexivity.
Qed.

(** The reader with fuel [n] finds every value of size [n] at most at the
    head of the text that holds its encoding, and likewise the elements
    of a list and the items of a dictionary after the first. *)
Lemma round_trip_steps n :
  (forall v level rest,
     size v <= n -> rep v -> delimited rest = true ->
     read_value n (enc level v ++ rest) = Some (v, rest)) /\
  (forall l level rest,
     S (list_sum (map (fun x => S (size x)) l)) <= n -> Forall rep l ->
     read_elements n
       (encode_elements float_repr (S level) l
        ++ newline_indent level ++ "]" ++ rest) = Some (l, rest)) /\
  (forall k x level rest,
     S (size x) <= n -> rep x -> delimited rest = true ->
     read_member n (encode_str k ++ ": " ++ enc level x ++ rest)
     = Some ((k, x), rest)) /\
  (forall d level rest,
     S (list_sum (map (fun kx => 2 + size (snd kx)) d)) <= n ->
     Forall (fun kx => rep (snd kx)) d ->
     read_members n
       (encode_members float_repr (S level) d
        ++ newline_indent level ++ "}" ++ rest) = Some (d, rest)).
Proof.
  induction n as [|n (IH1 & IH2 & IH3 & IH4)].
  { repeat split; intros; try lia. destruct v; simpl in *; lia. }
  repeat split.
  - intros v level rest S R D. destruct v as [z|f|t|l|d].
    + apply read_value_int, D.
    + apply read_value_float; assumption.
    + cbn [encode]. unfold encode_str.
      rewrite !append_assoc, read_value_str, read_string_encoded.
      reflexivity.
    + destruct l as [|x xs]; [reflexivity |].
      apply rep_list in R. inversion R as [|? ? Rx Rxs]; subst.
      change (size (VList (x :: xs)))
        with (3 + size x + list_sum (map (fun x => Datatypes.S (size x)) xs))
        in S.
      rewrite encode_list_cons, !append_assoc.
      match goal with
      | |- context ["[" ++ ?X] => change ("[" ++ X) with (String "[" X)
      end.
      rewrite read_value_list.
      rewrite <- (read_value_skip_ws n (newline_indent _ ++ _)).
      rewrite skip_ws_newline_indent.
      match goal with
      | |- context [skip_ws (enc ?L x ++ ?Y)] =>
          destruct (encode_head L x Y Rx) as (c & t & E & W & B);
          assert (K : skip_ws (enc L x ++ Y) = enc L x ++ Y)
            by (rewrite E; apply skip_ws_head, W);
          rewrite K, (head_not_closing "]" _ c t _ _ _ E B)
      end.
      rewrite IH1; [| lia | exact Rx | apply delimited_elements].
      rewrite IH2; [reflexivity | lia | exact Rxs].
    + destruct d as [|[k x] kxs]; [reflexivity |].
      pose proof R as R'.
      apply rep_dict in R as [ND R]. inversion R as [|? ? Rx Rxs]; subst.
      change (size (VDict ((k, x) :: kxs)))
        with (4 + size x
              + list_sum (map (fun kx => 2 + size (snd kx)) kxs)) in S.
      rewrite encode_dict_cons, !append_assoc.
      match goal with
      | |- context ["{" ++ ?X] => change ("{" ++ X) with (String "{" X)
      end.
      rewrite read_value_dict.
      rewrite <- (read_member_skip_ws n (newline_indent _ ++ _)).
      rewrite skip_ws_newline_indent.
      match goal with
      | |- context [skip_ws (encode_str k ++ ?Y)] =>
          assert (K : skip_ws (encode_str k ++ Y) = encode_str k ++ Y)
            by reflexivity;
          rewrite K,
            (head_not_closing "}" _ _ _ _ _ _
               (eq_refl : encode_str k ++ Y
                          = String (ascii_of_nat 34)
                              ((escape k ++ quote) ++ Y)) eq_refl)
      end.
      rewrite IH3; [| simpl; lia | exact Rx | apply delimited_members].
      rewrite IH4; [| lia | exact Rxs].
      rewrite dict_of_pairs_nodup; [reflexivity | exact ND].
  - intros l level rest S R. destruct l as [|y l].
    + apply read_elements_end.
    + inversion R as [|? ? Ry Rl]; subst.
      change (list_sum (map (fun x => Datatypes.S (size x)) (y :: l)))
        with (Datatypes.S (size y)
              + list_sum (map (fun x => Datatypes.S (size x)) l)) in S.
      rewrite encode_elements_cons, !append_assoc.
      match goal with
      | |- context ["," ++ ?X] => change ("," ++ X) with (String "," X)
      end.
      rewrite read_elements_more.
      rewrite <- read_value_skip_ws, skip_ws_newline_indent,
        read_value_skip_ws.
      rewrite IH1; [| lia | exact Ry | apply delimited_elements].
      rewrite IH2; [reflexivity | lia | exact Rl].
  - intros k x level rest S R D.
    rewrite read_member_encoded, IH1; [reflexivity | lia | exact R | exact D].
  - intros d level rest S R. destruct d as [|[k y] d].
    + apply read_members_end.
    + inversion R as [|? ? Ry Rd]; subst.
      change (list_sum (map (fun kx => 2 + size (snd kx)) ((k, y) :: d)))
        with (2 + size y
              + list_sum (map (fun kx => 2 + size (snd kx)) d)) in S.
      rewrite encode_members_cons, !append_assoc.
      match goal with
      | |- context ["," ++ ?X] => change ("," ++ X) with (String "," X)
      end.
      rewrite read_members_more.
      rewrite <- read_member_skip_ws, skip_ws_newline_indent,
        read_member_skip_ws.
      rewrite IH3; [| simpl in *; lia | exact Ry | apply delimited_members].
      rewrite IH4; [reflexivity | lia | exact Rd].
Qed.

Lemma length_newline_indent level : 1 <= String.length (newline_indent level).
Proof. simpl. lia. Qed.

Lemma length_encode_str k : 2 <= String.length (encode_str k).
Proof. unfold encode_str. rewrite !length_append. simpl. lia. Qed.

(** The fuel the text of a value gives is enough to read the value. *)
Lemma size_encode m :
  forall v level, size v <= m -> size v <= S (String.length (enc level v)).
Proof.
  induction m as [|m IH]; intros v level H.
  { destruct v; simpl in H; lia. }
  destruct v as [z|f|t|l|d]; try (simpl; lia).
  - destruct l as [|x xs]; [simpl; lia |].
    change (size (VList (x :: xs)))
      with (3 + size x + list_sum (map (fun x => S (size x)) xs)) in *.
    assert (T : forall l,
               list_sum (map (fun x => S (size x)) l) <= m ->
               list_sum (map (fun x => S (size x)) l)
               <= String.length (encode_elements float_repr (S level) l)).
    { induction l as [|y l IHl]; intros B; [simpl; lia |].
      change (list_sum (map (fun x => S (size x)) (y :: l)))
        with (S (size y) + list_sum (map (fun x => S (size x)) l)) in *.
      rewrite encode_elements_cons, !length_append.
      pose proof (IH y (S level)). pose proof (length_newline_indent (S level)).
      cbn [String.length]. lia. }
    rewrite encode_list_cons, !length_append.
    pose proof (IH x (S level)). pose proof (T xs).
    pose proof (length_newline_indent (S level)).
    pose proof (length_newline_indent level).
    cbn [String.length]. lia.
  - destruct d as [|[k x] kxs]; [simpl; lia |].
    change (size (VDict ((k, x) :: kxs)))
      with (4 + size x + list_sum (map (fun kx => 2 + size (snd kx)) kxs))
      in *.
    assert (T : forall l,
               list_sum (map (fun kx => 2 + size (snd kx)) l) <= m ->
               list_sum (map (fun kx => 2 + size (snd kx)) l)
               <= String.length (encode_members float_repr (S level) l)).
    { induction l as [|[k' y] l IHl]; intros B; [simpl; lia |].
      change (list_sum (map (fun kx => 2 + size (snd kx)) ((k', y) :: l)))
        with (2 + size y + list_sum (map (fun kx => 2 + size (snd kx)) l))
        in *.
      rewrite encode_members_cons, !length_append.
      pose proof (IH y (S level)). pose proof (length_newline_indent (S level)).
      pose proof (length_encode_str k').
      cbn [String.length]. lia. }
    rewrite encode_dict_cons, !length_append.
    pose proof (IH x (S level)). pose proof (T kxs).
    pose proof (length_newline_indent (S level)).
    pose proof (length_newline_indent level).
    pose proof (length_encode_str k).
    cbn [String.length]. lia.
Qed.

Lemma append_empty (s : string) : s ++ "" = s.
Proof. induction s as [|c s IH]; simpl; [reflexivity | now rewrite IH]. Qed.

(** The round trip on the text of any representable value. *)
Lemma deserialize_json_dumps v :
  rep v -> deserialize (json_dumps float_repr v) = Some v.
Proof.
  intros R. unfold deserialize, json_dumps.
  pose proof (proj1 (round_trip_steps (S (String.length (enc 0 v))))
                v 0 "" (size_encode _ v 0 (le_n _)) R eq_refl) as H.
  rewrite append_empty in H. rewrite H. reflexivity.
Qed.

(** C2 (serializer round trip).  [save_test_data] writes the test data,
    which it leaves as they are, to the file it is given, and the text in
    the file read back is the test data, item for item in the same order,
    whenever the test data are representable: none of their floats is NaN,
    the [repr] of each finite one is a number with a point or an exponent
    that [float] reads as the same float, and no dictionary has a key
    twice. *)
Theorem serializer_round_trip (np : Np.api) (filename : string)
    (st : state np) :
  rep (VDict (test_data np st)) ->
  exists st' text,
    save_test_data np float_repr filename st = inr (tt, st') /\
    test_data np st' = test_data np st /\
    file_content (files np st') filename = Some text /\
    text = json_dumps float_repr (VDict (test_data np st)) /\
    deserialize text = Some (VDict (test_data np st)).
Proof.
  intros R. do 2 eexists. split; [reflexivity |].
  split; [reflexivity |]. split; [apply GenerateFacts.file_content_set |].
  split; [reflexivity |]. apply deserialize_json_dumps, R.
Qed.

End RoundTrip.

Lemma serializer_round_trip_witness :
  representable (fun f => if (f =? 1.5)%float then "1.5" else "0.0")
    (VDict (test_data numpy_fixed
       (State numpy_fixed
          [("level1",
            VList [VDict [("name", VStr "zdotu"); ("n", VInt 2);
                          ("x", VList [VDict [("real", VFloat 1.5);
                                              ("imag", VFloat 0)]])]])]
          tt [] []))) /\
  exists st' text,
    save_test_data numpy_fixed
      (fun f => if (f =? 1.5)%float then "1.5" else "0.0") "data.json"
      (State numpy_fixed
         [("level1",
           VList [VDict [("name", VStr "zdotu"); ("n", VInt 2);
                         ("x", VList [VDict [("real", VFloat 1.5);
                                             ("imag", VFloat 0)]])]])]
         tt [] []) = inr (tt, st') /\
    test_data numpy_fixed st'
    = [("level1",
        VList [VDict [("name", VStr "zdotu"); ("n", VInt 2);
                      ("x", VList [VDict [("real", VFloat 1.5);
                                          ("imag", VFloat 0)]])]])] /\
    file_content (files numpy_fixed st') "data.json" = Some text /\
    text = json_dumps (fun f => if (f =? 1.5)%float then "1.5" else "0.0")
             (VDict [("level1",
                VList [VDict [("name", VStr "zdotu"); ("n", VInt 2);
                              ("x", VList [VDict [("real", VFloat 1.5);
                                                  ("imag", VFloat 0)]])]])]) /\
    deserialize text
    = Some (VDict [("level1",
              VList [VDict [("name", VStr "zdotu"); ("n", VInt 2);
                            ("x", VList [VDict [("real", VFloat 1.5);
                                                ("imag", VFloat 0)]])]])]).
Proof.
  assert (R : representable
                (fun f => if (f =? 1.5)%float then "1.5" else "0.0")
                (VDict [("level1",
                   VList [VDict [("name", VStr "zdotu"); ("n", VInt 2);
                                 ("x", VList [VDict [("real", VFloat 1.5);
                                                     ("imag", VFloat 0)]])]])])).
  { cbn [representable map fst snd].
    repeat match goal with
           | |- _ /\ _ => split
           | |- True => exact I
           | |- NoDup _ => repeat constructor; simpl; intuition discriminate
           | |- representable_float _ _ =>
               split; [reflexivity | intros _ _; repeat split; vm_compute; reflexivity]
           end. }
  split; [exact R |].
  exact (serializer_round_trip
           (fun f => if (f =? 1.5)%float then "1.5" else "0.0")
           numpy_fixed "data.json"
           (State numpy_fixed
              [("level1",
                VList [VDict [("name", VStr "zdotu"); ("n", VInt 2);
                              ("x", VList [VDict [("real", VFloat 1.5);
                                                  ("imag", VFloat 0)]])]])]
              tt [] []) R).
Defined.

End SerializerFacts.

(** * Runs of the generator: draws, failures and shapes *)

Module RunFacts.

Import Generate Fixture.

Local Open Scope string_scope.

(** ** Lengths *)

Ltac holds_here :=
  match goal with
  | |- holds_vector _ _ => eexists; split; [reflexivity |]
  | |- holds_matrix _ _ _ => eexists; split; [reflexivity |]
  end.

Lemma length_plus_1j_times a : forall b n,
  List.length a = n -> List.length b = n ->
  List.length (plus_1j_times a b) = n.
Proof.
  induction a as [|p a IH]; intros [|q b] n Ha Hb; simpl in *; try congruence.
  destruct n as [|n]; [discriminate |]. f_equal. apply IH; congruence.
Qed.

Lemma shape_plus_1j_times2 a : forall b m n,
  List.length a = m -> Forall (fun r => List.length r = n) a ->
  List.length b = m -> Forall (fun r => List.length r = n) b ->
  shape m n (plus_1j_times2 a b).
Proof.
  induction a as [|p a IH]; intros [|q b] m n Ha Fa Hb Fb; simpl in *.
  - split; [exact Ha | constructor].
  - exfalso. congruence.
  - exfalso. congruence.
  - apply Forall_cons_iff in Fa as [Fp Fa].
    apply Forall_cons_iff in Fb as [Fq Fb].
    destruct m as [|m]; [discriminate |].
    injection Ha as Ha. injection Hb as Hb.
    destruct (IH b m n Ha Fa Hb Fb) as [L F].
    split; [simpl; now rewrite L |].
    constructor; [now apply length_plus_1j_times | exact F].
Qed.

Lemma length_add x : forall y n,
  List.length x = n -> List.length y = n -> List.length (Np.add x y) = n.
Proof.
  induction x as [|a x IH]; intros [|b y] n Hx Hy; simpl in *; try congruence.
  destruct n as [|n]; [discriminate |]. f_equal. apply IH; congruence.
Qed.

Lemma length_scale alpha x : List.length (Np.scale alpha x) = List.length x.
Proof. apply length_map. Qed.

Lemma length_matvec A x : List.length (Np.matvec A x) = List.length A.
Proof. apply length_map. Qed.

Lemma shape_map (f : vec -> vec) m n A :
  (forall r, List.length (f r) = List.length r) ->
  shape m n A -> shape m n (map f A).
Proof.
  intros Hf [L F]. split; [now rewrite length_map |].
  apply Forall_map. eapply Forall_impl; [| exact F].
  intros r Hr. cbn beta. now rewrite Hf.
Qed.

Lemma shape_mscale alpha m n A : shape m n A -> shape m n (Np.mscale alpha A).
Proof. apply shape_map. intros r. apply length_map. Qed.

Lemma shape_mconj m n A : shape m n A -> shape m n (Np.mconj A).
Proof. apply shape_map. intros r. apply length_map. Qed.

Lemma shape_mdiv_scalar k m n A :
  shape m n A -> shape m n (Np.mdiv_scalar A k).
Proof. apply (shape_map (fun r => Np.div_scalar r k)). intros r. apply length_map. Qed.

Lemma shape_madd A : forall B m n,
  shape m n A -> shape m n B -> shape m n (Np.madd A B).
Proof.
  induction A as [|r A IH]; intros [|s B] m n [LA FA] [LB FB]; simpl in *.
  - split; [exact LA | constructor].
  - exfalso. congruence.
  - exfalso. congruence.
  - apply Forall_cons_iff in FA as [Fr FA].
    apply Forall_cons_iff in FB as [Fs FB].
    destruct m as [|m]; [discriminate |].
    injection LA as LA. injection LB as LB.
    destruct (IH B m n (conj LA FA) (conj LB FB)) as [L F].
    split; [simpl; now rewrite L |].
    constructor; [now apply length_add | exact F].
Qed.

Lemma shape_transpose_cols n : forall m A,
  shape m n A -> shape n m (Np.transpose_cols n A).
Proof.
  induction n as [|n IH]; intros m A [L F]; simpl.
  - split; [reflexivity | constructor].
  - destruct (IH m (map (@tl _) A)) as [L' F'].
    + split; [now rewrite length_map |].
      apply Forall_map. eapply Forall_impl; [| exact F].
      intros r Hr. cbn beta. destruct r; [discriminate | simpl in *; lia].
    + split; [simpl; now rewrite L' |].
      constructor; [now rewrite length_map | exact F'].
Qed.

Lemma shape_T m n A : (0 < m)%nat -> shape m n A -> shape n m (Np.T A).
Proof.
  intros Hm [L F]. unfold Np.T.
  destruct A as [|r A]; [simpl in L; lia |].
  pose proof (Forall_inv F) as Hr. simpl in Hr. simpl hd. rewrite Hr.
  apply shape_transpose_cols. now split.
Qed.

Lemma shape_hermitian_part n A :
  shape n n A -> shape n n (hermitian_part A).
Proof.
  intros H. unfold hermitian_part.
  destruct n as [|n].
  - destruct H as [L _]. destruct A; [| discriminate]. split; [reflexivity | constructor].
  - apply shape_mdiv_scalar, shape_madd; [exact H |].
    apply shape_T; [lia |]. now apply shape_mconj.
Qed.

Lemma shape_matmul m k n A B :
  (0 < k)%nat -> shape m k A -> shape k n B -> shape m n (Np.matmul A B).
Proof.
  intros Hk [LA FA] HB. unfold Np.matmul.
  destruct (shape_T _ _ _ Hk HB) as [LT _].
  split; [now rewrite length_map |].
  apply Forall_map, Forall_forall. intros r _. cbn beta.
  now rewrite length_map.
Qed.

Lemma length_triu_row i r : forall j,
  List.length (Np.triu_row i j r) = List.length r.
Proof.
  induction r as [|a r IH]; intros j; simpl; [reflexivity | now rewrite IH].
Qed.

Lemma shape_triu_rows A : forall i m n,
  shape m n A -> shape m n (Np.triu_rows i A).
Proof.
  induction A as [|r A IH]; intros i m n [L F]; simpl.
  - split; [exact L | constructor].
  - apply Forall_cons_iff in F as [Fr F].
    destruct m as [|m]; [discriminate |]. injection L as L.
    destruct (IH (S i) m n (conj L F)) as [L' F'].
    split; [simpl; now rewrite L' |].
    constructor; [now rewrite length_triu_row | exact F'].
Qed.

Lemma shape_triu64 m n A : shape m n A -> shape m n (Np.triu64 A).
Proof. apply shape_triu_rows. Qed.

Lemma shape_outer64 x y :
  shape (List.length x) (List.length y) (Np.outer64 x y).
Proof.
  unfold Np.outer64. split; [now rewrite length_map |].
  apply Forall_map, Forall_forall. intros a _. cbn beta. now rewrite length_map.
Qed.

Section AnyLibrary.

Variable np : Np.api.

Local Abbreviation advance := (Fixture.advance np).
Local Abbreviation draws := (Fixture.draws np).
Local Abbreviation draws2 := (Fixture.draws2 np).
Local Abbreviation with_rng := (Fixture.with_rng np).

Lemma advance_add a b g : advance (a + b) g = advance b (advance a g).
Proof. revert g. induction a as [|a IH]; intros g; simpl; [reflexivity | apply IH]. Qed.

Lemma with_rng_rng (st : state np) : with_rng st (rng np st) = st.
Proof. now destruct st. Qed.

Lemma bind_run {A B : Type} (c : gen np A) (k : A -> gen np B) st a st1 :
  c st = inr (a, st1) -> bind np c k st = k a st1.
Proof. unfold bind. now intros ->. Qed.

(** [np.random.randn(n)] makes the next [n] draws and nothing else. *)
Lemma randn_run n : forall st,
  randn np n st = inr (draws n (rng np st), with_rng st (advance n (rng np st))).
Proof.
  induction n as [|n IH]; intros st; simpl.
  - now rewrite with_rng_rng.
  - unfold bind at 1. unfold standard_normal at 1.
    destruct (Np.standard_normal np (rng np st)) as [x g] eqn:E.
    unfold bind at 1. rewrite IH. reflexivity.
Qed.

Lemma randn2_run m n : forall st,
  randn2 np m n st
  = inr (draws2 m n (rng np st), with_rng st (advance (m * n) (rng np st))).
Proof.
  induction m as [|m IH]; intros st; simpl.
  - now rewrite with_rng_rng.
  - unfold bind at 1. rewrite randn_run. unfold bind at 1. rewrite IH.
    cbn [ret rng Fixture.with_rng]. now rewrite advance_add.
Qed.

Lemma random_vector_run n st :
  random_vector np n st
  = inr (plus_1j_times (draws n (rng np st))
           (draws n (advance n (rng np st))),
         with_rng st (advance (2 * n) (rng np st))).
Proof.
  unfold random_vector. unfold bind at 1. rewrite randn_run.
  unfold bind at 1. rewrite randn_run.
  cbn [ret rng Fixture.with_rng]. rewrite <- advance_add.
  now replace (n + n)%nat with (2 * n)%nat by lia.
Qed.

Lemma random_matrix_run m n st :
  random_matrix np m n st
  = inr (plus_1j_times2 (draws2 m n (rng np st))
           (draws2 m n (advance (m * n) (rng np st))),
         with_rng st (advance (2 * (m * n)) (rng np st))).
Proof.
  unfold random_matrix. unfold bind at 1. rewrite randn2_run.
  unfold bind at 1. rewrite randn2_run.
  cbn [ret rng Fixture.with_rng]. rewrite <- advance_add.
  now replace (m * n + m * n)%nat with (2 * (m * n))%nat by lia.
Qed.

Lemma length_draws n : forall g, List.length (draws n g) = n.
Proof. induction n as [|n IH]; intros g; simpl; [reflexivity | now rewrite IH]. Qed.

Lemma shape_draws2 m n : forall g,
  List.length (draws2 m n g) = m
  /\ Forall (fun r => List.length r = n) (draws2 m n g).
Proof.
  induction m as [|m IH]; intros g; simpl.
  - split; [reflexivity | constructor].
  - destruct (IH (advance n g)) as [L F].
    split; [now rewrite L | constructor; [apply length_draws | exact F]].
Qed.

(** A random vector: [2 n] draws, [n] elements, no failure. *)
Lemma random_vector_shape n st :
  exists x, List.length x = n
            /\ random_vector np n st
                = inr (x, with_rng st (advance (2 * n) (rng np st))).
Proof.
  eexists. split; [| apply random_vector_run].
  apply length_plus_1j_times; apply length_draws.
Qed.

(** A random matrix: [2 m n] draws, [m] rows of [n], no failure. *)
Lemma random_matrix_shape m n st :
  exists A, shape m n A
            /\ random_matrix np m n st
                = inr (A, with_rng st (advance (2 * (m * n)) (rng np st))).
Proof.
  eexists. split; [| apply random_matrix_run].
  destruct (shape_draws2 m n (rng np st)) as [L1 F1].
  destruct (shape_draws2 m n (advance (m * n) (rng np st))) as [L2 F2].
  now apply shape_plus_1j_times2.
Qed.

(** One round of the loop of [generate_level1_tests]: [4 n] draws, no
    failure, and a test case whose vectors have [n] elements. *)
Lemma level1_test_case_run n st :
  exists tc,
    level1_test_case np n st
    = inr (VDict tc, with_rng st (advance (4 * n) (rng np st)))
    /\ level1_shape tc.
Proof.
  destruct (random_vector_shape n st) as (x & Lx & Ex).
  destruct (random_vector_shape n (with_rng st (advance (2 * n) (rng np st))))
    as (y & Ly & Ey).
  unfold level1_test_case.
  rewrite (bind_run _ _ _ _ _ Ex), (bind_run _ _ _ _ _ Ey).
  cbn [rng Fixture.with_rng test_data stdout files ret].
  rewrite <- advance_add.
  replace (2 * n + 2 * n)%nat with (4 * n)%nat by lia.
  eexists. split; [reflexivity |].
  exists n. split; [reflexivity |]. split; [| split].
  - eexists. split; [reflexivity |]. now exists x.
  - intros v [= <-]. now exists y.
  - intros k v [<-|[<-|[<-|[]]]] [= <-].
    + exists (Np.scale (Complex 2.5 (-1.5)) x). split; [reflexivity |].
      now rewrite length_scale.
    + eexists. split; [reflexivity |].
      apply length_add; [now rewrite length_scale | exact Ly].
    + now exists x.
Qed.

(** A loop whose rounds draw and do not fail draws the sum of what the
    rounds draw, and does not fail. *)
Lemma for_each_run {A B : Type} (body : A -> gen np B) (cost : A -> nat)
    (P : B -> Prop) (xs : list A) :
  (forall x st, In x xs ->
     exists b, body x st
               = inr (b, with_rng st (advance (cost x) (rng np st))) /\ P b) ->
  forall st,
    exists bs,
      for_each np xs body st
      = inr (bs, with_rng st (advance (list_sum (map cost xs)) (rng np st)))
      /\ Forall P bs /\ List.length bs = List.length xs.
Proof.
  induction xs as [|x xs IH]; intros Hb st.
  - exists []. simpl. rewrite with_rng_rng. repeat split. constructor.
  - destruct (Hb x st (or_introl eq_refl)) as (b & Eb & Pb).
    destruct (IH (fun y s Hy => Hb y s (or_intror Hy))
                 (with_rng st (advance (cost x) (rng np st))))
      as (bs & Ebs & Pbs & L).
    exists (b :: bs). cbn [for_each].
    rewrite (bind_run _ _ _ _ _ Eb), (bind_run _ _ _ _ _ Ebs).
    cbn [ret rng Fixture.with_rng map list_sum fold_right].
    rewrite <- advance_add. repeat split.
    + now constructor.
    + simpl. now rewrite L.
Qed.

(** One round of the loop of [generate_level3_tests]: no failure, and a
    test case whose matrices have the sizes it declares. *)
Lemma level3_test_case_run m k n st :
  (0 < k)%nat ->
  exists tc,
    level3_test_case np (m, k, n) st
    = inr (VDict tc,
           with_rng st
             (advance (2 * (m * k) + 2 * (k * n) + 2 * (m * n)) (rng np st)))
    /\ level3_shape tc.
Proof.
  intros Hk.
  destruct (random_matrix_shape m k st) as (A & SA & EA).
  destruct (random_matrix_shape k n
              (with_rng st (advance (2 * (m * k)) (rng np st))))
    as (B & SB & EB).
  destruct (random_matrix_shape m n
              (with_rng (with_rng st (advance (2 * (m * k)) (rng np st)))
                 (advance (2 * (k * n))
                    (rng np (with_rng st (advance (2 * (m * k)) (rng np st)))))))
    as (C & SC & EC).
  unfold level3_test_case.
  rewrite (bind_run _ _ _ _ _ EA), (bind_run _ _ _ _ _ EB),
    (bind_run _ _ _ _ _ EC).
  cbn [rng Fixture.with_rng test_data stdout files].
  rewrite <- !advance_add.
  assert (G : shape m n
                (Np.madd (Np.matmul (Np.mscale (Complex 2 (-1)) A) B)
                   (Np.mscale (Complex 1 0.5) C))).
  { apply shape_madd; [| now apply shape_mscale].
    apply (shape_matmul m k n); [exact Hk | now apply shape_mscale | exact SB]. }
  destruct ((m =? n)%nat && (n =? k)%nat) eqn:E.
  - apply andb_prop in E as [E1 E2].
    apply Nat.eqb_eq in E1, E2. subst m k.
    eexists. split; [reflexivity |].
    exists n, n, n. repeat split; try reflexivity.
    + eexists. split; [reflexivity |]. now exists A.
    + eexists. split; [reflexivity |]. now exists B.
    + eexists. split; [reflexivity |]. now exists C.
    + eexists. split; [reflexivity |]. holds_here. exact G.
    + destruct H as [<-|[<-|[]]]; injection H0 as <-; holds_here;
        now apply shape_hermitian_part.
    + intros key v [<-|[<-|[]]] [= <-]; holds_here.
      * apply shape_madd; [| now apply shape_mscale].
        apply (shape_matmul n n n); [exact Hk | | exact SB].
        now apply shape_mscale, shape_hermitian_part.
      * apply shape_madd.
        -- apply (shape_matmul n n n); [exact Hk | now apply shape_mscale |].
           apply shape_T; [exact Hk | now apply shape_mconj].
        -- now apply shape_mscale, shape_hermitian_part.
  - eexists. split; [reflexivity |].
    exists m, k, n. repeat split; try reflexivity.
    + eexists. split; [reflexivity |]. now exists A.
    + eexists. split; [reflexivity |]. now exists B.
    + eexists. split; [reflexivity |]. now exists C.
    + eexists. split; [reflexivity |]. holds_here. exact G.
    + destruct H as [<-|[<-|[]]]; discriminate H0.
    + destruct H as [<-|[<-|[]]]; discriminate H0.
    + destruct H as [<-|[<-|[]]]; discriminate H0.
    + intros key v [<-|[<-|[]]] H; discriminate H.
Qed.

Lemma bind_fail {A B : Type} (c : gen np A) (k : A -> gen np B) st e :
  c st = inl e -> bind np c k st = inl e.
Proof. unfold bind. now intros ->. Qed.

(** A loop whose rounds draw, and fail or not, draws the sum of what the
    rounds draw when it ends, and fails with the failure of a round. *)
Lemma for_each_cases {A B : Type} (body : A -> gen np B) (cost : A -> nat)
    (P : B -> Prop) (Q : A -> exn -> Prop) (xs : list A) :
  (forall x st, In x xs ->
     (exists b, body x st
                = inr (b, with_rng st (advance (cost x) (rng np st))) /\ P b)
     \/ (exists e, body x st = inl e /\ Q x e)) ->
  forall st,
    (exists bs,
       for_each np xs body st
       = inr (bs, with_rng st (advance (list_sum (map cost xs)) (rng np st)))
       /\ Forall P bs /\ List.length bs = List.length xs)
    \/ (exists e x, for_each np xs body st = inl e /\ In x xs /\ Q x e).
Proof.
  induction xs as [|x xs IH]; intros Hb st.
  - left. exists []. simpl. rewrite with_rng_rng. repeat split. constructor.
  - cbn [for_each].
    destruct (Hb x st (or_introl eq_refl)) as [(b & Eb & Pb)|(e & Ee & Qe)].
    + rewrite (bind_run _ _ _ _ _ Eb).
      destruct (IH (fun y s Hy => Hb y s (or_intror Hy))
                   (with_rng st (advance (cost x) (rng np st))))
        as [(bs & Ebs & Pbs & L)|(e & y & Ee & Hy & Qe)].
      * left. exists (b :: bs). rewrite (bind_run _ _ _ _ _ Ebs).
        cbn [ret rng Fixture.with_rng map list_sum fold_right].
        rewrite <- advance_add. repeat split.
        -- now constructor.
        -- simpl. now rewrite L.
      * right. exists e, y. rewrite (bind_fail _ _ _ _ Ee).
        repeat split; [now right | exact Qe].
    + right. exists e, x. rewrite (bind_fail _ _ _ _ Ee).
      repeat split; [now left | exact Qe].
Qed.

(** [generate_level1_tests] does not fail: it makes 80 draws and stores
    seven test cases of the sizes they declare. *)
Lemma generate_level1_tests_run st :
  exists tests st',
    generate_level1_tests np st = inr (tt, st')
    /\ test_data np st' = dict_set (test_data np st) "level1" (VList tests)
    /\ rng np st' = advance 80 (rng np st)
    /\ List.length tests = 7%nat
    /\ Forall (fun v => exists tc, v = VDict tc /\ level1_shape tc) tests.
Proof.
  unfold generate_level1_tests. unfold bind at 1. cbn [print].
  match goal with
  | |- context [bind _ (for_each _ ?xs ?body) _ ?s] =>
      destruct (for_each_run body (fun n => 4 * n)%nat
                  (fun v => exists tc, v = VDict tc /\ level1_shape tc) xs)
        with (st := s) as (bs & E & P & L)
  end.
  { intros n s _. destruct (level1_test_case_run n s) as (tc & E & Sh).
    exists (VDict tc). split; [exact E | now exists tc]. }
  rewrite (bind_run _ _ _ _ _ E). unfold set_test_data.
  do 2 eexists. split; [reflexivity |].
  cbn [test_data rng Fixture.with_rng stdout files].
  repeat split.
  - rewrite length_app, L. reflexivity.
  - apply Forall_app. split; [exact P |].
    unfold generate_special_cases_level1.
    repeat constructor.
    + eexists. split; [reflexivity |]. exists 3%nat.
      split; [reflexivity |]. split; [| split].
      * eexists. split; [reflexivity |]. now holds_here.
      * intros v [= <-]. now holds_here.
      * intros k v [<-|[<-|[<-|[]]]] H; discriminate H.
    + eexists. split; [reflexivity |]. exists 3%nat.
      split; [reflexivity |]. split; [| split].
      * eexists. split; [reflexivity |]. now holds_here.
      * intros v [= <-]. now holds_here.
      * intros k v [<-|[<-|[<-|[]]]] H; discriminate H.
    + eexists. split; [reflexivity |]. exists 1%nat.
      split; [reflexivity |]. split; [| split].
      * eexists. split; [reflexivity |]. now holds_here.
      * intros v H; discriminate H.
      * intros k v [<-|[<-|[<-|[]]]] H; discriminate H.
Qed.

(** [generate_level3_tests] does not fail: it makes 158 draws and stores
    three test cases of the sizes they declare. *)
Lemma generate_level3_tests_run st :
  exists tests st',
    generate_level3_tests np st = inr (tt, st')
    /\ test_data np st' = dict_set (test_data np st) "level3" (VList tests)
    /\ rng np st' = advance 158 (rng np st)
    /\ List.length tests = 3%nat
    /\ Forall (fun v => exists tc, v = VDict tc /\ level3_shape tc) tests.
Proof.
  unfold generate_level3_tests. unfold bind at 1. cbn [print].
  match goal with
  | |- context [bind _ (for_each _ ?xs ?body) _ ?s] =>
      destruct (for_each_run body
                  (fun '(m, k, n) =>
                     2 * (m * k) + 2 * (k * n) + 2 * (m * n))%nat
                  (fun v => exists tc, v = VDict tc /\ level3_shape tc) xs)
        with (st := s) as (bs & E & P & L)
  end.
  { intros [[m k] n] s Hin.
    assert (Hk : (0 < k)%nat).
    { destruct Hin as [[= <- <- <-]|[[= <- <- <-]|[[= <- <- <-]|[]]]]; lia. }
    destruct (level3_test_case_run m k n s Hk) as (tc & E & Sh).
    exists (VDict tc). split; [exact E | now exists tc]. }
  rewrite (bind_run _ _ _ _ _ E). unfold set_test_data.
  do 2 eexists. split; [reflexivity |].
  cbn [test_data rng Fixture.with_rng stdout files].
  repeat split; [exact L | exact P].
Qed.

End AnyLibrary.

(** ** The triangular solve in a run *)

Lemma back_substitution_length rows : forall bs i xs,
  LinAlg.back_substitution complex c_zero c_add c_sub c_mul c_div
    (fun d => c_eqb d c_zero) i rows bs = inr xs ->
  List.length bs = List.length rows -> List.length xs = List.length rows.
Proof.
  induction rows as [|r rows IH]; intros bs i xs H L; simpl in H.
  - now injection H as <-.
  - destruct bs as [|bi bs]; [discriminate L |].
    destruct (LinAlg.back_substitution _ _ _ _ _ _ _ (S i) rows bs)
      as [e|ys] eqn:E; [discriminate H |].
    destruct (c_eqb (nth i r c_zero) c_zero); [discriminate H |].
    injection H as <-. simpl. f_equal. apply (IH bs (S i)); [exact E |].
    now injection L.
Qed.

(** A solve that fails has met a zero on the diagonal. *)
Lemma back_substitution_fails rows : forall bs i e,
  LinAlg.back_substitution complex c_zero c_add c_sub c_mul c_div
    (fun d => c_eqb d c_zero) i rows bs = inl e ->
  e = LinAlgError "Singular matrix"
  /\ exists k, (k < List.length rows)%nat
              /\ c_eqb (nth (i + k) (nth k rows []) c_zero) c_zero = true.
Proof.
  induction rows as [|r rows IH]; intros bs i e H; simpl in H;
    [discriminate H |].
  destruct bs as [|bi bs]; [discriminate H |].
  destruct (LinAlg.back_substitution _ _ _ _ _ _ _ (S i) rows bs)
    as [e'|ys] eqn:E.
  - injection H as <-. destruct (IH _ _ _ E) as (-> & k & Hk & Hz).
    split; [reflexivity |]. exists (S k). split; [simpl; lia |].
    now rewrite Nat.add_succ_r.
  - destruct (c_eqb (nth i r c_zero) c_zero) eqn:Z; [| discriminate H].
    injection H as <-. split; [reflexivity |].
    exists 0%nat. split; [simpl; lia |]. now rewrite Nat.add_0_r.
Qed.

(** [np.triu] leaves the entries on and above the diagonal as they are. *)
Lemma nth_triu_row i r : forall j0 j,
  nth j (Np.triu_row i j0 r) c_zero
  = if (j0 + j <? i)%nat then c_zero else nth j r c_zero.
Proof.
  induction r as [|a r IH]; intros j0 j; simpl.
  - destruct j; now destruct (_ <? _)%nat.
  - destruct j as [|j].
    + now rewrite Nat.add_0_r.
    + rewrite IH. now rewrite Nat.add_succ_r.
Qed.

Lemma nth_triu_rows A : forall i k,
  nth k (Np.triu_rows i A) [] = Np.triu_row (i + k) 0 (nth k A []).
Proof.
  induction A as [|r A IH]; intros i k; simpl.
  - now destruct k.
  - destruct k as [|k]; [now rewrite Nat.add_0_r |].
    rewrite IH. now rewrite Nat.add_succ_r.
Qed.

Lemma at_triu64 A i j :
  at_ (Np.triu64 A) i j = if (j <? i)%nat then c_zero else at_ A i j.
Proof.
  unfold at_, Np.triu64. now rewrite nth_triu_rows, nth_triu_row.
Qed.

(** ** Runs on NumPy *)

Section NumPy.

Variable R : Type.
Variable seed : Z -> R.
Variable normal : R -> float * R.
Variable hypot : float -> float -> float.

Local Abbreviation np := (Np64.numpy64 R seed normal hypot).
Local Abbreviation advance := (Fixture.advance np).
Local Abbreviation draws2 := (Fixture.draws2 np).
Local Abbreviation with_rng := (Fixture.with_rng np).
Local Abbreviation fails_on := (Fixture.fails_on np).

(** One round of the loop of [generate_level2_tests] ends in one of two
    ways: with a test case of the sizes it declares, or, for a square
    base matrix, with the failure of the triangular solve. *)
Lemma level2_test_case_cases m n st :
  (exists tc,
     level2_test_case np (m, n) st
     = inr (VDict tc,
            with_rng st
              (advance (2 * (m * n) + 2 * n + 2 * m
                        + (if (m =? n)%nat then 2 * n else 0)) (rng np st)))
     /\ level2_shape tc)
  \/ (m = n
      /\ exists e,
           level2_test_case np (m, n) st = inl e /\ fails_on n e).
Proof.
  destruct (Nat.eq_dec m n) as [->|Hne].
  - rewrite Nat.eqb_refl.
    pose proof (random_matrix_run np n n st) as EA.
    destruct (random_matrix_shape np n n st) as (A & SA & EA').
    rewrite EA in EA'. injection EA' as HA. symmetry in HA.
    destruct (random_vector_shape np n
                (with_rng st (advance (2 * (n * n)) (rng np st))))
      as (x & Lx & Ex).
    destruct (random_vector_shape np n
                (with_rng (with_rng st (advance (2 * (n * n)) (rng np st)))
                   (advance (2 * n)
                      (rng np (with_rng st (advance (2 * (n * n)) (rng np st)))))))
      as (y & Ly & Ey).
    unfold level2_test_case.
    rewrite (bind_run _ _ _ _ _ _ EA), (bind_run _ _ _ _ _ _ Ex),
      (bind_run _ _ _ _ _ _ Ey).
    rewrite <- HA. clear EA. rewrite Nat.eqb_refl.
    match goal with
    | |- context [bind _ (random_vector _ n) _ ?s] =>
        destruct (random_vector_shape np n s) as (b & Lb & Eb);
        rewrite (bind_run _ _ _ _ _ _ Eb)
    end.
    cbn [rng Fixture.with_rng test_data stdout files Np.triu Np.linalg_solve
         Np64.numpy64] in *.
    unfold bind, lift.
    destruct (Np64.linalg_solve64 (Np.triu64 A) b) as [e|sol] eqn:S.
    + right. split; [reflexivity |].
      exists e. split; [reflexivity |].
      exists (rng np st), b. split; [exact Lb |].
      unfold Fixture.random_base. cbn [Np.triu Np.linalg_solve Np64.numpy64].
      now rewrite <- HA.
    + left. rewrite <- !advance_add.
      eexists. split; [reflexivity |].
      assert (Ls : List.length sol = n).
      { destruct (shape_triu64 _ _ _ SA) as [LU _].
        rewrite <- LU. apply (back_substitution_length _ b 0%nat); [exact S |].
        congruence. }
      exists n, n. repeat split; try reflexivity.
      * eexists. split; [reflexivity |]. now exists A.
      * eexists. split; [reflexivity |]. now exists x.
      * eexists. split; [reflexivity |]. now exists y.
      * destruct H as [<-|[<-|[]]]; injection H0 as <-; holds_here;
          [now apply shape_hermitian_part | now apply shape_triu64].
      * intros v [= <-]. now exists b.
      * intros v [= <-]. holds_here.
        apply length_add; [| now rewrite length_scale].
        rewrite length_matvec.
        now destruct (shape_mscale (Complex 1.5 0.5) _ _ _ SA).
      * intros k v [<-|[<-|[<-|[]]]] [= <-]; holds_here.
        -- apply length_add; [| now rewrite length_scale].
           rewrite length_matvec.
           now destruct (shape_mscale (Complex 1.5 0.5) _ _ _
                           (shape_hermitian_part _ _ SA)).
        -- rewrite length_matvec. now destruct (shape_triu64 _ _ _ SA).
        -- exact Ls.
      * intros k v [<-|[<-|[<-|[]]]] H; discriminate H.
  - left. apply Nat.eqb_neq in Hne. rewrite Hne.
    destruct (random_matrix_shape np m n st) as (A & SA & EA).
    destruct (random_vector_shape np n
                (with_rng st (advance (2 * (m * n)) (rng np st))))
      as (x & Lx & Ex).
    destruct (random_vector_shape np m
                (with_rng (with_rng st (advance (2 * (m * n)) (rng np st)))
                   (advance (2 * n)
                      (rng np (with_rng st (advance (2 * (m * n)) (rng np st)))))))
      as (y & Ly & Ey).
    unfold level2_test_case.
    rewrite (bind_run _ _ _ _ _ _ EA), (bind_run _ _ _ _ _ _ Ex),
      (bind_run _ _ _ _ _ _ Ey).
    rewrite Hne.
    cbn [rng Fixture.with_rng test_data stdout files] in *.
    rewrite Nat.add_0_r, <- !advance_add.
    eexists. split; [reflexivity |].
    exists m, n. repeat split; try reflexivity.
    + eexists. split; [reflexivity |]. now exists A.
    + eexists. split; [reflexivity |]. now exists x.
    + eexists. split; [reflexivity |]. now exists y.
    + destruct H as [<-|[<-|[]]]; discriminate H0.
    + destruct H as [<-|[<-|[]]]; discriminate H0.
    + intros v H; discriminate H.
    + intros v [= <-]. holds_here.
      apply length_add; [| now rewrite length_scale].
      rewrite length_matvec.
      now destruct (shape_mscale (Complex 1.5 0.5) _ _ _ SA).
    + intros k v [<-|[<-|[<-|[]]]] H; discriminate H.
    + intros k v [<-|[<-|[<-|[]]]] H; discriminate H.
Qed.

(** The rank-1 test: 30 draws, no failure, 3 by 3 matrices. *)
Lemma generate_rank1_update_tests_run st :
  exists tc,
    generate_rank1_update_tests np st
    = inr ([VDict tc], with_rng st (advance 30 (rng np st)))
    /\ level2_shape tc.
Proof.
  destruct (random_matrix_shape np 3 3 st) as (A & SA & EA).
  destruct (random_vector_shape np 3
              (with_rng st (advance (2 * (3 * 3)) (rng np st))))
    as (x & Lx & Ex).
  destruct (random_vector_shape np 3
              (with_rng (with_rng st (advance (2 * (3 * 3)) (rng np st)))
                 (advance (2 * 3)
                    (rng np (with_rng st (advance (2 * (3 * 3)) (rng np st)))))))
    as (y & Ly & Ey).
  unfold generate_rank1_update_tests.
  rewrite (bind_run _ _ _ _ _ _ EA), (bind_run _ _ _ _ _ _ Ex),
    (bind_run _ _ _ _ _ _ Ey).
  cbn [rng Fixture.with_rng test_data stdout files Np.outer Np64.numpy64 ret].
  rewrite <- !advance_add.
  eexists. split; [reflexivity |].
  assert (O : forall u v, List.length u = 3%nat -> List.length v = 3%nat ->
                shape 3 3 (Np.outer64 u v)).
  { intros u v Lu Lv. pose proof (shape_outer64 u v) as H.
    now rewrite Lu, Lv in H. }
  assert (Lc : List.length (Np.conj y) = 3%nat)
    by (unfold Np.conj; now rewrite length_map).
  assert (Lcx : List.length (Np.conj x) = 3%nat)
    by (unfold Np.conj; now rewrite length_map).
  exists 3%nat, 3%nat. repeat split; try reflexivity.
  - eexists. split; [reflexivity |]. now exists A.
  - eexists. split; [reflexivity |]. now exists x.
  - eexists. split; [reflexivity |]. now exists y.
  - destruct H as [<-|[<-|[]]]; [| discriminate H0].
    injection H0 as <-. holds_here. now apply shape_hermitian_part.
  - intros v H; discriminate H.
  - intros v H; discriminate H.
  - intros k v [<-|[<-|[<-|[]]]] H; discriminate H.
  - intros k v [<-|[<-|[<-|[]]]] [= <-]; holds_here.
    + apply shape_madd; [exact SA |]. now apply shape_mscale, O.
    + apply shape_madd; [exact SA |]. now apply shape_mscale, O.
    + apply shape_madd; [now apply shape_hermitian_part |].
      now apply shape_mscale, O.
Qed.

(** [generate_level2_tests] ends with five test cases of the sizes they
    declare, after 162 draws, or fails with the failure of the triangular
    solve of the 2 by 2 or of the 3 by 3 case. *)
Lemma generate_level2_tests_cases st :
  (exists tests st',
     generate_level2_tests np st = inr (tt, st')
     /\ test_data np st' = dict_set (test_data np st) "level2" (VList tests)
     /\ rng np st' = advance 162 (rng np st)
     /\ List.length tests = 5%nat
     /\ Forall (fun v => exists tc, v = VDict tc /\ level2_shape tc) tests)
  \/ (exists e n,
        generate_level2_tests np st = inl e
        /\ (n = 2 \/ n = 3)%nat /\ fails_on n e).
Proof.
  unfold generate_level2_tests.
  rewrite !(bind_run _ (print np _) _ _ _ _ eq_refl).
  match goal with
  | |- context [bind _ (for_each _ ?xs ?body) _ ?s] =>
      destruct (for_each_cases np body
                  (fun '(m, n) =>
                     2 * (m * n) + 2 * n + 2 * m
                     + (if (m =? n)%nat then 2 * n else 0))%nat
                  (fun v => exists tc, v = VDict tc /\ level2_shape tc)
                  (fun '(m, n) e => m = n /\ fails_on n e) xs)
        with (st := s) as [(bs & E & P & L)|(e & [m n] & E & Hin & -> & F)]
  end.
  { intros [m n] s _.
    destruct (level2_test_case_cases m n s)
      as [(tc & E & Sh)|(-> & e & E & F)].
    - left. exists (VDict tc). split; [exact E | now exists tc].
    - right. exists e. split; [exact E |]. now split. }
  - left. rewrite (bind_run _ _ _ _ _ _ E).
    match goal with
    | |- context [bind _ (generate_rank1_update_tests _) _ ?s] =>
        destruct (generate_rank1_update_tests_run s) as (tc & E1 & Sh)
    end.
    rewrite (bind_run _ _ _ _ _ _ E1). unfold set_test_data.
    do 2 eexists. split; [reflexivity |].
    cbn [test_data rng Fixture.with_rng stdout files].
    rewrite <- advance_add. repeat split.
    + rewrite length_app, L. reflexivity.
    + apply Forall_app. split; [exact P |].
      constructor; [now exists tc | constructor].
  - right. exists e, n. rewrite (bind_fail _ _ _ _ _ E).
    split; [reflexivity |]. split; [| exact F].
    destruct Hin as [[= <-]|[[= <-]|[[= ? ?]|[[= ? ?]|[]]]]]; try lia.
Qed.

(** [generate_all_tests] ends with the three levels stored and saved after
    400 draws, or fails with the failure of [generate_level2_tests]. *)
Lemma generate_all_tests_cases (float_repr : float -> string) st :
  (exists l1 l2 l3 st',
     generate_all_tests np float_repr st = inr (tt, st')
     /\ test_data np st'
        = dict_set (dict_set (dict_set (test_data np st) "level1" (VList l1))
                      "level2" (VList l2)) "level3" (VList l3)
     /\ rng np st' = advance 400 (rng np st)
     /\ (List.length l1 = 7 /\ List.length l2 = 5 /\ List.length l3 = 3)%nat
     /\ Forall (fun v => exists tc, v = VDict tc /\ level1_shape tc) l1
     /\ Forall (fun v => exists tc, v = VDict tc /\ level2_shape tc) l2
     /\ Forall (fun v => exists tc, v = VDict tc /\ level3_shape tc) l3)
  \/ (exists e n,
        generate_all_tests np float_repr st = inl e
        /\ (n = 2 \/ n = 3)%nat /\ fails_on n e).
Proof.
  unfold generate_all_tests.
  destruct (generate_level1_tests_run np st)
    as (l1 & st1 & E1 & D1 & G1 & L1 & S1).
  rewrite (bind_run _ _ _ _ _ _ E1).
  destruct (generate_level2_tests_cases st1)
    as [(l2 & st2 & E2 & D2 & G2 & L2 & S2)|(e & n & E2 & Hn & F)].
  - rewrite (bind_run _ _ _ _ _ _ E2).
    destruct (generate_level3_tests_run np st2)
      as (l3 & st3 & E3 & D3 & G3 & L3 & S3).
    rewrite (bind_run _ _ _ _ _ _ E3).
    left. exists l1, l2, l3. eexists. split; [reflexivity |].
    cbn [test_data rng stdout files].
    rewrite D3, D2, D1, G3, G2, G1, <- !advance_add.
    repeat split; assumption.
  - right. exists e, n. rewrite (bind_fail _ _ _ _ _ E2). auto.
Qed.

Lemma shape_random_base n g : shape n n (Fixture.random_base np n g).
Proof.
  unfold Fixture.random_base.
  destruct (shape_draws2 np n n g) as [L1 F1].
  destruct (shape_draws2 np n n (advance (n * n) g)) as [L2 F2].
  now apply shape_plus_1j_times2.
Qed.

(** The solve fails with one exception only, on a base matrix with a zero
    on its diagonal. *)
Lemma fails_on_zero_diagonal n e :
  fails_on n e ->
  e = LinAlgError "Singular matrix"
  /\ exists g i, (i < n)%nat
                /\ c_eqb (at_ (Fixture.random_base np n g) i i) c_zero = true.
Proof.
  intros (g & b & Lb & H).
  cbn [Np.triu Np.linalg_solve Np64.numpy64] in H.
  destruct (back_substitution_fails _ _ _ _ H) as (-> & k & Hk & Hz).
  split; [reflexivity |]. exists g, k.
  destruct (shape_triu64 _ _ _ (shape_random_base n g)) as [LU _].
  split; [now rewrite <- LU |].
  pose proof (at_triu64 (Fixture.random_base np n g) k k) as T.
  rewrite Nat.ltb_irrefl in T. rewrite <- T. exact Hz.
Qed.

(** The whole script: the state is reset and seeded first, and the lines
    printed after [generate_all_tests] do not fail. *)
Lemma main_seeded_cases (float_repr : float -> string) s st :
  (exists l1 l2 l3 st',
     main_seeded np float_repr s st = inr (tt, st')
     /\ test_data np st'
        = [("level1", VList l1); ("level2", VList l2); ("level3", VList l3)]
     /\ rng np st' = advance 400 (seed s)
     /\ (List.length l1 = 7 /\ List.length l2 = 5 /\ List.length l3 = 3)%nat)
  \/ (exists e n,
        main_seeded np float_repr s st = inl e
        /\ (n = 2 \/ n = 3)%nat /\ fails_on n e).
Proof.
  unfold main_seeded.
  rewrite !(bind_run _ (init np s) _ _ _ _ eq_refl).
  match goal with
  | |- context [bind _ (generate_all_tests _ _) _ ?s0] =>
      destruct (generate_all_tests_cases float_repr s0)
        as [(l1 & l2 & l3 & st1 & E & D & G & L & _)|(e & n & E & Hn & F)]
  end.
  - left. exists l1, l2, l3. rewrite (bind_run _ _ _ _ _ _ E).
    eexists. split; [reflexivity |].
    cbn [test_data rng stdout files]. rewrite D, G. now repeat split.
  - right. exists e, n. rewrite (bind_fail _ _ _ _ _ E). auto.
Qed.

(** A round of the loop on a square base matrix with a zero on its
    diagonal ends with the failure of the triangular solve. *)
Lemma level2_test_case_fails n st :
  (exists i, (i < n)%nat
             /\ c_eqb (at_ (Fixture.random_base np n (rng np st)) i i) c_zero
                = true) ->
  level2_test_case np (n, n) st = inl (LinAlgError "Singular matrix").
Proof.
  intros (i & Hi & Hz). unfold level2_test_case.
  rewrite (bind_run _ _ _ _ _ _ (random_matrix_run np n n st)).
  rewrite (bind_run _ _ _ _ _ _ (random_vector_run np n _)).
  rewrite (bind_run _ _ _ _ _ _ (random_vector_run np n _)).
  rewrite Nat.eqb_refl.
  rewrite (bind_run _ _ _ _ _ _ (random_vector_run np n _)).
  apply bind_fail. unfold lift.
  cbn [Np.triu Np.linalg_solve Np64.numpy64 rng Fixture.with_rng].
  fold (Fixture.random_base np n (rng np st)).
  rewrite (SolveFacts.solve_upper_singular complex c_zero c_add c_sub c_mul
             c_div (fun d => c_eqb d c_zero) n); [reflexivity | |].
  - destruct (shape_triu64 _ _ _ (shape_random_base n (rng np st))) as [L F].
    split; [exact L |]. split; [| exact F].
    apply length_plus_1j_times; apply length_draws.
  - exists i. split; [exact Hi |].
    pose proof (at_triu64 (Fixture.random_base np n (rng np st)) i i) as T.
    rewrite Nat.ltb_irrefl in T. unfold at_ in T. unfold LinAlg.entry_at.
    rewrite T. exact Hz.
Qed.


(** X2 (what a run draws).  A run that ends normally has taken exactly 400
    numbers from the random generator, counted from the seeding: 80 at
    Level 1, 162 at Level 2 and 158 at Level 3. *)
Theorem generation_makes_400_draws
    (float_repr : float -> string) (s : Z) (st st' : state np) :
  main_seeded np float_repr s st = inr (tt, st') ->
  rng np st' = advance 400 (Np.random_seed np s).
Proof.
  intros H.
  destruct (main_seeded_cases float_repr s st)
    as [(l1 & l2 & l3 & st1 & E & _ & G & _)|(e & n & E & _)];
    rewrite E in H; [| discriminate H].
  injection H as <-. exact G.
Qed.

(** X3 (the levels of the fixture file).  A run that ends normally leaves
    exactly the keys [level1], [level2] and [level3] in the test data, in
    this order, with 7, 5 and 3 test cases, whatever the test data held
    before. *)
Theorem generation_stores_three_levels
    (float_repr : float -> string) (s : Z) (st st' : state np) :
  main_seeded np float_repr s st = inr (tt, st') ->
  exists l1 l2 l3,
    test_data np st'
    = [("level1", VList l1); ("level2", VList l2); ("level3", VList l3)]
    /\ (List.length l1 = 7 /\ List.length l2 = 5 /\ List.length l3 = 3)%nat.
Proof.
  intros H.
  destruct (main_seeded_cases float_repr s st)
    as [(l1 & l2 & l3 & st1 & E & D & _ & L)|(e & n & E & _)];
    rewrite E in H; [| discriminate H].
  injection H as <-. now exists l1, l2, l3.
Qed.

(** X5 (the sizes of the Level 2 fixtures).  When [generate_level2_tests]
    ends normally, the five test cases it stores have the sizes they
    declare: [A] is [m] by [n], [x] has [n] elements and [y] has [m], as
    [zgemv] has; [H] and [U] are there for square matrices only and are
    square, [b] and the results [zhemv], [ztrmv] and [ztrsv] have [n]
    elements, and the rank-1 results are [m] by [n]. *)
Theorem level2_fixtures_have_declared_sizes (st st' : state np) :
  generate_level2_tests np st = inr (tt, st') ->
  exists tests,
    dict_get (test_data np st') "level2" = Some (VList tests)
    /\ List.length tests = 5%nat
    /\ forall v, In v tests -> exists tc, v = VDict tc /\ level2_shape tc.
Proof.
  intros H.
  destruct (generate_level2_tests_cases st)
    as [(tests & st1 & E & D & _ & L & F)|(e & n & E & _)];
    rewrite E in H; [| discriminate H].
  injection H as <-. exists tests. rewrite D.
  split; [apply GenerateFacts.dict_get_set |]. split; [exact L |].
  now apply Forall_forall.
Qed.

End NumPy.

(** X4 (the sizes of the Level 1 fixtures).  Whatever the library and the
    state, [generate_level1_tests] ends normally and stores seven test
    cases: in each, [x] has [size] elements, and so have [y] and the
    results [zscal], [zaxpy] and [zcopy] when the test case has them. *)
Theorem level1_fixtures_have_declared_sizes (np : Np.api) (st : state np) :
  exists tests st',
    generate_level1_tests np st = inr (tt, st')
    /\ dict_get (test_data np st') "level1" = Some (VList tests)
    /\ List.length tests = 7%nat
    /\ forall v, In v tests -> exists tc, v = VDict tc /\ level1_shape tc.
Proof.
  destruct (generate_level1_tests_run np st) as (tests & st' & E & D & _ & L & F).
  exists tests, st'. split; [exact E |]. rewrite D.
  split; [apply GenerateFacts.dict_get_set |]. split; [exact L |].
  now apply Forall_forall.
Qed.

(** X6 (the sizes of the Level 3 fixtures).  Whatever the library and the
    state, [generate_level3_tests] ends normally and stores three test
    cases: in each, [A] is [m] by [k], [B] is [k] by [n], [C] and the
    result [zgemm] are [m] by [n]; [H], [C_herm], [zhemm] and [zherk] are
    there for [m = n = k] only and are [n] by [n]. *)
Theorem level3_fixtures_have_declared_sizes (np : Np.api) (st : state np) :
  exists tests st',
    generate_level3_tests np st = inr (tt, st')
    /\ dict_get (test_data np st') "level3" = Some (VList tests)
    /\ List.length tests = 3%nat
    /\ forall v, In v tests -> exists tc, v = VDict tc /\ level3_shape tc.
Proof.
  destruct (generate_level3_tests_run np st) as (tests & st' & E & D & _ & L & F).
  exists tests, st'. split; [exact E |]. rewrite D.
  split; [apply GenerateFacts.dict_get_set |]. split; [exact L |].
  now apply Forall_forall.
Qed.

(** *** The theorems at work *)

(** With a generator that always draws 1 no diagonal entry is zero. *)
Lemma ones_do_not_fail n e :
  (n = 2 \/ n = 3)%nat -> ~ Fixture.fails_on numpy_ones n e.
Proof.
  intros Hn F.
  destruct (fails_on_zero_diagonal unit (fun _ => tt) (fun g => (1%float, g))
              (fun a b => PrimFloat.sqrt (a * a + b * b)) n e F)
    as (_ & g & i & Hi & Hz).
  destruct g.
  destruct Hn as [-> | ->].
  - destruct i as [|[|i]]; [| | lia]; vm_compute in Hz; discriminate Hz.
  - destruct i as [|[|[|i]]]; [| | | lia]; vm_compute in Hz; discriminate Hz.
Qed.

Lemma main_seeded_ones_runs (float_repr : float -> string) s st :
  exists st', main_seeded numpy_ones float_repr s st = inr (tt, st').
Proof.
  destruct (main_seeded_cases unit (fun _ => tt) (fun g => (1%float, g))
              (fun a b => PrimFloat.sqrt (a * a + b * b)) float_repr s st)
    as [(l1 & l2 & l3 & st' & E & _)|(e & n & E & Hn & F)].
  - now exists st'.
  - destruct (ones_do_not_fail n e Hn F).
Qed.

Lemma generate_level2_tests_ones_runs st :
  exists st', generate_level2_tests numpy_ones st = inr (tt, st').
Proof.
  destruct (generate_level2_tests_cases unit (fun _ => tt)
              (fun g => (1%float, g))
              (fun a b => PrimFloat.sqrt (a * a + b * b)) st)
    as [(tests & st' & E & _)|(e & n & E & Hn & F)].
  - now exists st'.
  - destruct (ones_do_not_fail n e Hn F).
Qed.


Lemma generation_makes_400_draws_witness :
  exists st',
    main_seeded numpy_ones (fun _ => "1.0") 42 (State numpy_ones [] tt [] [])
    = inr (tt, st')
    /\ rng numpy_ones st'
       = Fixture.advance numpy_ones 400 (Np.random_seed numpy_ones 42).
Proof.
  destruct (main_seeded_ones_runs (fun _ => "1.0") 42
              (State numpy_ones [] tt [] [])) as [st' E].
  exists st'. split; [exact E |].
  exact (generation_makes_400_draws unit (fun _ => tt) (fun g => (1%float, g))
           (fun a b => PrimFloat.sqrt (a * a + b * b))
           (fun _ => "1.0") 42 (State numpy_ones [] tt [] []) st' E).
Defined.

Lemma generation_stores_three_levels_witness :
  exists st',
    main_seeded numpy_ones (fun _ => "1.0") 42
      (State numpy_ones [("stale", VInt 0)] tt [] [])
    = inr (tt, st')
    /\ exists l1 l2 l3,
         test_data numpy_ones st'
         = [("level1", VList l1); ("level2", VList l2); ("level3", VList l3)]
         /\ (List.length l1 = 7 /\ List.length l2 = 5
             /\ List.length l3 = 3)%nat.
Proof.
  destruct (main_seeded_ones_runs (fun _ => "1.0") 42
              (State numpy_ones [("stale", VInt 0)] tt [] [])) as [st' E].
  exists st'. split; [exact E |].
  exact (generation_stores_three_levels unit (fun _ => tt)
           (fun g => (1%float, g))
           (fun a b => PrimFloat.sqrt (a * a + b * b))
           (fun _ => "1.0") 42
           (State numpy_ones [("stale", VInt 0)] tt [] []) st' E).
Defined.

Lemma level2_fixtures_have_declared_sizes_witness :
  exists st',
    generate_level2_tests numpy_ones (State numpy_ones [] tt [] [])
    = inr (tt, st')
    /\ exists tests,
         dict_get (test_data numpy_ones st') "level2" = Some (VList tests)
         /\ List.length tests = 5%nat
         /\ forall v, In v tests ->
                      exists tc, v = VDict tc /\ level2_shape tc.
Proof.
  destruct (generate_level2_tests_ones_runs (State numpy_ones [] tt [] []))
    as [st' E].
  exists st'. split; [exact E |].
  exact (level2_fixtures_have_declared_sizes unit (fun _ => tt)
           (fun g => (1%float, g))
           (fun a b => PrimFloat.sqrt (a * a + b * b))
           (State numpy_ones [] tt [] []) st' E).
Defined.

End RunFacts.

(** * Binary64 arithmetic in the fixtures and the harness *)

Module FloatFacts.

Import Binary64 Generate Fixture.

Local Open Scope float_scope.

(** ** IEEE 754 values *)

Lemma SFadd_comm x y : SF64add x y = SF64add y x.
Proof.
  unfold SF64add, SFadd.
  destruct x as [sx|sx| |sx mx ex], y as [sy|sy| |sy my ey];
    try reflexivity; try (destruct sx, sy; reflexivity).
  replace (IntDef.Z.min ey ex) with (IntDef.Z.min ex ey) by apply Z.min_comm.
  f_equal. apply Z.add_comm.
Qed.

Lemma SFopp_involutive x : SFopp (SFopp x) = x.
Proof. destruct x as [s|s| |s m e]; simpl; now rewrite ?negb_involutive. Qed.

(** Rounding does not look at the sign. *)
Lemma binary_round_aux_opp s m e l :
  binary_round_aux prec emax (negb s) m e l
  = SFopp (binary_round_aux prec emax s m e l).
Proof.
  unfold binary_round_aux.
  destruct (shr_fexp prec emax m e l) as [mrs1 e1].
  destruct (shr_fexp prec emax _ e1 loc_Exact) as [mrs2 e2].
  destruct (shr_m mrs2); [reflexivity | | reflexivity].
  now destruct (IntDef.Z.leb e2 _).
Qed.

Lemma binary_round_opp s m e :
  binary_round prec emax (negb s) m e = SFopp (binary_round prec emax s m e).
Proof.
  unfold binary_round. destruct (shl_align m e _) as [mz ez].
  apply binary_round_aux_opp.
Qed.

Lemma SFmul_opp_l x y : SF64mul (SFopp x) y = SFopp (SF64mul x y).
Proof.
  unfold SF64mul, SFmul.
  destruct x as [sx|sx| |sx mx ex], y as [sy|sy| |sy my ey];
    try reflexivity; try (destruct sx, sy; reflexivity).
  cbn [SFopp].
  replace (xorb (negb sx) sy) with (negb (xorb sx sy)) by now destruct sx, sy.
  apply binary_round_aux_opp.
Qed.

Lemma SFmul_comm x y : SF64mul x y = SF64mul y x.
Proof.
  unfold SF64mul, SFmul.
  destruct x as [sx|sx| |sx mx ex], y as [sy|sy| |sy my ey];
    try reflexivity; try (destruct sx, sy; reflexivity).
  rewrite xorb_comm.
  replace (Pos.mul my mx) with (Pos.mul mx my) by apply Pos.mul_comm.
  replace (IntDef.Z.add ey ex) with (IntDef.Z.add ex ey) by apply Z.add_comm.
  reflexivity.
Qed.

(** [x - y] is [x + (-y)]. *)
Lemma SFsub_add_opp x y : SF64sub x y = SF64add x (SFopp y).
Proof.
  unfold SF64sub, SF64add, SFsub, SFadd.
  destruct x as [sx|sx| |sx mx ex], y as [sy|sy| |sy my ey];
    try reflexivity; destruct sx, sy; reflexivity.
Qed.

(** The two differences of two values are opposite, or both [+0.0]. *)
Lemma SFsub_swap x y :
  SF64add y (SFopp x) = SFopp (SF64add x (SFopp y))
  \/ (SF64add x (SFopp y) = S754_zero false
      /\ SF64add y (SFopp x) = S754_zero false).
Proof.
  destruct x as [sx|sx| |sx mx ex], y as [sy|sy| |sy my ey];
    try (left; reflexivity);
    try (destruct sx, sy; (left; reflexivity) || (right; split; reflexivity)).
  unfold SF64add, SFadd. cbn [SFopp].
  - replace (IntDef.Z.min ey ex) with (IntDef.Z.min ex ey) by apply Z.min_comm.
    set (X := Zpos (fst (shl_align mx ex (IntDef.Z.min ex ey)))).
    set (Y := Zpos (fst (shl_align my ey (IntDef.Z.min ex ey)))).
    assert (E : IntDef.Z.add (cond_Zopp sy Y) (cond_Zopp (negb sx) X)
                = Z.opp (IntDef.Z.add (cond_Zopp sx X) (cond_Zopp (negb sy) Y))).
    { change IntDef.Z.add with Z.add.
      destruct sx, sy; cbn [cond_Zopp negb]; change IntDef.Z.opp with Z.opp; lia. }
    rewrite E.
    destruct (IntDef.Z.add (cond_Zopp sx X) (cond_Zopp (negb sy) Y)) as [|p|p];
      cbn [Z.opp binary_normalize].
    + right. split; reflexivity.
    + left. apply (binary_round_opp false).
    + left. rewrite <- (binary_round_opp true). reflexivity.
Qed.

Lemma SFeqb_refl x : sf_finite x = true -> SFeqb x x = true.
Proof.
  destruct x as [s|s| |s m e]; try discriminate; intros _; [reflexivity |].
  unfold SFeqb, SFcompare. rewrite Z.compare_refl.
  assert (Pos.compare_cont Eq m m = Eq) as -> by apply Pos.compare_refl.
  now destruct s.
Qed.

Lemma SFeqb_zeros x y : sf_zero x = true -> sf_zero y = true -> SFeqb x y = true.
Proof. destruct x, y; try discriminate; reflexivity. Qed.

(** A value that equals its opposite is a zero. *)
Lemma SFeqb_opp_zero x : SFeqb x (SFopp x) = true -> sf_zero x = true.
Proof.
  destruct x as [s|s| |s m e]; try reflexivity; try discriminate;
    destruct s; discriminate.
Qed.

(** ** The Hermitian part, entry by entry

    With [z] the zero and [h] the half that Smith's division by [2 + 0j]
    multiplies with, the two parts of an entry are
    [(sr + si * z) * h] and [(si - sr * z) * h], where [sr] and [si] are
    the parts of the sum [a + conj(b)]; the mirror entry has the same
    [sr], and [si'] for [si]. *)
Lemma hermitian_entry_sf (mh : positive) (eh : Z) (sr si si' : spec_float) :
  let z := S754_zero false in
  let h := S754_finite false mh eh in
  let re u v := SF64mul (SF64add u (SF64mul v z)) h in
  let im u v := SF64mul (SF64sub v (SF64mul u z)) h in
  si' = SFopp si \/ (si = S754_zero false /\ si' = S754_zero false) ->
  sf_finite (re sr si) = true -> sf_finite (im sr si) = true ->
  SFeqb (re sr si) (re sr si') = true
  /\ SFeqb (im sr si) (SFopp (im sr si')) = true.
Proof.
  intros z h re im [->|[-> ->]] Hre Him; subst z h re im;
    unfold SF64mul, SF64add, SF64sub in *.
  - destruct sr as [[|]|[|]| |[|] mr er], si as [[|]|[|]| |[|] mi ei];
      cbn [SFmul SFadd SFsub SFopp xorb negb] in *;
      try discriminate;
      (split;
       [ first [apply SFeqb_refl; assumption | apply SFeqb_zeros; reflexivity]
       | rewrite <- ?(binary_round_aux_opp true),
           <- ?(binary_round_aux_opp false);
         cbn [negb];
         first [apply SFeqb_refl; assumption | apply SFeqb_zeros; reflexivity] ]).
  - destruct sr as [[|]|[|]| |[|] mr er];
      cbn [SFmul SFadd SFsub SFopp xorb negb] in *;
      try discriminate;
      (split;
       [ first [apply SFeqb_refl; assumption | apply SFeqb_zeros; reflexivity]
       | first [apply SFeqb_zeros; reflexivity] ]).
Qed.

(** ** Floats *)

Lemma isfinite_sf x : isfinite x = sf_finite (Prim2SF x).
Proof.
  unfold isfinite, is_nan, is_infinity. rewrite !eqb_spec, abs_spec.
  destruct (Prim2SF x) as [s|s| |s m e]; try reflexivity;
    try (destruct s; reflexivity).
  cbn [SFabs sf_finite].
  rewrite (SFeqb_refl (S754_finite s m e) eq_refl). reflexivity.
Qed.

Lemma add_comm (x y : float) : x + y = y + x.
Proof. apply Prim2SF_inj. rewrite !add_spec. apply SFadd_comm. Qed.

Lemma mul_comm (x y : float) : x * y = y * x.
Proof. apply Prim2SF_inj. rewrite !mul_spec. apply SFmul_comm. Qed.

Lemma sub_add_opp (x y : float) : x - y = x + - y.
Proof.
  apply Prim2SF_inj. rewrite sub_spec, add_spec, opp_spec.
  apply SFsub_add_opp.
Qed.

Lemma mul_opp_l (x y : float) : - x * y = - (x * y).
Proof.
  apply Prim2SF_inj. rewrite mul_spec, !opp_spec, mul_spec.
  apply SFmul_opp_l.
Qed.

Lemma opp_involutive (x : float) : - - x = x.
Proof. apply Prim2SF_inj. rewrite !opp_spec. apply SFopp_involutive. Qed.

(** Division by the Python number 2, cast to [2 + 0j]. *)
Lemma c_div_two (a : complex) :
  c_div a (of_float 2)
  = Complex ((real a + imag a * 0) * 0.5) ((imag a - real a * 0) * 0.5).
Proof. reflexivity. Qed.

(** An entry of [(A + A.conj().T) / 2] made of the entries [a] and [b]
    that mirror each other equals the conjugate of the mirror entry. *)
Lemma hermitian_entry (a b : complex) :
  c_isfinite (c_div (c_add a (c_conj b)) (of_float 2)) = true ->
  c_eqb (c_div (c_add a (c_conj b)) (of_float 2))
        (c_conj (c_div (c_add b (c_conj a)) (of_float 2))) = true.
Proof.
  rewrite !c_div_two. destruct a as [ar ai], b as [br bi].
  unfold c_isfinite, c_eqb. cbn [real imag c_add c_conj].
  rewrite !isfinite_sf, !eqb_spec.
  rewrite ?opp_spec, ?mul_spec, ?add_spec, ?sub_spec, ?opp_spec, ?mul_spec,
    ?add_spec, ?sub_spec, ?opp_spec, ?add_spec, ?opp_spec.
  change (Prim2SF 0) with (S754_zero false).
  change (Prim2SF 0.5) with (S754_finite false 4503599627370496 (-53)%Z).
  rewrite (SFadd_comm (Prim2SF br) (Prim2SF ar)).
  intros H. apply andb_prop in H as [Hre Him].
  apply andb_true_intro.
  exact (hermitian_entry_sf 4503599627370496 (-53)%Z
           (SF64add (Prim2SF ar) (Prim2SF br))
           (SF64add (Prim2SF ai) (SFopp (Prim2SF bi)))
           (SF64add (Prim2SF bi) (SFopp (Prim2SF ai)))
           (SFsub_swap (Prim2SF ai) (Prim2SF bi)) Hre Him).
Qed.

Lemma eqb_opp_zero (x : float) : (x =? - x) = true -> (x =? 0) = true.
Proof.
  rewrite !eqb_spec, opp_spec. change (Prim2SF 0) with (S754_zero false).
  intros H. apply SFeqb_opp_zero in H.
  now apply SFeqb_zeros.
Qed.

(** ** The Hermitian fixtures *)

Lemma nth_map_in {A B : Type} (f : A -> B) (l : list A) i d d' :
  (i < List.length l)%nat -> nth i (map f l) d' = f (nth i l d).
Proof.
  intros H. rewrite (nth_indep _ d' (f d)) by (rewrite length_map; lia).
  apply map_nth.
Qed.

Lemma shape_row m n A i :
  shape m n A -> (i < m)%nat -> List.length (nth i A []) = n.
Proof.
  intros [L F] Hi. rewrite Forall_forall in F. apply F, nth_In. lia.
Qed.

Lemma at_map (f : complex -> complex) m n A i j :
  shape m n A -> (i < m)%nat -> (j < n)%nat ->
  at_ (map (map f) A) i j = f (at_ A i j).
Proof.
  intros S Hi Hj. unfold at_.
  rewrite (nth_map_in (map f) A i []) by (destruct S; lia).
  apply nth_map_in. now rewrite (shape_row m n A i S Hi).
Qed.

Lemma nth_add x : forall y j,
  (j < List.length x)%nat -> (j < List.length y)%nat ->
  nth j (Np.add x y) c_zero = c_add (nth j x c_zero) (nth j y c_zero).
Proof.
  induction x as [|a x IH]; intros [|b y] j Hx Hy; simpl in *; try lia.
  destruct j as [|j]; [reflexivity |]. apply IH; lia.
Qed.

Lemma nth_madd A : forall B i,
  (i < List.length A)%nat -> (i < List.length B)%nat ->
  nth i (Np.madd A B) [] = Np.add (nth i A []) (nth i B []).
Proof.
  induction A as [|r A IH]; intros [|s B] i HA HB; simpl in *; try lia.
  destruct i as [|i]; [reflexivity |]. apply IH; lia.
Qed.

Lemma at_madd m n A B i j :
  shape m n A -> shape m n B -> (i < m)%nat -> (j < n)%nat ->
  at_ (Np.madd A B) i j = c_add (at_ A i j) (at_ B i j).
Proof.
  intros SA SB Hi Hj. unfold at_.
  rewrite nth_madd by (destruct SA, SB; lia).
  apply nth_add;
    [rewrite (shape_row m n A i SA Hi) | rewrite (shape_row m n B i SB Hi)];
    exact Hj.
Qed.

Lemma nth_transpose_cols n : forall A i,
  (i < n)%nat ->
  nth i (Np.transpose_cols n A) [] = map (fun r => nth i r c_zero) A.
Proof.
  induction n as [|n IH]; intros A i Hi; [lia |]. simpl.
  destruct i as [|i].
  - apply map_ext. now intros [|a r].
  - rewrite IH by lia. rewrite map_map. apply map_ext.
    intros [|a r]; [now destruct i | reflexivity].
Qed.

Lemma at_T m n A i j :
  shape m n A -> (i < n)%nat -> (j < m)%nat -> at_ (Np.T A) i j = at_ A j i.
Proof.
  intros S Hi Hj. unfold at_, Np.T.
  assert (H0 : List.length (hd [] A) = n).
  { destruct A as [|r A]; [destruct S; simpl in *; lia |].
    destruct S as [_ F]. exact (Forall_inv F). }
  rewrite H0, nth_transpose_cols by exact Hi.
  rewrite (nth_map_in (fun r => nth i r c_zero) A j []) by (destruct S; lia).
  reflexivity.
Qed.

(** The entries of [(A + A.conj().T) / 2]. *)
Lemma at_hermitian_part n A i j :
  shape n n A -> (i < n)%nat -> (j < n)%nat ->
  at_ (hermitian_part A) i j
  = c_div (c_add (at_ A i j) (c_conj (at_ A j i))) (of_float 2).
Proof.
  intros S Hi Hj. unfold hermitian_part, Np.mdiv_scalar, Np.div_scalar.
  assert (SC : shape n n (Np.mconj A)) by now apply RunFacts.shape_mconj.
  assert (ST : shape n n (Np.T (Np.mconj A)))
    by (apply RunFacts.shape_T; [lia | exact SC]).
  rewrite (at_map (fun a => c_div a (of_float 2)) n n)
    by (try apply RunFacts.shape_madd; assumption).
  rewrite (at_madd n n) by assumption.
  rewrite (at_T n n) by assumption.
  unfold Np.mconj, Np.conj. rewrite (at_map c_conj n n) by assumption.
  reflexivity.
Qed.

(** X7 (the Hermitian fixtures are Hermitian).  For a square matrix [A],
    every finite entry of [H = (A + A.conj().T) / 2] equals, in the sense
    of the IEEE comparison, the conjugate of the entry that mirrors it:
    the rounding of binary64 does not break the symmetry.  On the diagonal
    the imaginary part of a finite entry is zero. *)
Theorem hermitian_part_is_hermitian (n : nat) (A : mat) (i j : nat) :
  shape n n A -> (i < n)%nat -> (j < n)%nat ->
  c_isfinite (at_ (hermitian_part A) i j) = true ->
  c_eqb (at_ (hermitian_part A) i j) (c_conj (at_ (hermitian_part A) j i))
  = true
  /\ (i = j -> (imag (at_ (hermitian_part A) i j) =? 0) = true).
Proof.
  intros S Hi Hj F.
  rewrite (at_hermitian_part n A i j S Hi Hj) in *.
  rewrite (at_hermitian_part n A j i S Hj Hi).
  pose proof (hermitian_entry _ _ F) as E. split; [exact E |].
  intros <-. unfold c_eqb in E. apply andb_prop in E as [_ E].
  cbn [imag c_conj] in E. now apply eqb_opp_zero.
Qed.

Lemma hermitian_part_is_hermitian_witness :
  shape 2 2 [[Complex 1 2; Complex 0.1 4]; [Complex 0.2 6; Complex 7 8]]
  /\ c_eqb
       (at_ (hermitian_part
               [[Complex 1 2; Complex 0.1 4]; [Complex 0.2 6; Complex 7 8]])
          0 1)
       (c_conj
          (at_ (hermitian_part
                  [[Complex 1 2; Complex 0.1 4]; [Complex 0.2 6; Complex 7 8]])
             1 0))
     = true.
Proof.
  assert (S : shape 2 2
                [[Complex 1 2; Complex 0.1 4]; [Complex 0.2 6; Complex 7 8]])
    by (split; [reflexivity | repeat constructor]).
  split; [exact S |].
  apply (hermitian_part_is_hermitian 2 _ 0 1 S); [lia | lia | reflexivity].
Defined.

(** ** [dzasum] *)

Lemma binary_round_aux_nonnegative m e l :
  sf_nonnegative (binary_round_aux prec emax false m e l) = true.
Proof.
  unfold binary_round_aux.
  destruct (shr_fexp prec emax m e l) as [mrs1 e1].
  destruct (shr_fexp prec emax _ e1 loc_Exact) as [mrs2 e2].
  destruct (shr_m mrs2); try reflexivity.
  now destruct (IntDef.Z.leb e2 _).
Qed.

Lemma SFadd_nonnegative x y :
  sf_nonnegative x = true -> sf_nonnegative y = true ->
  sf_nonnegative (SF64add x y) = true.
Proof.
  destruct x as [[|]|[|]| |[|] mx ex], y as [[|]|[|]| |[|] my ey];
    try discriminate; try reflexivity.
  intros _ _. unfold SF64add, SFadd. cbn [cond_Zopp].
  unfold binary_normalize. cbn [IntDef.Z.add].
  unfold binary_round. destruct (shl_align _ _ _) as [mz ez].
  apply binary_round_aux_nonnegative.
Qed.

Lemma abs_nonnegative (a : float) : sf_nonnegative (Prim2SF (abs a)) = true.
Proof. rewrite abs_spec. now destruct (Prim2SF a). Qed.

Lemma abs_opp (a : float) : abs (- a) = abs a.
Proof.
  apply Prim2SF_inj. rewrite !abs_spec, opp_spec. now destruct (Prim2SF a).
Qed.

(** *** Integers in binary64 *)

Ltac zops :=
  change IntDef.Z.add with Z.add in *;
  change IntDef.Z.sub with Z.sub in *;
  change IntDef.Z.mul with Z.mul in *;
  change IntDef.Z.opp with Z.opp in *;
  change IntDef.Z.max with Z.max in *;
  change IntDef.Z.min with Z.min in *;
  change IntDef.Z.leb with Z.leb in *;
  change IntDef.Z.eqb with Z.eqb in *.

Lemma digits_shl p n :
  Zpos (digits2_pos (shl p n)) = (Zpos (digits2_pos p) + Z.of_nat n)%Z.
Proof.
  induction n as [|n IH]; [simpl; lia |].
  change (shl p (S n)) with (xO (shl p n)). cbn [digits2_pos].
  rewrite Pos2Z.inj_succ, IH. lia.
Qed.

Lemma shl_shl p m n : shl (shl p m) n = shl p (n + m).
Proof. unfold shl. symmetry. apply Nat.iter_add. Qed.

Lemma shl_add a b n : (shl a n + shl b n)%positive = shl (a + b) n.
Proof.
  induction n as [|n IH]; [reflexivity |].
  change (shl ?p (S n)) with (xO (shl p n)). simpl. now rewrite IH.
Qed.

Lemma shr_exact n : forall c,
  Nat.iter n shr_1 (Build_shr_record (Zpos (shl c n)) false false)
  = Build_shr_record (Zpos c) false false.
Proof.
  induction n as [|n IH]; intros c; [reflexivity |].
  rewrite Nat.iter_succ_r.
  change (shl c (S n)) with (xO (shl c n)). cbn [shr_1 orb]. apply IH.
Qed.

Lemma iter_pos_nat {A : Type} (f : A -> A) p : forall x,
  iter_pos f p x = Nat.iter (Pos.to_nat p) f x.
Proof.
  induction p as [p IH|p IH|]; intros x; cbn [iter_pos].
  - rewrite !IH, Pos2Nat.inj_xI, Nat.iter_succ_r.
    replace (2 * Pos.to_nat p)%nat with (Pos.to_nat p + Pos.to_nat p)%nat by lia.
    now rewrite Nat.iter_add.
  - rewrite !IH, Pos2Nat.inj_xO.
    replace (2 * Pos.to_nat p)%nat with (Pos.to_nat p + Pos.to_nat p)%nat by lia.
    now rewrite Nat.iter_add.
  - reflexivity.
Qed.

Lemma shl_align_le mx ex ez :
  (ez <= ex)%Z -> shl_align mx ex ez = (shl mx (Z.to_nat (ex - ez)), ez).
Proof.
  intros H. unfold shl_align. zops.
  destruct (ez - ex)%Z as [|d|d] eqn:E; try lia.
  - replace (ex - ez)%Z with 0%Z by lia. simpl. f_equal. lia.
  - replace (ex - ez)%Z with (Zpos d) by lia.
    rewrite Z2Nat.inj_pos. unfold shl. now rewrite Pos2Nat.inj_iter.
Qed.

Lemma fexp_small e : (-1021 <= e)%Z -> fexp prec emax e = (e - 53)%Z.
Proof. intros H. unfold fexp, emin, prec, emax. zops. lia. Qed.

(** A mantissa of 53 bits at an exponent in range is not rounded. *)
Lemma round_aux_of_shr s mx ex M E :
  shr_fexp prec emax mx ex loc_Exact
  = (Build_shr_record (Zpos M) false false, E) ->
  Zpos (digits2_pos M) = 53%Z -> (-1074 <= E <= 971)%Z ->
  binary_round_aux prec emax s mx ex loc_Exact = S754_finite s M E.
Proof.
  intros H HD HE. unfold binary_round_aux. rewrite H.
  cbn [shr_m loc_of_shr_record round_nearest_even].
  unfold shr_fexp. cbn [Zdigits2 shr_record_of_loc]. rewrite HD.
  zops. rewrite fexp_small by lia.
  replace (53 + E - 53 - E)%Z with 0%Z by lia.
  cbn [shr shr_m]. unfold prec, emax. 
  destruct (Z.leb_spec E (1024 - 53)); [reflexivity | lia].
Qed.

(** The integer [c] of at most 53 bits, written [c * 2^k] at exponent
    [-k], rounds to its canonical form: nothing is lost. *)
Lemma binary_round_shift s c k :
  (Zpos (digits2_pos c) <= 53)%Z ->
  binary_round prec emax s (shl c k) (- Z.of_nat k) = canonical s c.
Proof.
  intros Hc. unfold binary_round.
  rewrite digits_shl.
  replace (IntDef.Z.add (Zpos (digits2_pos c) + Z.of_nat k) (- Z.of_nat k))%Z
    with (Zpos (digits2_pos c)) by (zops; lia).
  rewrite fexp_small by lia.
  set (d := Zpos (digits2_pos c)) in *.
  assert (Hd : (1 <= d)%Z) by (subst d; lia).
  destruct (Z.le_gt_cases (d - 53) (- Z.of_nat k)) as [A|B].
  - rewrite shl_align_le by exact A. rewrite shl_shl.
    replace (Z.to_nat (- Z.of_nat k - (d - 53)) + k)%nat
      with (Z.to_nat (53 - d)) by lia.
    apply round_aux_of_shr; [| rewrite digits_shl; fold d; lia | lia].
    unfold shr_fexp. cbn [Zdigits2 shr_record_of_loc].
    rewrite digits_shl. fold d. zops. rewrite fexp_small by lia.
    replace (d + Z.of_nat (Z.to_nat (53 - d)) + (d - 53) - 53 - (d - 53))%Z
      with 0%Z by lia.
    reflexivity.
  - assert (S : shl_align (shl c k) (- Z.of_nat k) (d - 53)
                = (shl c k, (- Z.of_nat k)%Z)).
    { unfold shl_align. zops.
      destruct (d - 53 - - Z.of_nat k)%Z eqn:E; try lia; reflexivity. }
    rewrite S.
    apply round_aux_of_shr with (M := shl c (Z.to_nat (53 - d)));
      [| rewrite digits_shl; fold d; lia | lia].
    unfold shr_fexp. cbn [Zdigits2 shr_record_of_loc].
    rewrite digits_shl. fold d. zops.
    replace (d + Z.of_nat k + - Z.of_nat k)%Z with d by lia.
    rewrite fexp_small by lia.
    destruct (d - 53 - - Z.of_nat k)%Z as [|p|p] eqn:E; try lia.
    cbn [shr]. rewrite iter_pos_nat. zops.
    replace (shl c k) with (shl (shl c (Z.to_nat (53 - d))) (Pos.to_nat p))
      by (rewrite shl_shl; f_equal; lia).
    rewrite shr_exact. f_equal. lia.
Qed.

Lemma digits_lower c : (2 ^ (Zpos (digits2_pos c) - 1) <= Zpos c)%Z.
Proof.
  induction c as [c IH|c IH|]; cbn [digits2_pos]; [| | simpl; lia];
    rewrite Pos2Z.inj_succ;
    replace (Z.succ (Zpos (digits2_pos c)) - 1)%Z
      with (Z.succ (Zpos (digits2_pos c) - 1)) by lia;
    rewrite Z.pow_succ_r by lia; lia.
Qed.

Lemma digits_53 c : (Zpos c < 2 ^ 53)%Z -> (Zpos (digits2_pos c) <= 53)%Z.
Proof.
  intros H. destruct (Z.le_gt_cases (Zpos (digits2_pos c)) 53) as [L|G]; [exact L |].
  exfalso. pose proof (digits_lower c) as Lo.
  assert (2 ^ 53 <= 2 ^ (Zpos (digits2_pos c) - 1))%Z
    by (apply Z.pow_le_mono_r; lia).
  lia.
Qed.

Lemma canonical_valid s c :
  (Zpos (digits2_pos c) <= 53)%Z -> valid_binary (canonical s c) = true.
Proof.
  intros H. unfold valid_binary, canonical, bounded, canonical_mantissa.
  rewrite digits_shl. zops. rewrite fexp_small by lia.
  apply andb_true_intro. split.
  - apply Z.eqb_eq. lia.
  - apply Z.leb_le. unfold emax, prec. lia.
Qed.

(** The sum of two canonical integers is the canonical form of the sum. *)
Lemma SFadd_canonical a b :
  (Zpos (a + b) < 2 ^ 53)%Z ->
  SFadd prec emax (canonical false a) (canonical false b) = canonical false (a + b).
Proof.
  intros H.
  assert (Ha : (Zpos (digits2_pos a) <= 53)%Z) by (apply digits_53; lia).
  assert (Hb : (Zpos (digits2_pos b) <= 53)%Z) by (apply digits_53; lia).
  assert (Hc : (Zpos (digits2_pos (a + b)) <= 53)%Z) by (apply digits_53; lia).
  unfold SFadd, canonical. zops.
  set (da := Zpos (digits2_pos a)) in *. set (db := Zpos (digits2_pos b)) in *.
  assert (1 <= da)%Z by (subst da; lia). assert (1 <= db)%Z by (subst db; lia).
  rewrite !shl_align_le by lia. cbn [fst cond_Zopp]. rewrite !shl_shl.
  set (ez := Z.min (da - 53) (db - 53)).
  replace (Z.to_nat (da - 53 - ez) + Z.to_nat (53 - da))%nat
    with (Z.to_nat (- ez)) by lia.
  replace (Z.to_nat (db - 53 - ez) + Z.to_nat (53 - db))%nat
    with (Z.to_nat (- ez)) by lia.
  change (Zpos ?p + Zpos ?q)%Z with (Zpos (p + q)).
  rewrite shl_add. cbn [binary_normalize].
  replace ez with (- Z.of_nat (Z.to_nat (- ez)))%Z at 2 by lia.
  now apply binary_round_shift.
Qed.

(** The float of an integer below [2^53] in magnitude. *)
Lemma float_of_int_spec z :
  (Z.abs z < 2 ^ 53)%Z ->
  Prim2SF (float_of_int z)
  = match z with
    | Z0 => S754_zero false
    | Zpos c => canonical false c
    | Zneg c => canonical true c
    end.
Proof.
  intros H. unfold float_of_int.
  destruct z as [|c|c]; cbn [binary_normalize].
  - reflexivity.
  - change (binary_round prec emax false c 0)
      with (binary_round prec emax false (shl c 0) (- Z.of_nat 0)).
    rewrite binary_round_shift by (apply digits_53; lia).
    apply Prim2SF_SF2Prim, canonical_valid, digits_53. lia.
  - change (binary_round prec emax true c 0)
      with (binary_round prec emax true (shl c 0) (- Z.of_nat 0)).
    rewrite binary_round_shift by (apply digits_53; lia).
    apply Prim2SF_SF2Prim, canonical_valid, digits_53. lia.
Qed.

Lemma float_of_int_add a b :
  (0 <= a)%Z -> (0 <= b)%Z -> (a + b < 2 ^ 53)%Z ->
  (float_of_int a + float_of_int b)%float = float_of_int (a + b).
Proof.
  intros Ha Hb H. apply Prim2SF_inj.
  rewrite add_spec, !float_of_int_spec by lia.
  destruct a as [|a|a], b as [|b|b]; try lia; try reflexivity.
  apply SFadd_canonical. exact H.
Qed.

Lemma abs_float_of_int z :
  (Z.abs z < 2 ^ 53)%Z ->
  abs (float_of_int z) = float_of_int (Z.abs z).
Proof.
  intros H. apply Prim2SF_inj.
  rewrite abs_spec, !float_of_int_spec by lia.
  destruct z; reflexivity.
Qed.

(** Two runs of the summation on related numbers give related sums. *)
Section Related.

Variables C1 C2 : Type.
Variable add1 : C1 -> C1 -> C1.
Variable add2 : C2 -> C2 -> C2.
Variable start1 : C1.
Variable start2 : C2.
Variable R : C1 -> C2 -> Prop.

Hypothesis R_add : forall a b x y, R a x -> R b y -> R (add1 a b) (add2 x y).
Hypothesis R_start : R start1 start2.

Lemma related_firstn n : forall l1 l2,
  Forall2 R l1 l2 -> Forall2 R (firstn n l1) (firstn n l2).
Proof.
  induction n as [|n IH]; intros l1 l2 H; [constructor |].
  destruct H; simpl; constructor; auto.
Qed.

Lemma related_skipn n : forall l1 l2,
  Forall2 R l1 l2 -> Forall2 R (skipn n l1) (skipn n l2).
Proof.
  induction n as [|n IH]; intros l1 l2 H; [exact H |].
  destruct H; simpl; [constructor | auto].
Qed.

Lemma related_length l1 l2 : Forall2 R l1 l2 -> List.length l1 = List.length l2.
Proof. induction 1; simpl; congruence. Qed.

Lemma related_add8 r1 r2 : Forall2 R r1 r2 -> forall a1 a2,
  Forall2 R a1 a2 -> Forall2 R (Np.add8 C1 add1 r1 a1) (Np.add8 C2 add2 r2 a2).
Proof.
  induction 1 as [|x y r1 r2 Hxy Hr IH]; intros a1 a2 Ha; [constructor |].
  destruct Ha; simpl; constructor; auto.
Qed.

Lemma related_unrolled q : forall r1 r2 a1 a2,
  Forall2 R r1 r2 -> Forall2 R a1 a2 ->
  Forall2 R (fst (Np.unrolled C1 add1 q r1 a1)) (fst (Np.unrolled C2 add2 q r2 a2))
  /\ Forall2 R (snd (Np.unrolled C1 add1 q r1 a1)) (snd (Np.unrolled C2 add2 q r2 a2)).
Proof.
  induction q as [|q IH]; intros r1 r2 a1 a2 Hr Ha; [now split |].
  cbn [Np.unrolled]. apply IH.
  - apply related_add8; [exact Hr | now apply related_firstn].
  - now apply related_skipn.
Qed.

Lemma related_combine8 r1 r2 :
  Forall2 R r1 r2 -> R (Np.combine8 C1 add1 start1 r1) (Np.combine8 C2 add2 start2 r2).
Proof.
  intros H.
  do 9 (destruct H as [|? ? ? ? ? H]; [exact R_start || (simpl; auto 10) |]).
  exact R_start.
Qed.

Lemma related_fold_left l1 l2 : Forall2 R l1 l2 -> forall a1 a2,
  R a1 a2 -> R (fold_left add1 l1 a1) (fold_left add2 l2 a2).
Proof. induction 1; intros a1 a2 Ha; simpl; auto. Qed.

Lemma related_block_sum l1 l2 :
  Forall2 R l1 l2 ->
  R (Np.block_sum C1 add1 start1 l1) (Np.block_sum C2 add2 start2 l2).
Proof.
  intros H. unfold Np.block_sum. rewrite <- (related_length _ _ H).
  destruct (related_unrolled (List.length l1 / 8 - 1)
              (firstn 8 l1) (firstn 8 l2) (skipn 8 l1) (skipn 8 l2)
              (related_firstn 8 _ _ H) (related_skipn 8 _ _ H)) as [Hr Ht].
  destruct (Np.unrolled C1 _ _ _ _) as [r1 t1], (Np.unrolled C2 _ _ _ _) as [r2 t2].
  apply related_fold_left; [exact Ht | now apply related_combine8].
Qed.

Lemma related_pairwise_sum depth : forall l1 l2,
  Forall2 R l1 l2 ->
  R (Np.pairwise_sum C1 add1 start1 depth l1) (Np.pairwise_sum C2 add2 start2 depth l2).
Proof.
  induction depth as [|depth IH]; intros l1 l2 H; cbn [Np.pairwise_sum];
    rewrite <- (related_length _ _ H);
    (destruct (List.length l1 <? 8)%nat;
     [now apply related_fold_left |]).
  - now apply related_block_sum.
  - destruct (List.length l1 <=? 128)%nat; [now apply related_block_sum |].
    apply R_add; apply IH; [now apply related_firstn | now apply related_skipn].
Qed.

End Related.

(** On the integers the summation is the sum. *)
Lemma total_app l1 l2 : total (l1 ++ l2) = (total l1 + total l2)%Z.
Proof. induction l1 as [|a l1 IH]; simpl; [reflexivity | rewrite IH; lia]. Qed.

Lemma total_firstn_skipn n l : (total (firstn n l) + total (skipn n l))%Z = total l.
Proof. now rewrite <- total_app, firstn_skipn. Qed.

Lemma fold_left_total l : forall a, fold_left Z.add l a = (a + total l)%Z.
Proof. induction l as [|b l IH]; intros a; simpl; [lia | rewrite IH; lia]. Qed.

Lemma total_add8 r : forall a,
  List.length a = List.length r ->
  total (Np.add8 Z Z.add r a) = (total r + total a)%Z
  /\ List.length (Np.add8 Z Z.add r a) = List.length r.
Proof.
  induction r as [|x r IH]; intros [|y a] H; try discriminate H; [now split |].
  injection H as H. destruct (IH a H) as [E L]. simpl. rewrite E, L. split; lia.
Qed.

Lemma total_unrolled q : forall r a,
  List.length r = 8%nat -> (8 * q <= List.length a)%nat ->
  (total (fst (Np.unrolled Z Z.add q r a)) + total (snd (Np.unrolled Z Z.add q r a)))%Z
  = (total r + total a)%Z
  /\ List.length (fst (Np.unrolled Z Z.add q r a)) = 8%nat.
Proof.
  induction q as [|q IH]; intros r a Lr La; [now split |].
  cbn [Np.unrolled].
  assert (L8 : List.length (firstn 8 a) = List.length r)
    by (rewrite length_firstn; lia).
  destruct (total_add8 r (firstn 8 a) L8) as [E L].
  destruct (IH (Np.add8 Z Z.add r (firstn 8 a)) (skipn 8 a)) as [E' L'].
  - congruence.
  - rewrite length_skipn. lia.
  - split; [| exact L']. rewrite E', E.
    rewrite <- (total_firstn_skipn 8 a). lia.
Qed.

Lemma total_combine8 r :
  List.length r = 8%nat -> Np.combine8 Z Z.add 0%Z r = total r.
Proof.
  intros H. do 9 (destruct r as [|? r]; try discriminate H). simpl. lia.
Qed.

Lemma total_block_sum l :
  (8 <= List.length l)%nat -> Np.block_sum Z Z.add 0%Z l = total l.
Proof.
  intros H. unfold Np.block_sum.
  destruct (total_unrolled (List.length l / 8 - 1) (firstn 8 l) (skipn 8 l))
    as [E L].
  - rewrite length_firstn. lia.
  - rewrite length_skipn.
    pose proof (Nat.Div0.mul_div_le (List.length l) 8). lia.
  - destruct (Np.unrolled Z Z.add _ _ _) as [r t]. cbn [fst snd] in *.
    rewrite fold_left_total, total_combine8 by exact L.
    rewrite E. apply total_firstn_skipn.
Qed.

Lemma total_pairwise_sum depth : forall l,
  Np.pairwise_sum Z Z.add 0%Z depth l = total l.
Proof.
  induction depth as [|depth IH]; intros l; cbn [Np.pairwise_sum];
    destruct (Nat.ltb_spec (List.length l) 8);
    try (rewrite fold_left_total; lia);
    try (apply total_block_sum; lia).
  destruct (List.length l <=? 128)%nat; [apply total_block_sum; lia |].
  rewrite !IH. apply total_firstn_skipn.
Qed.

(** The depth of the recursion: any bound from the length of the array on
    gives the same sum. *)
Lemma pairwise_sum_depth {C : Type} (plus : C -> C -> C) (start : C) d1 :
  forall d2 a,
    (List.length a <= d1)%nat -> (List.length a <= d2)%nat ->
    Np.pairwise_sum C plus start d1 a = Np.pairwise_sum C plus start d2 a.
Proof.
  induction d1 as [|d1 IH]; intros d2 a H1 H2;
    destruct d2 as [|d2]; cbn [Np.pairwise_sum];
    destruct (Nat.ltb_spec (List.length a) 8); try reflexivity; try lia.
  destruct (Nat.leb_spec (List.length a) 128); [reflexivity |].
  set (n := List.length a) in *.
  pose proof (Nat.div_mod_eq n 2) as E.
  pose proof (Nat.mod_upper_bound n 2 ltac:(lia)) as U.
  pose proof (Nat.mod_upper_bound (n / 2) 8 ltac:(lia)) as V.
  f_equal; apply IH; rewrite ?length_firstn, ?length_skipn; fold n; lia.
Qed.

(** *** The sum of integers in binary64 *)

Lemma neg_zero_add (x : float) : (-0 + x)%float = x.
Proof.
  apply Prim2SF_inj. rewrite add_spec.
  change (Prim2SF (-0)) with (S754_zero true).
  now destruct (Prim2SF x) as [[|]|[|]| |[|] m e].
Qed.

Lemma add_neg_zero (x : float) : (x + -0)%float = x.
Proof. rewrite add_comm. apply neg_zero_add. Qed.

Lemma holds_integer_add a b x y :
  holds_integer a x -> holds_integer b y ->
  holds_integer (a + b) (x + y)%float.
Proof.
  intros [Ha Fa] [Hb Fb]. split; [lia |]. intros H.
  destruct Fa as [-> | [-> ->]]; [lia | |];
    (destruct Fb as [-> | [-> ->]]; [lia | |]).
  - left. apply float_of_int_add; lia.
  - left. rewrite add_neg_zero. f_equal. lia.
  - left. now rewrite neg_zero_add.
  - right. now rewrite neg_zero_add.
Qed.

Lemma holds_integer_float_of_int zs :
  Forall (fun z => 0 <= z)%Z zs ->
  Forall2 holds_integer zs (map float_of_int zs).
Proof.
  induction 1 as [|z zs Hz _ IH]; cbn [map]; constructor; [| exact IH].
  split; [exact Hz | now left].
Qed.

(** [np.sum] of the floats of integers that are not negative is the
    float of their sum, as long as that sum has no more than 53 bits. *)
Lemma sum64_integers zs :
  Forall (fun z => 0 <= z)%Z zs -> (total zs < 2 ^ 53)%Z ->
  Np.sum64 (map float_of_int zs) = float_of_int (total zs).
Proof.
  intros Hz Ht. unfold Np.sum64.
  destruct (related_pairwise_sum Z float Z.add PrimFloat.add 0%Z (-0)%float
              holds_integer holds_integer_add
              (conj (Z.le_refl 0) (fun _ => or_intror (conj eq_refl eq_refl)))
              (List.length (map float_of_int zs)) zs (map float_of_int zs)
              (holds_integer_float_of_int zs Hz)) as [Hs F].
  rewrite total_pairwise_sum in Hs, F.
  destruct (F Ht) as [-> | [E ->]].
  - change 0%float with (float_of_int 0). apply float_of_int_add; lia.
  - now rewrite E.
Qed.

Lemma total_nonnegative l : Forall (fun z => 0 <= z)%Z l -> (0 <= total l)%Z.
Proof. induction 1; simpl; lia. Qed.

Lemma total_bound l z :
  Forall (fun z => 0 <= z)%Z l -> In z l -> (z <= total l)%Z.
Proof.
  induction 1 as [|a l Ha Hl IH]; intros Hin; [contradiction |].
  pose proof (total_nonnegative l Hl). simpl.
  destruct Hin as [-> | Hin]; [lia | specialize (IH Hin); lia].
Qed.

Lemma abs_nonnegative_all ps : Forall (fun z => 0 <= z)%Z (map Z.abs ps).
Proof. apply Forall_map, Forall_forall. intros p _. apply Z.abs_nonneg. Qed.

(** The sum of the magnitudes of floats of integers. *)
Lemma sum64_abs64_integers ps :
  (total (map Z.abs ps) < 2 ^ 53)%Z ->
  Np.sum64 (Np.abs64 (map float_of_int ps))
  = float_of_int (total (map Z.abs ps)).
Proof.
  intros H. unfold Np.abs64.
  rewrite <- (sum64_integers (map Z.abs ps) (abs_nonnegative_all ps) H).
  f_equal. rewrite !map_map. apply map_ext_in. intros p Hp.
  apply abs_float_of_int.
  pose proof (total_bound (map Z.abs ps) (Z.abs p) (abs_nonnegative_all ps)
                (in_map Z.abs ps p Hp)).
  lia.
Qed.

(** C4: [dzasum] is the sum of the absolute values of the real parts plus
    the sum of the absolute values of the imaginary parts, each added up
    as [np.sum] adds; on a vector with integer parts, where no addition
    rounds, it is that sum of magnitudes exactly; on [[3+4i, -1+0i]] it
    is 8.0, where the sum of the moduli is 6.0. *)
Theorem dzasum_sums_real_and_imaginary_magnitudes (rng : Type)
    (seed : Z -> rng) (standard_normal : rng -> float * rng)
    (hypot : float -> float -> float) :
  let np := Np64.numpy64 rng seed standard_normal hypot in
  (forall x : vec,
     dzasum np x
     = (Np.sum64 (map (fun z => PrimFloat.abs (real z)) x)
        + Np.sum64 (map (fun z => PrimFloat.abs (imag z)) x))%float) /\
  (forall zs : list (Z * Z),
     (magnitudes zs < 2 ^ 53)%Z ->
     dzasum np (int_vector zs) = float_of_int (magnitudes zs)) /\
  dzasum np [Complex 3 4; Complex (-1) 0] = 8%float /\
  Np.sum64 (map (Np.absolute numpy_fixed) [Complex 3 4; Complex (-1) 0])
    = 6%float.
Proof.
  intros np. split; [| split; [| split]].
  - intros x. unfold dzasum, np. cbn [Np.sum Np.abs Np64.numpy64].
    unfold Np.abs64, Np.real_part, Np.imag_part. now rewrite !map_map.
  - intros zs H. unfold dzasum, np, magnitudes in *.
    cbn [Np.sum Np.abs Np64.numpy64].
    pose proof (total_nonnegative _ (abs_nonnegative_all (map fst zs))) as Hr.
    pose proof (total_nonnegative _ (abs_nonnegative_all (map snd zs))) as Hi.
    rewrite !map_map in Hr, Hi.
    replace (Np.real_part (int_vector zs))
      with (map float_of_int (map fst zs))
      by (unfold Np.real_part, int_vector; now rewrite !map_map).
    replace (Np.imag_part (int_vector zs))
      with (map float_of_int (map snd zs))
      by (unfold Np.imag_part, int_vector; now rewrite !map_map).
    rewrite !sum64_abs64_integers by (rewrite map_map; lia).
    rewrite !map_map. apply float_of_int_add; lia.
  - vm_compute. reflexivity.
  - vm_compute. reflexivity.
Qed.

(** The theorem at work on a vector of ten numbers, the longest the
    generator makes: the sum of magnitudes is 110. *)
Lemma dzasum_sums_real_and_imaginary_magnitudes_witness :
  let zs := [(1, -2); (-3, 4); (5, -6); (-7, 8); (9, -10);
             (10, 9); (-8, -7); (6, 5); (-4, -3); (2, 1)]%Z in
  (magnitudes zs < 2 ^ 53)%Z
  /\ dzasum numpy_fixed (int_vector zs) = float_of_int (magnitudes zs).
Proof.
  intros zs. split; [reflexivity |].
  apply (proj1 (proj2 (dzasum_sums_real_and_imaginary_magnitudes
                         unit (fun _ => tt) (fun g => (0%float, g))
                         (fun a b => PrimFloat.sqrt (a * a + b * b))))).
  reflexivity.
Defined.

(** *** The sum of magnitudes is not negative *)

Lemma magnitude_or_start_add x y :
  magnitude_or_start x -> magnitude_or_start y ->
  magnitude_or_start (x + y)%float.
Proof.
  intros [Hx | ->] [Hy | ->].
  - left. rewrite add_spec. now apply SFadd_nonnegative.
  - rewrite add_neg_zero. now left.
  - rewrite neg_zero_add. now left.
  - rewrite neg_zero_add. now right.
Qed.

Lemma sum64_abs64_nonnegative l :
  sf_nonnegative (Prim2SF (Np.sum64 (Np.abs64 l))) = true.
Proof.
  unfold Np.sum64.
  assert (F : Forall2 (fun _ y : float => magnitude_or_start y)
                (Np.abs64 l) (Np.abs64 l)).
  { unfold Np.abs64. induction l as [|a l IH]; cbn [map]; constructor;
      [left; apply abs_nonnegative | exact IH]. }
  destruct (related_pairwise_sum float float PrimFloat.add PrimFloat.add
              (-0)%float (-0)%float (fun _ y => magnitude_or_start y)
              (fun _ _ x y Hx Hy => magnitude_or_start_add x y Hx Hy)
              (or_intror eq_refl)
              (List.length (Np.abs64 l)) _ _ F) as [H | ->].
  - rewrite add_spec. now apply SFadd_nonnegative.
  - reflexivity.
Qed.

Lemma nonnegative_not_below_zero (r : float) :
  sf_nonnegative (Prim2SF r) = true -> (r <? 0) = false.
Proof.
  rewrite ltb_spec. change (Prim2SF 0) with (S754_zero false).
  destruct (Prim2SF r) as [[|]|[|]| |[|] m e]; try discriminate; reflexivity.
Qed.

(** X9 ([dzasum] is a magnitude).  On NumPy in binary64, the value the
    scripts compute for [dzasum] is never below zero, whatever the vector
    holds, and it is the same for a vector and for its conjugate. *)
Theorem dzasum_is_never_negative (R : Type) (seed : Z -> R)
    (normal : R -> float * R) (hypot : float -> float -> float) (x : vec) :
  (dzasum (Np64.numpy64 R seed normal hypot) x <? 0) = false
  /\ dzasum (Np64.numpy64 R seed normal hypot) (Np.conj x)
     = dzasum (Np64.numpy64 R seed normal hypot) x.
Proof.
  unfold dzasum. cbn [Np.sum Np.abs Np64.numpy64]. split.
  - apply nonnegative_not_below_zero. rewrite add_spec.
    apply SFadd_nonnegative; apply sum64_abs64_nonnegative.
  - f_equal.
    + unfold Np.real_part, Np.conj. rewrite map_map. reflexivity.
    + f_equal. unfold Np.imag_part, Np.conj, Np.abs64. rewrite !map_map.
      apply map_ext. intros a. cbn [c_conj imag]. apply abs_opp.
Qed.

(** ** The comparison of the harness *)

Lemma SFabs_opp x : SFabs (SFopp x) = SFabs x.
Proof. now destruct x. Qed.

(** The two differences of two floats have the same magnitude. *)
Lemma abs_sub_swap (x y : float) : abs (x - y) = abs (y - x).
Proof.
  apply Prim2SF_inj. rewrite !abs_spec, !sub_spec, !SFsub_add_opp.
  destruct (SFsub_swap (Prim2SF x) (Prim2SF y)) as [E|[E1 E2]].
  - now rewrite E, SFabs_opp.
  - now rewrite E1, E2.
Qed.

Lemma compare_cont_swap (p q : positive) :
  Pos.compare_cont Eq q p = CompOpp (Pos.compare_cont Eq p q).
Proof. symmetry. apply (Pos.compare_cont_antisym p q Eq). Qed.

Lemma SFeqb_sym x y : SFeqb x y = SFeqb y x.
Proof.
  unfold SFeqb, SFcompare.
  destruct x as [[|]|[|]| |[|] mx ex], y as [[|]|[|]| |[|] my ey];
    try reflexivity;
    rewrite (Z.compare_antisym ex ey);
    destruct (Z.compare_spec ex ey) as [->| |]; cbn [CompOpp]; try reflexivity;
    rewrite (compare_cont_swap mx my);
    now destruct (Pos.compare_cont Eq mx my).
Qed.

Lemma eqb_sym (x y : float) : (x =? y) = (y =? x).
Proof. rewrite !eqb_spec. apply SFeqb_sym. Qed.

(** A value that is not finite is within [1e-10] of no finite value. *)
Lemma not_finite_not_close (x y : float) :
  isfinite x = false -> isfinite y = true ->
  (abs (x - y) <=? Validate.DEFAULT_TOL) = false /\ (x =? y) = false.
Proof.
  rewrite !isfinite_sf, leb_spec, eqb_spec, abs_spec, sub_spec.
  change (Prim2SF Validate.DEFAULT_TOL)
    with (S754_finite false 7737125245533627 (-86)%Z).
  destruct (Prim2SF x) as [[|]|[|]| |[|] mx ex];
    destruct (Prim2SF y) as [[|]|[|]| |[|] my ey];
    try discriminate; intros _ _; split; reflexivity.
Qed.

Lemma tolerance_plus_zero (c : float) :
  isfinite c = true -> Validate.DEFAULT_TOL + 0 * abs c = Validate.DEFAULT_TOL.
Proof.
  rewrite isfinite_sf. intros H. apply Prim2SF_inj.
  rewrite add_spec, mul_spec, abs_spec.
  change (Prim2SF 0) with (S754_zero false).
  destruct (Prim2SF c) as [[|]|[|]| |[|] m e]; try discriminate; reflexivity.
Qed.

(** X10 (the comparison of two reals is symmetric).  With [rtol = 0] and
    [atol = 1e-10], as the harness calls it, [np.allclose] on two floats
    gives the same answer whichever of the two is passed as the expected
    value: the result and the expected value can be exchanged, whatever
    they are. *)
Theorem real_comparison_is_symmetric (R : Type) (seed : Z -> R)
    (normal : R -> float * R) (hypot : float -> float -> float)
    (x y : float) :
  Np.allclose_real (Np64.numpy64 R seed normal hypot) x y 0
    Validate.DEFAULT_TOL
  = Np.allclose_real (Np64.numpy64 R seed normal hypot) y x 0
      Validate.DEFAULT_TOL.
Proof.
  cbn [Np.allclose_real Np64.numpy64]. unfold Np.isclose_real.
  rewrite (eqb_sym y x), (abs_sub_swap y x).
  destruct (isfinite x) eqn:Fx, (isfinite y) eqn:Fy.
  - now rewrite !tolerance_plus_zero.
  - destruct (not_finite_not_close y x Fy Fx) as [C E].
    rewrite (abs_sub_swap y x) in C. rewrite (eqb_sym y x) in E.
    now rewrite (tolerance_plus_zero x Fx), andb_false_r, C, E.
  - destruct (not_finite_not_close x y Fx Fy) as [C E].
    now rewrite (tolerance_plus_zero y Fy), andb_false_r, C, E.
  - now rewrite !andb_false_r.
Qed.

Lemma mul_abs_self (a : float) : abs a * abs a = a * a.
Proof.
  apply Prim2SF_inj. rewrite !mul_spec, abs_spec.
  now destruct (Prim2SF a) as [[|]|[|]| |[|] m e].
Qed.

(** The textbook modulus looks at the magnitudes of the two parts only. *)
Lemma sqrt_modulus_abs (a b : float) :
  sqrt (a * a + b * b) = sqrt (abs a * abs a + abs b * abs b).
Proof. now rewrite !mul_abs_self. Qed.

(** X11 (the comparison of two complex numbers is symmetric).  With
    [rtol = 0] and [atol = 1e-10], [np.allclose] on two complex numbers
    with finite parts and finite moduli gives the same answer whichever
    of the two is passed as the expected value, for any modulus function
    that looks at the magnitudes of the two parts only, as C's [hypot]
    does. *)
Theorem complex_comparison_is_symmetric (R : Type) (seed : Z -> R)
    (normal : R -> float * R) (hypot : float -> float -> float)
    (x y : complex) :
  (forall a b, hypot a b = hypot (abs a) (abs b)) ->
  c_isfinite x = true -> c_isfinite y = true ->
  isfinite (hypot (real x) (imag x)) = true ->
  isfinite (hypot (real y) (imag y)) = true ->
  Np.allclose (Np64.numpy64 R seed normal hypot) x y 0 Validate.DEFAULT_TOL
  = Np.allclose (Np64.numpy64 R seed normal hypot) y x 0 Validate.DEFAULT_TOL.
Proof.
  intros Habs Fx Fy Mx My.
  cbn [Np.allclose Np64.numpy64].
  unfold Np.isclose_complex, Np.absolute128, c_sub, c_eqb.
  cbn [real imag].
  rewrite (ToleranceFacts.tol_plus_zero _ Mx),
    (ToleranceFacts.tol_plus_zero _ My), Fx, Fy.
  rewrite (Habs (real x - real y)), (Habs (real y - real x)).
  rewrite (abs_sub_swap (real y) (real x)), (abs_sub_swap (imag y) (imag x)).
  rewrite (eqb_sym (real y) (real x)), (eqb_sym (imag y) (imag x)).
  reflexivity.
Qed.

Lemma complex_comparison_is_symmetric_witness :
  Np.allclose numpy_fixed (Complex 7.00000000005 1) (Complex 7 1) 0
    Validate.DEFAULT_TOL
  = Np.allclose numpy_fixed (Complex 7 1) (Complex 7.00000000005 1) 0
      Validate.DEFAULT_TOL.
Proof.
  apply (complex_comparison_is_symmetric unit (fun _ => tt) (fun g => (0, g))
           (fun a b => sqrt (a * a + b * b)));
    [intros a b; apply sqrt_modulus_abs | reflexivity ..].
Defined.

End FloatFacts.

(** * The text of the fixture file *)

Module JsonFacts.

Import Generate Fixture.

Local Open Scope string_scope.

Section Text.

Variable float_repr : float -> string.

Local Abbreviation enc := (encode float_repr).

(** X12 (different test data, different files).  Two representable values
    that [json.dump] writes as the same text are the same value: the keys
    in the same order, the floats bit for bit.  (Representable: no NaN,
    each finite float written by [repr] as a number that [float] reads as
    the same float, no key twice in a dictionary.) *)
Theorem json_dumps_is_injective (v w : value) :
  representable float_repr v -> representable float_repr w ->
  json_dumps float_repr v = json_dumps float_repr w -> v = w.
Proof.
  intros Rv Rw E.
  pose proof (SerializerFacts.deserialize_json_dumps float_repr v Rv) as Hv.
  pose proof (SerializerFacts.deserialize_json_dumps float_repr w Rw) as Hw.
  rewrite E, Hw in Hv. now injection Hv.
Qed.

Lemma ascii_only_app a b :
  ascii_only (a ++ b) = ascii_only a && ascii_only b.
Proof.
  induction a as [|c a IH]; simpl; [reflexivity |].
  now rewrite IH, andb_assoc.
Qed.

Lemma escape_char_ascii c : ascii_only (escape_char c) = true.
Proof. destruct c as [[] [] [] [] [] [] [] []]; reflexivity. Qed.

Lemma escape_ascii s : ascii_only (escape s) = true.
Proof.
  induction s as [|c s IH]; simpl; [reflexivity |].
  now rewrite ascii_only_app, escape_char_ascii, IH.
Qed.

Lemma encode_str_ascii s : ascii_only (encode_str s) = true.
Proof.
  unfold encode_str. now rewrite !ascii_only_app, escape_ascii.
Qed.

Lemma number_char_ascii c :
  is_number_char c = true -> (N_of_ascii c <? 128)%N = true.
Proof.
  destruct c as [[] [] [] [] [] [] [] []]; vm_compute; intros H;
    try discriminate H; reflexivity.
Qed.

Lemma number_chars_ascii s : number_chars s = true -> ascii_only s = true.
Proof.
  induction s as [|c s IH]; simpl; [reflexivity |].
  intros H. apply andb_prop in H as [H1 H2].
  now rewrite (number_char_ascii c H1), IH.
Qed.

Lemma encode_int_ascii n : ascii_only (encode_int n) = true.
Proof.
  apply number_chars_ascii, SerializerFacts.number_token_chars,
    SerializerFacts.number_token_int.
Qed.

Lemma spaces_ascii n : ascii_only (spaces n) = true.
Proof. induction n as [|n IH]; simpl; [reflexivity | exact IH]. Qed.

Lemma newline_indent_ascii level : ascii_only (newline_indent level) = true.
Proof. unfold newline_indent. simpl. apply spaces_ascii. Qed.

Hypothesis float_repr_ascii : forall f, ascii_only (float_repr f) = true.

Lemma encode_float_ascii f : ascii_only (encode_float float_repr f) = true.
Proof.
  unfold encode_float.
  destruct (is_nan f); [reflexivity |].
  destruct (f =? infinity)%float; [reflexivity |].
  destruct (f =? neg_infinity)%float; [reflexivity |].
  apply float_repr_ascii.
Qed.

Lemma encode_ascii n :
  forall v level, (size v <= n)%nat -> ascii_only (enc level v) = true.
Proof.
  induction n as [|n IH]; intros v level H.
  { destruct v; simpl in H; lia. }
  destruct v as [z|f|t|l|d].
  - apply encode_int_ascii.
  - apply encode_float_ascii.
  - apply encode_str_ascii.
  - destruct l as [|x xs]; [reflexivity |].
    change (size (VList (x :: xs)))
      with (3 + size x + list_sum (map (fun x => S (size x)) xs))%nat in H.
    assert (T : forall l,
               (list_sum (map (fun x => S (size x)) l) <= n)%nat ->
               ascii_only (encode_elements float_repr (S level) l) = true).
    { induction l as [|y l IHl]; intros B; [reflexivity |].
      change (list_sum (map (fun x => S (size x)) (y :: l)))
        with (S (size y) + list_sum (map (fun x => S (size x)) l))%nat in B.
      rewrite SerializerFacts.encode_elements_cons, !ascii_only_app.
      rewrite newline_indent_ascii, IH, IHl by lia. reflexivity. }
    rewrite SerializerFacts.encode_list_cons, !ascii_only_app.
    rewrite !newline_indent_ascii, IH, T by lia. reflexivity.
  - destruct d as [|[k x] kxs]; [reflexivity |].
    change (size (VDict ((k, x) :: kxs)))
      with (4 + size x
            + list_sum (map (fun kx => 2 + size (snd kx)) kxs))%nat in H.
    assert (T : forall l,
               (list_sum (map (fun kx => 2 + size (snd kx)) l) <= n)%nat ->
               ascii_only (encode_members float_repr (S level) l) = true).
    { induction l as [|[k' y] l IHl]; intros B; [reflexivity |].
      change (list_sum (map (fun kx => 2 + size (snd kx)) ((k', y) :: l)))
        with (2 + size y
              + list_sum (map (fun kx => 2 + size (snd kx)) l))%nat in B.
      rewrite SerializerFacts.encode_members_cons, !ascii_only_app.
      rewrite newline_indent_ascii, encode_str_ascii, IH, IHl by lia.
      reflexivity. }
    rewrite SerializerFacts.encode_dict_cons, !ascii_only_app.
    rewrite !newline_indent_ascii, encode_str_ascii, IH, T by lia.
    reflexivity.
Qed.

End Text.

(** X13 (the fixture file is ASCII).  Whatever the strings and keys of
    the test data hold, the text [json.dump] writes has ASCII characters
    only, as long as [repr] of a float has: every other character is
    written as an escape. *)
Theorem json_dumps_is_ascii (float_repr : float -> string) (v : value) :
  (forall f, ascii_only (float_repr f) = true) ->
  ascii_only (json_dumps float_repr v) = true.
Proof.
  intros H. unfold json_dumps.
  now apply (encode_ascii float_repr H (size v)).
Qed.

Lemma json_dumps_is_injective_witness :
  VList [VInt 1; VStr "a"] = VList [VInt 1; VStr "a"].
Proof.
  apply (json_dumps_is_injective (fun _ => "1.0"));
    [simpl; auto | simpl; auto | reflexivity].
Defined.

Lemma json_dumps_is_ascii_witness :
  ascii_only
    (json_dumps (fun _ => "1.5")
       (VDict [(String (ascii_of_nat 233) "t", VList [VFloat 1.5; VInt 2])]))
  = true.
Proof.
  apply (json_dumps_is_ascii (fun _ => "1.5")). intros f. reflexivity.
Defined.

End JsonFacts.

(** * The decoder at its edges *)

Module DecoderEdges.

Import PyStr Validate.

Local Open Scope N_scope.

Section Tables.

Variable unicode_isspace : N -> bool.
Variable unicode_decimal : N -> option digit.

Local Abbreviation isspace := (PyStr.isspace unicode_isspace).
Local Abbreviation lstrip := (PyStr.lstrip unicode_isspace).
Local Abbreviation rstrip := (PyStr.rstrip unicode_isspace).
Local Abbreviation strip := (PyStr.strip unicode_isspace).
Local Abbreviation float := (PyStr.float_of_str unicode_isspace unicode_decimal).
Local Abbreviation pattern := (complex_pattern unicode_isspace unicode_decimal).
Local Abbreviation parse_complex :=
  (Validate.parse_complex unicode_isspace unicode_decimal).

(** *** [strip] keeps what stands between two characters that are no
    white space *)

Lemma lstrip_app_stop q z w :
  isspace z = false -> lstrip (q ++ z :: w) = lstrip q ++ z :: w.
Proof.
  intros Hz. induction q as [|c q IH]; simpl.
  - now rewrite Hz.
  - destruct (PyStr.isspace unicode_isspace c); [exact IH | reflexivity].
Qed.

Lemma rstrip_app_stop u z p :
  isspace z = false -> rstrip (u ++ z :: p) = u ++ z :: rstrip p.
Proof.
  intros Hz. unfold PyStr.rstrip.
  rewrite rev_app_distr. cbn [rev]. rewrite <- app_assoc. cbn [app].
  rewrite (lstrip_app_stop _ _ _ Hz).
  rewrite rev_app_distr. cbn [rev]. rewrite rev_involutive, <- app_assoc.
  reflexivity.
Qed.

Lemma strip_core pre a core z post :
  blanks pre -> isspace a = false -> isspace z = false ->
  strip (pre ++ (a :: core ++ [z]) ++ post) = a :: core ++ z :: rstrip post.
Proof.
  intros Hpre Ha Hz. unfold PyStr.strip.
  rewrite (DecoderFacts.lstrip_blanks unicode_isspace) by exact Hpre.
  rewrite (DecoderFacts.lstrip_stops unicode_isspace) by exact Ha.
  change ((a :: core ++ [z]) ++ post) with (a :: (core ++ [z]) ++ post).
  rewrite <- app_assoc. cbn [app].
  change (a :: core ++ z :: post) with ((a :: core) ++ z :: post).
  now rewrite (rstrip_app_stop _ _ _ Hz).
Qed.

(** *** What follows the imaginary unit *)

(** The decoder on [<re> <sign> <im> i] followed by any text. *)
Lemma parse_core re sgn im pre ws1 ws2 ws3 post :
  signed_numeral re -> is_sign sgn = true -> numeral im ->
  blanks pre -> blanks ws1 -> blanks ws2 -> blanks ws3 ->
  exists x y,
    float re = Some x /\ float im = Some y
    /\ parse_complex
         (pre ++ re ++ ws1 ++ sgn :: ws2 ++ im ++ ws3 ++ 105 :: post)
       = inr (Complex x ((if sgn =? 45 then (-1)%float else 1%float) * y)).
Proof.
  intros Hre Hsgn Him Hpre H1 H2 H3.
  destruct (DecoderFacts.float_signed_numeral unicode_isspace unicode_decimal
              re Hre) as [x Hx].
  destruct (DecoderFacts.float_numeral unicode_isspace unicode_decimal im Him)
    as [y Hy].
  exists x, y. split; [exact Hx |]. split; [exact Hy |].
  destruct (DecoderFacts.signed_numeral_head unicode_isspace re Hre)
    as (a & re' & Ere & Ha).
  assert (Estrip :
    strip (pre ++ re ++ ws1 ++ sgn :: ws2 ++ im ++ ws3 ++ 105 :: post)
    = re ++ ws1 ++ sgn :: ws2 ++ im ++ ws3 ++ 105 :: rstrip post).
  { replace (pre ++ re ++ ws1 ++ sgn :: ws2 ++ im ++ ws3 ++ 105 :: post)
      with (pre ++ (a :: (re' ++ ws1 ++ sgn :: ws2 ++ im ++ ws3) ++ [105]) ++ post).
    - rewrite strip_core by (assumption || reflexivity).
      rewrite Ere. cbn [app]. f_equal.
      repeat (rewrite <- app_assoc; cbn [app]). reflexivity.
    - rewrite Ere. cbn [app]. do 2 f_equal.
      repeat (rewrite <- app_assoc; cbn [app]). reflexivity. }
  destruct (DecoderFacts.match_affine unicode_isspace unicode_decimal
              re sgn im ws1 ws2 ws3 (rstrip post) Hre Hsgn Him H1 H2 H3)
    as (m & Hm & Hg).
  unfold Validate.parse_complex. rewrite Estrip, Hm, Hg, Hx, Hy.
  destruct (DecoderFacts.sign_cases sgn Hsgn) as [-> | ->]; reflexivity.
Qed.

(** X14 (what follows the imaginary unit is not read).  On a text that
    starts, after blanks, with [<re> <sign> <im> i], the decoder returns
    the complex number of that start whatever text follows the [i]: the
    pattern is matched at the start of the text and need not reach its
    end. *)
Theorem parse_complex_ignores_what_follows
    (re : str) (sgn : N) (im pre ws1 ws2 ws3 post : str) :
  signed_numeral re -> is_sign sgn = true -> numeral im ->
  blanks pre -> blanks ws1 -> blanks ws2 -> blanks ws3 ->
  parse_complex (pre ++ re ++ ws1 ++ sgn :: ws2 ++ im ++ ws3 ++ 105 :: post)
  = parse_complex (re ++ ws1 ++ sgn :: ws2 ++ im ++ ws3 ++ [105])
  /\ exists z,
       parse_complex
         (pre ++ re ++ ws1 ++ sgn :: ws2 ++ im ++ ws3 ++ 105 :: post)
       = inr z.
Proof.
  intros Hre Hsgn Him Hpre H1 H2 H3.
  destruct (parse_core re sgn im pre ws1 ws2 ws3 post Hre Hsgn Him Hpre H1 H2 H3)
    as (x & y & Hx & Hy & E).
  destruct (parse_core re sgn im [] ws1 ws2 ws3 [] Hre Hsgn Him
              (Forall_nil _) H1 H2 H3)
    as (x' & y' & Hx' & Hy' & E').
  cbn [app] in E'. rewrite E, E'.
  rewrite Hx in Hx'. rewrite Hy in Hy'.
  injection Hx' as <-. injection Hy' as <-.
  split; [reflexivity | eexists; reflexivity].
Qed.

(** *** A number with the imaginary unit and nothing else *)

Lemma sign_app r q neg t :
  r <> [] -> sign r = (neg, t) -> sign (r ++ q) = (neg, t ++ q)%list.
Proof.
  destruct r as [|c r]; [contradiction |]. intros _. simpl.
  destruct (c =? 45); [now intros [= <- <-] |].
  destruct (c =? 43); now intros [= <- <-].
Qed.

(** [strtod] reads the number and stops at the [i]. *)
Lemma strtod_numeral_unit r neg t :
  r <> [] -> sign r = (neg, t) -> numeral t ->
  exists x, strtod (r ++ [105]) = Some (x, [105]).
Proof.
  intros Hne Hs Ht. unfold strtod, mantissa.
  rewrite (sign_app r [105] neg t Hne Hs).
  destruct Ht as [ip Hip0 Hip|ip fp Hip0 Hip Hfp].
  - destruct (DecoderFacts.digits_run ip 0%Z [105] Hip eq_refl) as [v Hv].
    rewrite Hv. cbn [N.eqb Pos.eqb].
    destruct ip as [|a ip]; [contradiction |]. simpl. eexists. reflexivity.
  - rewrite <- app_assoc. cbn [app].
    destruct (DecoderFacts.digits_run ip 0%Z (46 :: fp ++ [105]) Hip eq_refl)
      as [v Hv].
    rewrite Hv, N.eqb_refl.
    destruct (DecoderFacts.digits_run fp v [105] Hfp eq_refl) as [w Hw].
    rewrite Hw.
    destruct ip as [|a ip]; [contradiction |]. simpl. eexists. reflexivity.
Qed.

(** [float] does not accept a number followed by [i]. *)
Lemma float_numeral_unit r : signed_numeral r -> float (r ++ [105]) = None.
Proof.
  intros Hr.
  assert (Hp := DecoderFacts.signed_numeral_plain r Hr).
  destruct (DecoderFacts.sign_of_signed_numeral r Hr) as (neg & t & Hs & Ht).
  destruct (DecoderFacts.signed_numeral_head unicode_isspace r Hr)
    as (c & r' & -> & _).
  destruct (strtod_numeral_unit (c :: r') neg t ltac:(discriminate) Hs Ht)
    as [x Hx].
  unfold float_of_str.
  assert (E : map (PyStr.to_ascii unicode_isspace unicode_decimal)
                ((c :: r') ++ [105])
              = (c :: r') ++ [105]).
  { rewrite map_app. f_equal.
    clear - Hp. induction Hp as [|a l Ha _ IH]; [reflexivity |].
    simpl. now rewrite (DecoderFacts.plain_to_ascii _ _ a Ha), IH. }
  rewrite E.
  assert (U : existsb (N.eqb 95) ((c :: r') ++ [105]) = false).
  { rewrite existsb_app.
    assert (U1 : existsb (N.eqb 95) (c :: r') = false).
    { clear - Hp. induction Hp as [|a l Ha _ IH]; [reflexivity |].
      cbn [existsb]. now rewrite (DecoderFacts.plain_not_underscore a Ha), IH. }
    now rewrite U1. }
  rewrite U. unfold float_from_string_inner.
  inversion Hp as [|? ? Hc Hp']; subst.
  cbn [app lstrip_ascii]. rewrite (DecoderFacts.plain_not_ISSPACE c Hc).
  rewrite rev_app_distr. cbn [rev app lstrip_ascii].
  change (Py_ISSPACE 105) with false. cbn iota.
  change (105 :: rev r') with ([105] ++ rev r').
  rewrite rev_app_distr, rev_involutive. cbn [rev app].
  unfold ascii_strtod. cbn [app] in Hx. now rewrite Hx.
Qed.

Lemma numeral_no_sign t : numeral t -> no_sign t.
Proof.
  intros [ip _ Hip|ip fp _ Hip Hfp].
  - now apply DecoderFacts.all_digits_no_sign.
  - apply Forall_app. split; [now apply DecoderFacts.all_digits_no_sign |].
    constructor; [reflexivity | now apply DecoderFacts.all_digits_no_sign].
Qed.

Lemma no_inner_sign_numeral_unit r :
  signed_numeral r -> has_inner_sign (r ++ [105]) = false.
Proof.
  intros [t Ht|c t Hc Ht].
  - destruct (DecoderFacts.numeral_head t Ht) as (a & t' & -> & Ha).
    pose proof (numeral_no_sign _ Ht) as N. inversion N as [|? ? _ N']; subst.
    cbn [app has_inner_sign]. rewrite DecoderFacts.inner_sign_app.
    rewrite (DecoderFacts.inner_sign_no_sign t' a N'). reflexivity.
  - cbn [app has_inner_sign]. rewrite DecoderFacts.inner_sign_app.
    rewrite (DecoderFacts.inner_sign_no_sign t c (numeral_no_sign t Ht)).
    reflexivity.
Qed.

(** X15 (a pure imaginary number is not read).  On a number followed by
    [i] and nothing else, as ["2i"] or ["-0.5i"], the decoder raises
    [ValueError]: the pattern asks for a real part and a sign before the
    imaginary part, and [float] does not read the [i]. *)
Theorem pure_imaginary_is_rejected (r : str) :
  signed_numeral r ->
  parse_complex (r ++ [105])
  = inl (ValueError
           (of_string "Cannot parse complex number: " ++ r ++ [105])).
Proof.
  intros Hr.
  destruct (DecoderFacts.signed_numeral_head unicode_isspace r Hr)
    as (a & r' & E & Ha).
  assert (S : strip (r ++ [105]) = r ++ [105]).
  { rewrite E.
    pose proof (DecoderFacts.strip_blanks unicode_isspace [] a r' 105 []
                  (Forall_nil _) (Forall_nil _) Ha eq_refl) as H.
    cbn [app] in H. rewrite app_nil_r in H. exact H. }
  unfold Validate.parse_complex. rewrite S.
  destruct (match_items pattern (r ++ [105])) as [m|] eqn:M.
  - apply DecoderFacts.match_has_inner_sign in M.
    rewrite (no_inner_sign_numeral_unit r Hr) in M. discriminate M.
  - now rewrite (float_numeral_unit r Hr).
Qed.

End Tables.

Lemma pure_imaginary_is_rejected_witness :
  parse_complex (fun _ => false) (fun _ => None) (of_string "-0.5i")
  = inl (ValueError (of_string "Cannot parse complex number: -0.5i")).
Proof.
  apply (pure_imaginary_is_rejected (fun _ => false) (fun _ => None)
           (of_string "-0.5")).
  apply (sign_numeral 45 (of_string "0.5")); [reflexivity |].
  apply (numeral_fraction (of_string "0") (of_string "5"));
    [discriminate | repeat constructor | repeat constructor].
Defined.

(** The theorem at work: ["1.5 - 2.25i"] followed by ["-3j and more"]. *)
Lemma parse_complex_ignores_what_follows_witness :
  parse_complex (fun _ => false) (fun _ => None)
    (of_string " 1.5 - 2.25i-3j and more")
  = parse_complex (fun _ => false) (fun _ => None) (of_string "1.5 - 2.25i")
  /\ exists z,
       parse_complex (fun _ => false) (fun _ => None)
         (of_string " 1.5 - 2.25i-3j and more")
       = inr z.
Proof.
  apply (parse_complex_ignores_what_follows (fun _ => false) (fun _ => None)
           (of_string "1.5") 45 (of_string "2.25") (of_string " ")
           (of_string " ") (of_string " ") [] (of_string "-3j and more")).
  - apply unsigned_numeral.
    apply (numeral_fraction (of_string "1") (of_string "5"));
      [discriminate | repeat constructor | repeat constructor].
  - reflexivity.
  - apply (numeral_fraction (of_string "2") (of_string "25"));
      [discriminate | repeat constructor | repeat constructor].
  - repeat constructor.
  - repeat constructor.
  - repeat constructor.
  - constructor.
Defined.

End DecoderEdges.

(** * The decoder, case by case *)

Module DecoderCases.

Import PyStr Validate.

Local Open Scope N_scope.

Section Tables.

Variable unicode_isspace : N -> bool.
Variable unicode_decimal : N -> option digit.

Local Abbreviation isspace := (PyStr.isspace unicode_isspace).
Local Abbreviation isdecimal := (PyStr.isdecimal unicode_decimal).
Local Abbreviation strip := (PyStr.strip unicode_isspace).
Local Abbreviation float := (PyStr.float_of_str unicode_isspace unicode_decimal).
Local Abbreviation pattern := (complex_pattern unicode_isspace unicode_decimal).
Local Abbreviation parse_complex :=
  (Validate.parse_complex unicode_isspace unicode_decimal).
Local Abbreviation starts_affine :=
  (Validate.starts_affine isspace isdecimal).

(** *** What the pattern matches *)

Lemma optional_sign g :
  Forall (fun a => is_sign a = true) g -> (List.length g <= 1)%nat ->
  g = [] \/ g = [43] \/ g = [45].
Proof.
  intros F L. destruct g as [|a [|b g]]; [now left | | simpl in L; lia].
  inversion F as [|? ? Ha _]; subst.
  destruct (DecoderFacts.sign_cases a Ha) as [-> | ->]; auto.
Qed.

Lemma optional_dot g :
  Forall (fun a => is_dot a = true) g -> (List.length g <= 1)%nat ->
  g = [] \/ g = [46].
Proof.
  intros F L. destruct g as [|a [|b g]]; [now left | | simpl in L; lia].
  inversion F as [|? ? Ha _]; subst. right. f_equal.
  now apply N.eqb_eq.
Qed.

Lemma imaginary_unit_letter u : imaginary_unit u = true <-> unit_letter u.
Proof.
  unfold imaginary_unit, unit_letter.
  rewrite !orb_true_iff, !N.eqb_eq. tauto.
Qed.

(** A match of the pattern is a start of the affine form. *)
Lemma match_starts_affine t m :
  match_items pattern t = Some m -> starts_affine t.
Proof.
  intros H. destruct (DecoderFacts.match_items_sound _ _ _ H) as (F & r & ->).
  clear H. unfold complex_pattern in F.
  destruct m as [|g0 m]; [inversion F |]. apply Forall2_cons_iff in F as [[T0 L0] F].
  destruct m as [|g1 m]; [inversion F |]. apply Forall2_cons_iff in F as [[T1 L1] F].
  destruct m as [|g2 m]; [inversion F |]. apply Forall2_cons_iff in F as [[T2 L2] F].
  destruct m as [|g3 m]; [inversion F |]. apply Forall2_cons_iff in F as [[T3 _] F].
  destruct m as [|g4 m]; [inversion F |]. apply Forall2_cons_iff in F as [[T4 _] F].
  destruct m as [|g5 m]; [inversion F |]. apply Forall2_cons_iff in F as [[T5 L5] F].
  destruct m as [|g6 m]; [inversion F |]. apply Forall2_cons_iff in F as [[T6 _] F].
  destruct m as [|g7 m]; [inversion F |]. apply Forall2_cons_iff in F as [[T7 L7] F].
  destruct m as [|g8 m]; [inversion F |]. apply Forall2_cons_iff in F as [[T8 L8] F].
  destruct m as [|g9 m]; [inversion F |]. apply Forall2_cons_iff in F as [[T9 _] F].
  destruct m as [|g10 m]; [inversion F |]. apply Forall2_cons_iff in F as [[T10 _] F].
  destruct m as [|g11 m]; [inversion F |]. apply Forall2_cons_iff in F as [[T11 L11] F].
  inversion F; subst. cbn [fst snd] in *.
  destruct g5 as [|sgn [|? ?]]; try discriminate L5.
  destruct g11 as [|u [|? ?]]; try discriminate L11.
  inversion T5 as [|? ? Hsgn _]; subst. inversion T11 as [|? ? Hu _]; subst.
  exists g0, (g1 ++ g2 ++ g3), g4, sgn, g6, (g7 ++ g8 ++ g9), g10, u, r.
  split; [cbn [List.concat]; repeat (rewrite <- app_assoc; cbn [app]);
          reflexivity |].
  split; [now apply optional_sign |].
  split; [exists g1, g2, g3; repeat split; auto using optional_dot |].
  split; [exact T4 |].
  split; [now apply DecoderFacts.sign_cases |].
  split; [exact T6 |].
  split; [exists g7, g8, g9; repeat split; auto using optional_dot |].
  split; [exact T10 |].
  now apply imaginary_unit_letter.
Qed.

(** A start of the affine form is matched by the pattern. *)
Lemma starts_affine_match t :
  starts_affine t -> match_items pattern t <> None.
Proof.
  intros (sg & re & ws1 & sgn & ws2 & im & ws3 & u & rest & -> & Hsg
          & (ip & dot & fp & -> & Hip0 & Hip & Hdot & Hfp) & H1 & Hsgn & H2
          & (ip' & dot' & fp' & -> & Hip0' & Hip' & Hdot' & Hfp') & H3 & Hu).
  replace (sg ++ (ip ++ dot ++ fp) ++ ws1 ++ sgn :: ws2
           ++ (ip' ++ dot' ++ fp') ++ ws3 ++ u :: rest)
    with (List.concat [sg; ip; dot; fp; ws1; [sgn]; ws2; ip'; dot'; fp';
                       ws3; [u]] ++ rest)
    by (cbn [List.concat]; repeat (rewrite <- app_assoc; cbn [app]);
        reflexivity).
  apply DecoderFacts.match_items_complete. unfold complex_pattern.
  assert (Dot : forall d, d = [] \/ d = [46] ->
                  takes (Opt, is_dot) d).
  { intros d [-> | ->]; split; simpl; repeat constructor. }
  assert (Sg : takes (Opt, is_sign) sg).
  { destruct Hsg as [-> | [-> | ->]]; split; simpl; repeat constructor. }
  assert (Sgn : takes (One, is_sign) [sgn]).
  { destruct Hsgn as [-> | ->]; split; simpl; repeat constructor. }
  assert (U : takes (One, imaginary_unit) [u]).
  { split; [| reflexivity]. constructor; [| constructor].
    now apply imaginary_unit_letter. }
  repeat (apply Forall2_cons; [first [exact Sg | exact Sgn | exact U
                                     | now apply Dot | now split] |]).
  constructor.
Qed.

(** *** The three cases *)


End Tables.

Lemma last_of_blanks p : forall a,
  blanks p -> last p a = a \/ last p a = 32.
Proof.
  induction p as [|b p IH]; intros a H; [now left |].
  inversion H as [|? ? -> Hp]; subst. right.
  rewrite DecoderFacts.last_cons. destruct (IH 32 Hp) as [E | E]; exact E.
Qed.

Lemma last_app_cons (l : str) a p : forall d,
  last (l ++ a :: p) d = last p a.
Proof.
  induction l as [|b l IH]; intros d; [apply DecoderFacts.last_cons |].
  change (last (b :: (l ++ a :: p)) d = last p a).
  rewrite DecoderFacts.last_cons. apply IH.
Qed.



End DecoderCases.

(** * The harness on NumPy *)

Module HarnessFacts.

Import Validate.

Local Open Scope string_scope.

Section NumPy.

Variable R : Type.
Variable seed : Z -> R.
Variable normal : R -> float * R.
Variable hypot : float -> float -> float.

Local Abbreviation np := (Np64.numpy64 R seed normal hypot).

Ltac whatever_the_modulus :=
  vm_compute;
  repeat match goal with
         | |- context [PrimFloat.leb (hypot ?a ?b) ?c] =>
             destruct (PrimFloat.leb (hypot a b) c)
         end;
  reflexivity.

Lemma zdotu_passes : passed (validate_zdotu np) = true.
Proof. whatever_the_modulus. Qed.

Lemma zdotc_passes : passed (validate_zdotc np) = true.
Proof. whatever_the_modulus. Qed.

Lemma norms_pass : passed (validate_norms np) = true.
Proof. vm_compute. reflexivity. Qed.

Lemma asum_passes : passed (validate_asum np) = true.
Proof. vm_compute. reflexivity. Qed.

(** X16 (the harness passes on NumPy).  In binary64, whatever the random
    generator and whatever the modulus function of complex numbers, the
    four Level 1 scenarios of [validate_complex_blas.py] pass: the dot
    products of the tables are their expected values exactly, the norms
    and sums are within [1e-10].  So the exit status of the harness is
    0 when the child process that regenerates the fixtures ends with 0,
    and 1 otherwise. *)
Theorem harness_passes_on_numpy (returncode : Z) :
  (passed (validate_zdotu np) = true
   /\ passed (validate_zdotc np) = true
   /\ passed (validate_norms np) = true
   /\ passed (validate_asum np) = true)
  /\ run np returncode = (if (returncode =? 0)%Z then 0 else 1)%Z.
Proof.
  split.
  - split; [apply zdotu_passes |].
    split; [apply zdotc_passes |].
    split; [apply norms_pass | apply asum_passes].
  - rewrite ValidateFacts.run_value, ValidateFacts.generate_test_summary_value.
    rewrite zdotu_passes, zdotc_passes, norms_pass, asum_passes.
    change (passed validate_level2_operations) with true.
    now destruct (returncode =? 0)%Z.
Qed.

End NumPy.

(** X17 (what the Level 2 scenario prints).  The product
    [alpha*A*x + beta*y] that [validate_level2_operations] computes and
    prints is [[4+2j, 11+5j]], and [H*x] is [[4+0j, 6+2j]]; the line it
    prints as the expectation reads [[4+2i, 11+3i]], which is not the
    product it printed, and nothing compares the two. *)
Theorem level2_scenario_prints (out : list line) :
  In [Lit "y = alpha*A*x + beta*y = "; Arr [Complex 4 2; Complex 11 5]]
     (snd (validate_level2_operations out))
  /\ In [Lit "Expected: [(1+i)*(1+i) + 2*2, 3*(1+i) + (4+i)*2] = [4+2i, 11+3i]"]
       (snd (validate_level2_operations out))
  /\ In [Lit "H*x = "; Arr [Complex 4 0; Complex 6 2]]
       (snd (validate_level2_operations out))
  /\ fst (validate_level2_operations out) = true.
Proof.
  rewrite (ValidateFacts.appends_level2 out). cbn [fst snd].
  split; [apply in_or_app; right; vm_compute; tauto |].
  split; [apply in_or_app; right; vm_compute; tauto |].
  split; [apply in_or_app; right; vm_compute; tauto | reflexivity].
Qed.

End HarnessFacts.

(** * The files a run writes *)

Module FileFacts.

Import Generate Fixture.

Local Open Scope string_scope.

Section AnyLibrary.

Variable np : Np.api.
Variable float_repr : float -> string.

Local Abbreviation leaves_files := (Fixture.leaves_files np).

Lemma leaves_ret {A : Type} (a : A) : leaves_files (ret np a).
Proof. intros st b st' [= _ <-]. reflexivity. Qed.

Lemma leaves_bind {A B : Type} (c : gen np A) (k : A -> gen np B) :
  leaves_files c -> (forall a, leaves_files (k a)) ->
  leaves_files (bind np c k).
Proof.
  intros Hc Hk st b st' H.
  apply GenerateFacts.bind_inr in H as (a & st1 & H1 & H2).
  rewrite (Hk a _ _ _ H2). exact (Hc _ _ _ H1).
Qed.

Lemma leaves_lift {A : Type} (r : exn + A) : leaves_files (lift np r).
Proof. intros st a st'. unfold lift. destruct r; [discriminate |]. now intros [= _ <-]. Qed.

Lemma leaves_print (l : line) : leaves_files (print np l).
Proof. intros st a st' [= _ <-]. reflexivity. Qed.

Lemma leaves_set_test_data k v : leaves_files (set_test_data np k v).
Proof. intros st a st' [= _ <-]. reflexivity. Qed.

Lemma leaves_init s : leaves_files (init np s).
Proof. intros st a st' [= _ <-]. reflexivity. Qed.

Lemma leaves_standard_normal : leaves_files (standard_normal np).
Proof.
  intros st a st'. unfold standard_normal.
  destruct (Np.standard_normal np (rng np st)) as [x g].
  now intros [= _ <-].
Qed.

Lemma leaves_for_each {A B : Type} (xs : list A) (body : A -> gen np B) :
  (forall x, leaves_files (body x)) -> leaves_files (for_each np xs body).
Proof.
  intros Hb. induction xs as [|x xs IH]; simpl.
  - apply leaves_ret.
  - apply leaves_bind; [apply Hb | intros b].
    apply leaves_bind; [apply IH | intros bs]. apply leaves_ret.
Qed.

Lemma leaves_randn n : leaves_files (randn np n).
Proof.
  induction n as [|n IH]; simpl.
  - apply leaves_ret.
  - apply leaves_bind; [apply leaves_standard_normal | intros x].
    apply leaves_bind; [apply IH | intros xs]. apply leaves_ret.
Qed.

Lemma leaves_randn2 m n : leaves_files (randn2 np m n).
Proof.
  induction m as [|m IH]; simpl.
  - apply leaves_ret.
  - apply leaves_bind; [apply leaves_randn | intros x].
    apply leaves_bind; [apply IH | intros xs]. apply leaves_ret.
Qed.

Ltac leaves :=
  repeat first
    [ apply leaves_ret | apply leaves_print | apply leaves_lift
    | apply leaves_set_test_data | apply leaves_init
    | apply leaves_randn | apply leaves_randn2
    | apply leaves_bind; [| intro]
    | apply leaves_for_each; intro
    | match goal with
      | |- Fixture.leaves_files _ (let '(_, _) := ?p in _) => destruct p
      | |- Fixture.leaves_files _ (if ?b then _ else _) => destruct b
      end ].

Lemma leaves_generate_level1_tests : leaves_files (generate_level1_tests np).
Proof.
  unfold generate_level1_tests, level1_test_case, random_vector. leaves.
Qed.

Lemma leaves_generate_level2_tests : leaves_files (generate_level2_tests np).
Proof.
  unfold generate_level2_tests, level2_test_case,
    generate_rank1_update_tests, random_vector, random_matrix.
  leaves.
Qed.

Lemma leaves_generate_level3_tests : leaves_files (generate_level3_tests np).
Proof.
  unfold generate_level3_tests, level3_test_case, random_matrix. leaves.
Qed.

Lemma file_content_other fs name other content :
  String.eqb other name = false ->
  file_content (dict_like_set fs name content) other = file_content fs other.
Proof.
  intros H. induction fs as [|[n' c'] fs IH]; simpl.
  - now rewrite H.
  - destruct (String.eqb name n') eqn:E; simpl.
    + apply String.eqb_eq in E. subst n'. now rewrite H.
    + now rewrite IH.
Qed.

(** What a run that ends normally has done to the files. *)
Lemma main_seeded_files s st st' :
  main_seeded np float_repr s st = inr (tt, st') ->
  exists text,
    files np st'
    = dict_like_set (files np st) "complex_blas_test_data.json" text.
Proof.
  unfold main_seeded, generate_all_tests, save_test_data. intros H.
  apply GenerateFacts.bind_inr in H as (u0 & s0 & H0 & H).
  apply GenerateFacts.bind_inr in H as (u1 & s1 & H1 & H).
  match type of H with
  | ?c s1 = _ => assert (L : leaves_files c) by leaves
  end.
  rewrite (L _ _ _ H). clear L H.
  apply GenerateFacts.bind_inr in H1 as (v1 & t1 & E1 & H1).
  apply GenerateFacts.bind_inr in H1 as (v2 & t2 & E2 & H1).
  apply GenerateFacts.bind_inr in H1 as (v3 & t3 & E3 & H1).
  apply GenerateFacts.bind_inr in H1 as (v4 & t4 & E4 & H1).
  rewrite (leaves_print _ _ _ _ H1).
  injection E4 as _ <-. cbn [files].
  rewrite (leaves_generate_level3_tests _ _ _ E3),
    (leaves_generate_level2_tests _ _ _ E2),
    (leaves_generate_level1_tests _ _ _ E1),
    (leaves_init _ _ _ _ H0).
  eexists. reflexivity.
Qed.

(** X18 (the one file a run writes).  After a run that ends normally,
    [complex_blas_test_data.json] holds the text [json.dump] makes of the
    test data, replacing what the file held, and every other file is as
    it was before the run. *)
Theorem generation_writes_one_file (s : Z) (st st' : state np)
    (name : string) :
  main_seeded np float_repr s st = inr (tt, st') ->
  file_content (files np st') name
  = if String.eqb name "complex_blas_test_data.json"
    then Some (json_dumps float_repr (VDict (test_data np st')))
    else file_content (files np st) name.
Proof.
  intros H.
  destruct (String.eqb name "complex_blas_test_data.json") eqn:E.
  - apply String.eqb_eq in E. subst name.
    exact (GenerateFacts.main_seeded_saved np float_repr s st (tt, st') H).
  - destruct (main_seeded_files s st st' H) as [text ->].
    now apply file_content_other.
Qed.

End AnyLibrary.

Lemma generation_writes_one_file_witness :
  exists st',
    main_seeded numpy_ones (fun _ => "1.0") 42
      (State numpy_ones [] tt [] [("notes.txt", "kept")])
    = inr (tt, st')
    /\ file_content (files numpy_ones st') "notes.txt"
       = (if String.eqb "notes.txt" "complex_blas_test_data.json"
          then Some (json_dumps (fun _ => "1.0")
                       (VDict (test_data numpy_ones st')))
          else file_content [("notes.txt", "kept")] "notes.txt").
Proof.
  destruct (RunFacts.main_seeded_ones_runs (fun _ => "1.0") 42
              (State numpy_ones [] tt [] [("notes.txt", "kept")]))
    as [st' E].
  exists st'. split; [exact E |].
  exact (generation_writes_one_file numpy_ones (fun _ => "1.0") 42
           (State numpy_ones [] tt [] [("notes.txt", "kept")]) st'
           "notes.txt" E).
Defined.

End FileFacts.
